(** * The aggregation pipeline of the travel aggregator

    A shallow embedding of [src/lib/aggregate] (normalize, dedupe, rank,
    filterByDateRange) and of the provider fan-out of the search route,
    followed by the search route itself with the geocoder it calls, the cache
    and the retry loop of the providers, the location filter of OpenTripMap,
    and the shortlist with its exports.

    JavaScript numbers are IEEE-754 binary64 values; they are embedded as
    Rocq's primitive [float]s, so that [+], [-], [*], [/], [Math.sqrt],
    [Math.abs] and the comparisons compute bit for bit what the engine
    computes.  The parts of the run time that the language standard leaves to
    the engine or to a library (SHA-256, luxon's zone conversion, the clock,
    [Date] parsing, [Math.sin], [Math.cos], [Math.atan2], [Math.log10]) are
    the fields of the class [Runtime].  The clock is read anew by every call
    of [Date.now()] and of [new Date()]: the class holds the readings in the
    order of the calls, and a function that reads the clock takes the number
    of the readings made before it and gives, with its result, the number of
    the readings made after it.

    A JavaScript string is embedded as a [string] whose characters are the
    code units of the string (code units 0..255).  An optional field is an
    [option], [None] standing for [undefined]. *)

From Stdlib Require Import ZArith List Bool String Ascii Lia.
From Stdlib Require Import Permutation Sorted.
From Stdlib Require Import Floats.
From Stdlib Require Import DecimalString.
From Stdlib Require Uint63.
Import ListNotations.

Set Warnings "-inexact-float".

Local Open Scope string_scope.
Local Open Scope list_scope.

(** ** The JavaScript run time *)

Module Js.

Open Scope float_scope.

(** [ToBoolean] on a number: [0], [-0] and [NaN] are falsy. *)
Definition truthy (x : float) : bool :=
  negb (x =? 0) && negb (is_nan x).

(** [ToBoolean] on an optional number: [undefined] is falsy. *)
Definition truthy_num (o : option float) : bool :=
  match o with
  | Some x => truthy x
  | None => false
  end.

(** [ToBoolean] on an optional string: [undefined] and the empty string are
    falsy. *)
Definition truthy_str (o : option string) : bool :=
  match o with
  | Some s => negb (String.eqb s EmptyString)
  | None => false
  end.

(** [a || b] on numbers. *)
Definition or_num (a b : float) : float :=
  if truthy a then a else b.

(** [a || b] where [a] may be [undefined]. *)
Definition or_opt (a : option float) (b : float) : float :=
  match a with
  | Some x => or_num x b
  | None => b
  end.

(** [Math.min(a, b)]: [NaN] is contagious and [-0] is below [+0]. *)
Definition Math_min (a b : float) : float :=
  if is_nan a || is_nan b then nan
  else if b <? a then b
  else if a <? b then a
  else if get_sign a then a else b.

(** [Math.max(a, b)]: [NaN] is contagious and [+0] is above [-0]. *)
Definition Math_max (a b : float) : float :=
  if is_nan a || is_nan b then nan
  else if a <? b then b
  else if b <? a then a
  else if get_sign a then b else a.

Definition Math_abs (x : float) : float := PrimFloat.abs x.

(** [Math.PI], the double nearest to pi. *)
Definition Math_PI : float := 0x1.921fb54442d18p+1.

(** A length or an edit distance as a number. *)
Definition of_nat (n : nat) : float :=
  PrimFloat.of_uint63 (Uint63.of_Z (Z.of_nat n)).

(** *** Strings *)

Definition code (c : ascii) : nat := nat_of_ascii c.

(** White space and line terminators, the characters that [trim] strips
    and that [\s] matches. *)
Definition is_space (c : ascii) : bool :=
  let n := code c in
  ((9 <=? n) && (n <=? 13) || (n =? 32) || (n =? 160))%nat.

(** The characters that [\w] matches. *)
Definition is_word (c : ascii) : bool :=
  let n := code c in
  ((48 <=? n) && (n <=? 57) || (65 <=? n) && (n <=? 90)
   || (n =? 95) || (97 <=? n) && (n <=? 122))%nat.

Definition lower_char (c : ascii) : ascii :=
  let n := code c in
  if ((65 <=? n) && (n <=? 90)
      || (192 <=? n) && (n <=? 222) && negb (n =? 215))%nat
  then ascii_of_nat (n + 32) else c.

Fixpoint toLowerCase (s : string) : string :=
  match s with
  | EmptyString => EmptyString
  | String c s' => String (lower_char c) (toLowerCase s')
  end.

Fixpoint trimStart (s : string) : string :=
  match s with
  | EmptyString => EmptyString
  | String c s' => if is_space c then trimStart s' else s
  end.

(** Strips the white space at the end: a character is dropped when it is
    white space and nothing but white space follows. *)
Fixpoint trimEnd (s : string) : string :=
  match s with
  | EmptyString => EmptyString
  | String c s' =>
      match trimEnd s' with
      | EmptyString => if is_space c then EmptyString else String c EmptyString
      | t => String c t
      end
  end.

Definition trim (s : string) : string := trimEnd (trimStart s).

(** [s.replace(/[^\w\s]/g, '')] *)
Fixpoint strip_punctuation (s : string) : string :=
  match s with
  | EmptyString => EmptyString
  | String c s' =>
      if is_word c || is_space c then String c (strip_punctuation s')
      else strip_punctuation s'
  end.

(** [s.replace(/\s+/g, ' ')]: [in_run] tells that the previous character
    was white space, already replaced. *)
Fixpoint collapse_spaces_from (in_run : bool) (s : string) : string :=
  match s with
  | EmptyString => EmptyString
  | String c s' =>
      if is_space c
      then if in_run then collapse_spaces_from true s'
           else String " "%char (collapse_spaces_from true s')
      else String c (collapse_spaces_from false s')
  end.

Definition collapse_spaces (s : string) : string :=
  collapse_spaces_from false s.

(** *** [Array.prototype.sort]

    The standard asks for a stable sort and reads the result [v] of the
    comparison function as follows: [v < 0] puts the first argument first,
    [v > 0] puts the second argument first, and [0] or [NaN] leaves the two
    in their order.  With a consistent comparison function the sorted array
    is unique, whichever algorithm the engine runs; it is computed here by
    insertion from the right. *)

Fixpoint sort_insert {A : Type} (comparefn : A -> A -> float)
  (x : A) (sorted : list A) : list A :=
  match sorted with
  | [] => [x]
  | y :: rest =>
      if 0 <? comparefn x y then y :: sort_insert comparefn x rest
      else x :: sorted
  end.

Definition Array_sort {A : Type} (comparefn : A -> A -> float)
  (l : list A) : list A :=
  fold_right (sort_insert comparefn) [] l.

(** *** [Array.prototype.map], for a callback that reads the clock

    The callback is called on the elements in their order, each call from
    the state that the call before it leaves. *)
Fixpoint Array_map {A B S : Type} (callback : A -> S -> B * S)
  (l : list A) (state : S) : list B * S :=
  match l with
  | [] => ([], state)
  | x :: rest =>
      let '(y, state) := callback x state in
      let '(ys, state) := Array_map callback rest state in
      (y :: ys, state)
  end.

End Js.

(** ** Data model ([src/lib/types.ts]) *)

Inductive HappenCategory : Type :=
| event | exhibition | attraction | seminar | tour.

Definition HappenCategory_eqb (a b : HappenCategory) : bool :=
  match a, b with
  | event, event | exhibition, exhibition | attraction, attraction
  | seminar, seminar | tour, tour => true
  | _, _ => false
  end.

(** [xs.includes(c)] on an array of categories. *)
Definition includes (xs : list HappenCategory) (c : HappenCategory) : bool :=
  existsb (HappenCategory_eqb c) xs.

Record ProviderItem : Type := {
  externalId : string;
  source : string;
  title : string;
  description : option string;
  category : list HappenCategory;
  startTime : option string;
  endTime : option string;
  timezone : option string;
  venueName : option string;
  address : option string;
  city : option string;
  lat : option float;
  lng : option float;
  priceMin : option float;
  priceMax : option float;
  currency : option string;
  url : string;
  imageUrl : option string;
  tags : option (list string);
  isFamilyFriendly : option bool;
  isIndoor : option bool;
  language : option string;
  lastUpdated : option string;
  popularity : option float;
  attendeeCount : option float
}.

(** [NormalizedItem extends ProviderItem]. *)
Record NormalizedItem : Type := {
  base :> ProviderItem;
  id : string;
  normalizedTitle : string;
  score : option float
}.

(** [{ ...item, id: i }] *)
Definition with_id (item : NormalizedItem) (i : string) : NormalizedItem :=
  {| base := base item; id := i;
     normalizedTitle := normalizedTitle item; score := score item |}.

(** [{ ...item, score }] *)
Definition with_score (item : NormalizedItem) (s : float) : NormalizedItem :=
  {| base := base item; id := id item;
     normalizedTitle := normalizedTitle item; score := Some s |}.

(** ** The aggregation functions ([src/lib/aggregate]) *)

(** What the aggregation functions call into: the hash, luxon, the clock,
    [Date] and the part of [Math] that the engine implements. *)
Class Runtime : Type := {
  (** [crypto.createHash('sha256').update(s).digest('hex')] *)
  sha256_hex : string -> string;
  (** [DateTime.fromISO(t, { zone }).setZone(target).toISO()]; [None] when
      the result is [null] or the call throws. *)
  setZone : string -> string -> string -> option string;
  (** [new Date().toISOString()]: [now_iso k] is what the call number [k]
      gives, the calls that one call of a function makes being numbered from
      0 in their order. *)
  now_iso : nat -> string;
  (** [new Date(s).getTime()]: milliseconds since the epoch, or [NaN]. *)
  Date_getTime : string -> float;
  (** [Date.now()]: [Date_now k] is what the call number [k] returns, the
      calls that one call of a function makes being numbered from 0 in their
      order. *)
  Date_now : nat -> float;
  Math_sin : float -> float;
  Math_cos : float -> float;
  Math_log10 : float -> float;
  Math_atan2 : float -> float -> float
}.

Section Aggregate.

Open Scope float_scope.

Context {rt : Runtime}.

(** A field read where a number is expected: [undefined] becomes [NaN]. *)
Definition num (o : option float) : float :=
  match o with
  | Some x => x
  | None => nan
  end.

(** [new Date(field).getTime()]: an [undefined] field gives [NaN]. *)
Definition time_of (o : option string) : float :=
  match o with
  | Some s => Date_getTime s
  | None => nan
  end.

(** *** levenshteinDistance

    The matrix is filled row by row.  [fill_row] is the loop on [j] for one
    character [c] of [str2]: [up_row] holds [matrix[i-1][j..]], [diag] is
    [matrix[i-1][j-1]] and [left] is [matrix[i][j-1]]. *)
Fixpoint fill_row (c : ascii) (str1 : string) (up_row : list nat)
  (diag left : nat) : list nat :=
  match str1, up_row with
  | String a str1', up :: up_row' =>
      let v := if Ascii.eqb c a then diag
               else Nat.min (diag + 1) (Nat.min (left + 1) (up + 1)) in
      v :: fill_row c str1' up_row' up v
  | _, _ => []
  end.

(** The loop on [i]: [prev] is row [i] of the matrix. *)
Fixpoint fill_rows (str1 str2 : string) (i : nat) (prev : list nat)
  : list nat :=
  match str2 with
  | EmptyString => prev
  | String c str2' =>
      fill_rows str1 str2' (S i)
        (S i :: fill_row c str1 (tl prev) (hd 0%nat prev) (S i))
  end.

Definition levenshteinDistance (str1 str2 : string) : nat :=
  last (fill_rows str1 str2 0 (seq 0 (S (String.length str1)))) 0%nat.

Definition stringSimilarity (str1 str2 : string) : float :=
  let s1 := Js.trim (Js.toLowerCase str1) in
  let s2 := Js.trim (Js.toLowerCase str2) in
  if String.eqb s1 s2 then 1
  else if (String.length s1 =? 0)%nat || (String.length s2 =? 0)%nat then 0
  else
    let maxLen := Nat.max (String.length s1) (String.length s2) in
    let editDistance := levenshteinDistance s1 s2 in
    1 - Js.of_nat editDistance / Js.of_nat maxLen.

(** *** getDistance: haversine distance in meters *)
Definition getDistance (lat1 lng1 lat2 lng2 : float) : float :=
  let R := 6371000 in
  let phi1 := lat1 * Js.Math_PI / 180 in
  let phi2 := lat2 * Js.Math_PI / 180 in
  let dphi := (lat2 - lat1) * Js.Math_PI / 180 in
  let dlambda := (lng2 - lng1) * Js.Math_PI / 180 in
  let a := Math_sin (dphi / 2) * Math_sin (dphi / 2) +
           Math_cos phi1 * Math_cos phi2 *
           Math_sin (dlambda / 2) * Math_sin (dlambda / 2) in
  let c := 2 * Math_atan2 (PrimFloat.sqrt a) (PrimFloat.sqrt (1 - a)) in
  R * c.

(** *** normalize *)

(** The callback of [items.filter]. *)
Definition passesCategoryFilter
  (filterCategories : option (list HappenCategory)) (item : ProviderItem)
  : bool :=
  match filterCategories with
  | None => true
  | Some fc =>
      if (List.length fc =? 0)%nat then true
      else existsb (fun cat => includes fc cat) (category item)
  end.

Definition itemId (item : ProviderItem) : string :=
  substring 0 16 (sha256_hex (source item ++ ":" ++ externalId item)).

Definition normalizeTitle (t : string) : string :=
  Js.collapse_spaces (Js.strip_punctuation (Js.trim (Js.toLowerCase t))).

(** The conversion of [startTime] and of [endTime] to the target zone. *)
Definition convertTime (time itemZone : option string) (target : string)
  : option string :=
  match time, itemZone with
  | Some t, Some z =>
      if Js.truthy_str time && Js.truthy_str itemZone
         && negb (String.eqb z target)
      then match setZone t z target with
           | Some t' => if String.eqb t' EmptyString then time else Some t'
           | None => time
           end
      else time
  | _, _ => time
  end.

(** The callback of [.map]; [tick] readings of the clock were made before
    the call, and the call makes one where the item has no date of last
    update. *)
Definition normalizeItem (target : string) (item : ProviderItem) (tick : nat)
  : NormalizedItem * nat :=
  ({| base :=
       {| externalId := externalId item;
          source := source item;
          title := title item;
          description := description item;
          category := category item;
          startTime := convertTime (startTime item) (timezone item) target;
          endTime := convertTime (endTime item) (timezone item) target;
          timezone := Some target;
          venueName := venueName item;
          address := address item;
          city := city item;
          lat := lat item;
          lng := lng item;
          priceMin := priceMin item;
          priceMax := priceMax item;
          currency := currency item;
          url := url item;
          imageUrl := imageUrl item;
          tags := tags item;
          isFamilyFriendly := isFamilyFriendly item;
          isIndoor := isIndoor item;
          language := language item;
          lastUpdated := if Js.truthy_str (lastUpdated item)
                         then lastUpdated item else Some (now_iso tick);
          popularity := popularity item;
          attendeeCount := attendeeCount item |};
      id := itemId item;
      normalizedTitle := normalizeTitle (title item);
      score := None |},
   if Js.truthy_str (lastUpdated item) then tick else S tick).

Definition normalize (items : list ProviderItem) (target : string)
  (filterCategories : option (list HappenCategory)) : list NormalizedItem :=
  fst (Js.Array_map (normalizeItem target)
         (filter (passesCategoryFilter filterCategories) items) 0%nat).

(** *** dedupe *)

Definition titleSimilarity (item uniqueItem : NormalizedItem) : float :=
  stringSimilarity (normalizedTitle item) (normalizedTitle uniqueItem).

Definition timeSimilar (item uniqueItem : NormalizedItem) : bool :=
  if Js.truthy_str (startTime item) && Js.truthy_str (startTime uniqueItem)
  then
    let time1 := time_of (startTime item) in
    let time2 := time_of (startTime uniqueItem) in
    Js.Math_abs (time1 - time2) <? 30 * 60 * 1000
  else false.

Definition locationSimilar (item uniqueItem : NormalizedItem) : bool :=
  if Js.truthy_num (lat item) && Js.truthy_num (lng item)
     && Js.truthy_num (lat uniqueItem) && Js.truthy_num (lng uniqueItem)
  then
    let distance := getDistance (num (lat item)) (num (lng item))
                      (num (lat uniqueItem)) (num (lng uniqueItem)) in
    distance <? 200
  else false.

(** The test of the first [if] of the inner loop. *)
Definition isDuplicateOf (item uniqueItem : NormalizedItem) : bool :=
  ((0.9 <? titleSimilarity item uniqueItem) && timeSimilar item uniqueItem)
  || ((0.8 <? titleSimilarity item uniqueItem)
      && locationSimilar item uniqueItem && timeSimilar item uniqueItem).

(** The test of the second [if]: the new item has more information. *)
Definition hasMoreInformation (item uniqueItem : NormalizedItem) : bool :=
  (negb (Js.truthy_str (description uniqueItem))
     && Js.truthy_str (description item))
  || (negb (Js.truthy_str (imageUrl uniqueItem))
     && Js.truthy_str (imageUrl item))
  || (Js.truthy_num (popularity item)
     && (negb (Js.truthy_num (popularity uniqueItem))
         || (num (popularity uniqueItem) <? num (popularity item)))).

(** The inner loop [for (const uniqueItem of uniqueItems)], up to its
    [break]: [Some] of the updated array when [isDuplicate] was set, [None]
    when the loop ran to its end.  The position written to,
    [uniqueItems.indexOf(uniqueItem)], is the position the loop stands at: an
    earlier occurrence of the same object would have matched first. *)
Fixpoint scanUnique (item : NormalizedItem) (uniqueItems : list NormalizedItem)
  : option (list NormalizedItem) :=
  match uniqueItems with
  | [] => None
  | uniqueItem :: rest =>
      if isDuplicateOf item uniqueItem then
        if hasMoreInformation item uniqueItem
        then Some (with_id item (id uniqueItem) :: rest)
        else Some uniqueItems
      else option_map (cons uniqueItem) (scanUnique item rest)
  end.

(** One turn of the outer loop. *)
Definition dedupeStep (uniqueItems : list NormalizedItem)
  (item : NormalizedItem) : list NormalizedItem :=
  match scanUnique item uniqueItems with
  | Some updated => updated
  | None => uniqueItems ++ [item]
  end.

Definition dedupe (items : list NormalizedItem) : list NormalizedItem :=
  fold_left dedupeStep items [].

(** *** rank *)

Inductive SortBy : Type :=
| recommended | soonest | closest | price.

Definition SortBy_eqb (a b : SortBy) : bool :=
  match a, b with
  | recommended, recommended | soonest, soonest
  | closest, closest | price, price => true
  | _, _ => false
  end.

(** The second argument of [rank]; [{}] is [noParams]. *)
Record RankParams : Type := {
  center : option (float * float);
  sortBy : option SortBy
}.

Definition noParams : RankParams := {| center := None; sortBy := None |}.

Definition categoryWeights (cat : HappenCategory) : float :=
  match cat with
  | event => 1
  | exhibition => 1.2
  | attraction => 1.1
  | seminar => 1.3
  | tour => 1.2
  end.

(** The branch of ['soonest']; [tick] readings of the clock were made before
    it is entered. *)
Definition soonestScore (item : NormalizedItem) (tick : nat) : float * nat :=
  if Js.truthy_str (startTime item) then
    let timeUntil := time_of (startTime item) - Date_now tick in
    (1 / (1 + timeUntil), S tick)
  else (0, tick).

(** The branch of ['closest'], entered with a center [c]. *)
Definition closestScore (c : float * float) (item : NormalizedItem) : float :=
  if Js.truthy_num (lat item) && Js.truthy_num (lng item) then
    let distance := getDistance (fst c) (snd c) (num (lat item)) (num (lng item)) in
    1 / (1 + distance)
  else 0.

(** The branch of ['price']. *)
Definition priceScore (item : NormalizedItem) : float :=
  match priceMin item with
  | Some p => 1 / (1 + p)
  | None => 1
  end.

(** The last branch, the weighted combination of factors; [tick] readings
    of the clock were made before it is entered. *)
Definition recommendedScore (center : option (float * float))
  (item : NormalizedItem) (tick : nat) : float * nat :=
  let score := 0 in
  let score :=
    if Js.truthy_num (popularity item)
    then score + num (popularity item) * 30 else score in
  let score :=
    if Js.truthy_num (attendeeCount item)
    then score + Js.Math_min 10 (Math_log10 (num (attendeeCount item) + 1) * 2)
    else score in
  let '(score, tick) :=
    if Js.truthy_str (lastUpdated item) then
      let hoursSinceUpdate :=
        (Date_now tick - time_of (lastUpdated item)) / (1000 * 60 * 60) in
      (score + Js.Math_max 0 (20 - hoursSinceUpdate / 24), S tick)
    else (score, tick) in
  let score :=
    match center with
    | Some c =>
        if Js.truthy_num (lat item) && Js.truthy_num (lng item) then
          let distance :=
            getDistance (fst c) (snd c) (num (lat item)) (num (lng item)) in
          score + Js.Math_max 0 (20 - distance / 1000)
        else score
    | None => score
    end in
  let score := if Js.truthy_str (description item) then score + 3 else score in
  let score := if Js.truthy_str (imageUrl item) then score + 3 else score in
  let score := if Js.truthy_str (venueName item) then score + 3 else score in
  let score := if Js.truthy_str (address item) then score + 3 else score in
  let score :=
    match priceMin item with
    | Some _ => score + 3
    | None => score
    end in
  let categoryBoost :=
    fold_left (fun acc cat => acc + Js.or_num (categoryWeights cat) 1)
      (category item) 0 in
  let score := score + Js.Math_min 10 (categoryBoost * 2) in
  if Js.truthy_str (startTime item) then
    let daysUntil :=
      (time_of (startTime item) - Date_now tick) / (1000 * 60 * 60 * 24) in
    (if daysUntil <? 1 then score + 5
     else if daysUntil <? 3 then score + 3
     else if daysUntil <? 7 then score + 1
     else score,
     S tick)
  else (score, tick).

(** The [if] / [else if] chain of the callback of [items.map]; the value of
    [sortBy === 'closest' && center] is the center, or falsy.  The branches
    of ['closest'] and of ['price'] do not read the clock. *)
Definition itemScore (center : option (float * float)) (sortBy : SortBy)
  (item : NormalizedItem) (tick : nat) : float * nat :=
  if SortBy_eqb sortBy soonest then soonestScore item tick
  else
    match (if SortBy_eqb sortBy closest then center else None) with
    | Some c => (closestScore c item, tick)
    | None =>
        if SortBy_eqb sortBy price then (priceScore item, tick)
        else recommendedScore center item tick
    end.

(** The callback of [items.map]: [{ ...item, score }]. *)
Definition scoreItem (center : option (float * float)) (sortBy : SortBy)
  (item : NormalizedItem) (tick : nat) : NormalizedItem * nat :=
  let '(score, tick) := itemScore center sortBy item tick in
  (with_score item score, tick).

(** The comparison function handed to [sort]. *)
Definition byScoreDesc (a b : NormalizedItem) : float :=
  Js.or_opt (score b) 0 - Js.or_opt (score a) 0.

Definition rank (items : list NormalizedItem) (params : RankParams)
  : list NormalizedItem :=
  let center := center params in
  let sortBy := match sortBy params with
                | Some s => s
                | None => recommended
                end in
  let scoredItems := fst (Js.Array_map (scoreItem center sortBy) items 0%nat) in
  Js.Array_sort byScoreDesc scoredItems.

(** *** filterByDateRange *)

(** The callback of [items.filter]. *)
Definition inDateRange (startDate endDate : float) (item : NormalizedItem)
  : bool :=
  if negb (Js.truthy_str (startTime item)) && includes (category item) attraction
  then true
  else if Js.truthy_str (startTime item) then
    let itemStart := time_of (startTime item) in
    let itemEnd := if Js.truthy_str (endTime item)
                   then time_of (endTime item) else itemStart in
    (itemStart <=? endDate) && (startDate <=? itemEnd)
  else false.

Definition filterByDateRange (items : list NormalizedItem)
  (startISO endISO : string) : list NormalizedItem :=
  let startDate := Date_getTime startISO in
  let endDate := Date_getTime endISO in
  filter (inDateRange startDate endDate) items.

End Aggregate.

(** ** The provider fan-out of the search route ([src/app/api/search/route.ts]) *)

Module Route.

(** What awaiting a promise gives: its value, or the exception it throws. *)
Inductive Outcome (A : Type) : Type :=
| returns (value : A)
| throws (reason : string).

Arguments returns {A} value.
Arguments throws {A} reason.

Definition bind {A B : Type} (m : Outcome A) (k : A -> Outcome B) : Outcome B :=
  match m with
  | returns v => k v
  | throws r => throws r
  end.

Inductive PromiseSettledResult (A : Type) : Type :=
| fulfilled (value : A)
| rejected (reason : string).

Arguments fulfilled {A} value.
Arguments rejected {A} reason.

(** [await Promise.allSettled(promises)]: never throws, and keeps the order
    of the promises. *)
Definition Promise_allSettled {A : Type} (promises : list (Outcome A))
  : Outcome (list (PromiseSettledResult A)) :=
  returns (map (fun p => match p with
                         | returns v => fulfilled v
                         | throws r => rejected r
                         end) promises).

(** The callback of [settled.flatMap]. *)
Definition itemsOf (result : PromiseSettledResult (list ProviderItem))
  : list ProviderItem :=
  match result with
  | fulfilled value => value
  | rejected _ => []
  end.

(** Lines 32 to 52 of [GET]: [fetches] are the calls [p.fetchItems(...)], one
    per registered provider, in the order of the registry. *)
Definition collectItems (fetches : list (Outcome (list ProviderItem)))
  : Outcome (list ProviderItem) :=
  bind (Promise_allSettled fetches) (fun settled =>
  returns (flat_map itemsOf settled)).

(** Lines 55 to 58: the mock data stand in when nothing was collected. *)
Definition orMockItems (mockItems allItems : list ProviderItem)
  : list ProviderItem :=
  if (List.length allItems =? 0)%nat then allItems ++ mockItems else allItems.

End Route.

(** ** A reader for UTC date-time strings

    [Iso8601.getTime] reads the strings of the form [YYYY-MM-DDTHH:MM:SSZ]
    that name a day of the calendar and a time of the day up to 23:59:59, as
    [new Date(s).getTime()] does.  It answers [NaN] on every other string,
    also on strings that the engine reads: a day past the end of its month,
    the time 24:00:00, a time with milliseconds, a date without a time, an
    offset in the place of [Z].  It is the instance of [Date_getTime] at
    which the examples are run, on strings that it reads as the engine does
    or that the engine does not read either; the theorems are stated for
    every [Date_getTime]. *)

Module Iso8601.

Open Scope Z_scope.

Definition digit (c : ascii) : option Z :=
  let n := Z.of_nat (nat_of_ascii c) in
  if (48 <=? n) && (n <=? 57) then Some (n - 48) else None.

Fixpoint number (acc : Z) (cs : list ascii) : option Z :=
  match cs with
  | [] => Some acc
  | c :: cs' =>
      match digit c with
      | Some d => number (10 * acc + d) cs'
      | None => None
      end
  end.

Definition isLeap (y : Z) : bool :=
  ((y mod 4 =? 0) && negb (y mod 100 =? 0)) || (y mod 400 =? 0).

Definition daysInMonth (y m : Z) : Z :=
  if m =? 2 then (if isLeap y then 29 else 28)
  else if (m =? 4) || (m =? 6) || (m =? 9) || (m =? 11) then 30
  else 31.

(** Days from 1970-01-01 to the given day of the proleptic Gregorian
    calendar. *)
Definition daysFromCivil (y m d : Z) : Z :=
  let y' := if m <=? 2 then y - 1 else y in
  let era := y' / 400 in
  let yoe := y' - era * 400 in
  let mp := if 2 <? m then m - 3 else m + 9 in
  let doy := (153 * mp + 2) / 5 + d - 1 in
  let doe := yoe * 365 + yoe / 4 - yoe / 100 + doy in
  era * 146097 + doe - 719468.

Definition parse (s : string) : option Z :=
  match list_ascii_of_string s with
  | [y1; y2; y3; y4; dash1; m1; m2; dash2; d1; d2; sep;
     h1; h2; colon1; n1; n2; colon2; s1; s2; z] =>
      if Ascii.eqb dash1 "-" && Ascii.eqb dash2 "-" && Ascii.eqb sep "T"
         && Ascii.eqb colon1 ":" && Ascii.eqb colon2 ":" && Ascii.eqb z "Z"
      then
        match number 0 [y1; y2; y3; y4], number 0 [m1; m2],
              number 0 [d1; d2], number 0 [h1; h2],
              number 0 [n1; n2], number 0 [s1; s2] with
        | Some y, Some m, Some d, Some h, Some n, Some sec =>
            if (1 <=? m) && (m <=? 12) && (1 <=? d) && (d <=? daysInMonth y m)
               && (h <=? 23) && (n <=? 59) && (sec <=? 59)
            then Some ((((daysFromCivil y m d * 24 + h) * 60 + n) * 60 + sec)
                       * 1000)
            else None
        | _, _, _, _, _, _ => None
        end
      else None
  | _ => None
  end.

Definition of_Z (z : Z) : float :=
  if z <? 0 then PrimFloat.opp (PrimFloat.of_uint63 (Uint63.of_Z (- z)))
  else PrimFloat.of_uint63 (Uint63.of_Z z).

Definition getTime (s : string) : float :=
  match parse s with
  | Some ms => of_Z ms
  | None => nan
  end.

End Iso8601.

(** ** SHA-256

    [Sha256.hex] is the function that
    [crypto.createHash('sha256').update(s).digest('hex')] computes (FIPS
    180-4, on the UTF-8 encoding of the string).  It is the instance of
    [sha256_hex] at which the examples are run. *)

Module Sha256.

Open Scope N_scope.

Definition mask32 : N := 0xFFFFFFFF.

Definition add32 (a b : N) : N := N.land (a + b) mask32.

Definition rotr (n x : N) : N :=
  N.lor (N.shiftr x n) (N.land (N.shiftl x (32 - n)) mask32).

Definition not32 (x : N) : N := N.lxor x mask32.

Definition Ch (x y z : N) : N := N.lxor (N.land x y) (N.land (not32 x) z).

Definition Maj (x y z : N) : N :=
  N.lxor (N.lxor (N.land x y) (N.land x z)) (N.land y z).

Definition Sigma0 (x : N) : N :=
  N.lxor (N.lxor (rotr 2 x) (rotr 13 x)) (rotr 22 x).

Definition Sigma1 (x : N) : N :=
  N.lxor (N.lxor (rotr 6 x) (rotr 11 x)) (rotr 25 x).

Definition sigma0 (x : N) : N :=
  N.lxor (N.lxor (rotr 7 x) (rotr 18 x)) (N.shiftr x 3).

Definition sigma1 (x : N) : N :=
  N.lxor (N.lxor (rotr 17 x) (rotr 19 x)) (N.shiftr x 10).

(** The round constants, in decimal. *)
Definition K : list N :=
  [1116352408; 1899447441; 3049323471; 3921009573;
   961987163; 1508970993; 2453635748; 2870763221;
   3624381080; 310598401; 607225278; 1426881987;
   1925078388; 2162078206; 2614888103; 3248222580;
   3835390401; 4022224774; 264347078; 604807628;
   770255983; 1249150122; 1555081692; 1996064986;
   2554220882; 2821834349; 2952996808; 3210313671;
   3336571891; 3584528711; 113926993; 338241895;
   666307205; 773529912; 1294757372; 1396182291;
   1695183700; 1986661051; 2177026350; 2456956037;
   2730485921; 2820302411; 3259730800; 3345764771;
   3516065817; 3600352804; 4094571909; 275423344;
   430227734; 506948616; 659060556; 883997877;
   958139571; 1322822218; 1537002063; 1747873779;
   1955562222; 2024104815; 2227730452; 2361852424;
   2428436474; 2756734187; 3204031479; 3329325298].

(** The hash value: eight words of 32 bits. *)
Record state : Type := {
  h0 : N; h1 : N; h2 : N; h3 : N; h4 : N; h5 : N; h6 : N; h7 : N
}.

Definition initial : state :=
  {| h0 := 1779033703; h1 := 3144134277; h2 := 1013904242; h3 := 2773480762;
     h4 := 1359893119; h5 := 2600822924; h6 := 528734635; h7 := 1541459225 |}.

(** The UTF-8 encoding of a code unit below 256. *)
Definition utf8 (c : ascii) : list N :=
  let n := N_of_ascii c in
  if n <? 128 then [n]
  else [N.lor 0xC0 (N.shiftr n 6); N.lor 0x80 (N.land n 0x3F)].

Fixpoint bytes (s : string) : list N :=
  match s with
  | EmptyString => []
  | String c s' => (utf8 c ++ bytes s')%list
  end.

(** The [n] bytes of [x], most significant first. *)
Fixpoint bigEndian (n : nat) (x : N) : list N :=
  match n with
  | O => []
  | S n' => (N.land (N.shiftr x (8 * N.of_nat n')) 0xFF :: bigEndian n' x)%list
  end.

(** Padding: the bit [1], zeros up to 56 modulo 64 bytes, and the length in
    bits on 8 bytes. *)
Definition pad (msg : list N) : list N :=
  let len := List.length msg in
  let zeros := ((119 - len mod 64) mod 64)%nat in
  (msg ++ 0x80 :: repeat 0 zeros ++ bigEndian 8 (8 * N.of_nat len))%list.

(** The words of 32 bits of a byte sequence, big-endian. *)
Fixpoint words (fuel : nat) (bs : list N) : list N :=
  match fuel, bs with
  | S fuel', (b0 :: b1 :: b2 :: b3 :: rest)%list =>
      (N.lor (N.shiftl b0 24) (N.lor (N.shiftl b1 16) (N.lor (N.shiftl b2 8) b3))
       :: words fuel' rest)%list
  | _, _ => []
  end.

(** The message schedule: [window] holds the last sixteen words, the oldest
    first; [n] more words are produced. *)
Fixpoint schedule (n : nat) (window : list N) : list N :=
  match n with
  | O => []
  | S n' =>
      let w := add32 (add32 (sigma1 (nth 14 window 0)) (nth 9 window 0))
                     (add32 (sigma0 (nth 1 window 0)) (nth 0 window 0)) in
      (w :: schedule n' (tl window ++ [w]))%list
  end.

Definition round (st : state) (kw : N * N) : state :=
  let T1 := add32 (add32 (add32 (h7 st) (Sigma1 (h4 st)))
                         (add32 (Ch (h4 st) (h5 st) (h6 st)) (fst kw)))
                  (snd kw) in
  let T2 := add32 (Sigma0 (h0 st)) (Maj (h0 st) (h1 st) (h2 st)) in
  {| h0 := add32 T1 T2; h1 := h0 st; h2 := h1 st; h3 := h2 st;
     h4 := add32 (h3 st) T1; h5 := h4 st; h6 := h5 st; h7 := h6 st |}.

Definition compress (st : state) (block : list N) : state :=
  let w := (block ++ schedule 48 block)%list in
  let r := fold_left round (combine K w) st in
  {| h0 := add32 (h0 st) (h0 r); h1 := add32 (h1 st) (h1 r);
     h2 := add32 (h2 st) (h2 r); h3 := add32 (h3 st) (h3 r);
     h4 := add32 (h4 st) (h4 r); h5 := add32 (h5 st) (h5 r);
     h6 := add32 (h6 st) (h6 r); h7 := add32 (h7 st) (h7 r) |}.

(** The blocks of sixteen words, one after the other. *)
Fixpoint blocks (fuel : nat) (st : state) (ws : list N) : state :=
  match fuel, ws with
  | S fuel', (_ :: _)%list => blocks fuel' (compress st (firstn 16 ws)) (skipn 16 ws)
  | _, _ => st
  end.

Definition hexDigit (n : N) : ascii :=
  if n <? 10 then ascii_of_N (48 + n) else ascii_of_N (87 + n).

Definition hexWord (x : N) (rest : string) : string :=
  String (hexDigit (N.land (N.shiftr x 28) 0xF))
 (String (hexDigit (N.land (N.shiftr x 24) 0xF))
 (String (hexDigit (N.land (N.shiftr x 20) 0xF))
 (String (hexDigit (N.land (N.shiftr x 16) 0xF))
 (String (hexDigit (N.land (N.shiftr x 12) 0xF))
 (String (hexDigit (N.land (N.shiftr x 8) 0xF))
 (String (hexDigit (N.land (N.shiftr x 4) 0xF))
 (String (hexDigit (N.land x 0xF)) rest))))))).

Definition digest (st : state) : string :=
  hexWord (h0 st) (hexWord (h1 st) (hexWord (h2 st) (hexWord (h3 st)
 (hexWord (h4 st) (hexWord (h5 st) (hexWord (h6 st) (hexWord (h7 st) EmptyString))))))).

Definition hex (s : string) : string :=
  let padded := pad (bytes s) in
  let ws := words (List.length padded) padded in
  digest (blocks (List.length ws) initial ws).

End Sha256.

(** ** The order of the doubles

    A double other than NaN has a place in the order of the doubles: its
    class (negative infinite, negative, zero, positive, positive infinite),
    then its exponent, then its mantissa.  [before] is the strict order of the
    places and [level] their equality; the lemmas of [F64Facts] show that the
    comparisons of the doubles are these. *)

Module F64.

Open Scope Z_scope.

Definition place (f : spec_float) : Z * Z * Z :=
  match f with
  | S754_zero _ => (0, 0, 0)
  | S754_nan => (0, 0, 0)
  | S754_infinity s => (if s then -2 else 2, 0, 0)
  | S754_finite s m e => if s then (-1, - e, - Zpos m) else (1, e, Zpos m)
  end.

Definition before (a b : Z * Z * Z) : Prop :=
  let '(a1, a2, a3) := a in
  let '(b1, b2, b3) := b in
  a1 < b1 \/ (a1 = b1 /\ (a2 < b2 \/ (a2 = b2 /\ a3 < b3))).

(** The value of a finite double, in units of 2^-1074. *)
Definition units (f : spec_float) : Z :=
  match f with
  | S754_finite s m e => (if s then -1 else 1) * (Zpos m * 2 ^ (e + 1074))
  | _ => 0
  end.

(** The quotient of [s] by [2 ^ g], rounded to the nearest integer, to the
    even one of two that are as near. *)
Definition nearestEven (s g : Z) : Z :=
  let q := s / 2 ^ g in
  let r := s mod 2 ^ g in
  if 2 * r <? 2 ^ g then q
  else if 2 ^ g <? 2 * r then q + 1
  else if Z.even q then q else q + 1.

(** [r] is the positive number of units [s] rounded to a double: [g] bits
    are dropped, none below 2^53 and as many as leave 53 bits above. *)
Definition roundsTo (s r : Z) : Prop :=
  exists g,
    0 <= g /\ s < 2 ^ (53 + g) /\ (0 < g -> 2 ^ (52 + g) <= s)
    /\ r = nearestEven s g * 2 ^ g.

(** The value [r], in units, of the double that is the sum of [s] units
    rounded: [s] rounded where it is positive, and the opposite of its
    opposite rounded where it is negative. *)
Definition rounded (s r : Z) : Prop :=
  (s = 0 -> r = 0)
  /\ (0 < s -> roundsTo s r)
  /\ (s < 0 -> roundsTo (- s) (- r)).

(** The record of [n] after [j] shifts to the right: the quotient, whether
    the remainder is half a unit or more, and whether it is neither nothing
    nor half a unit. *)
Definition locates (n j : Z) (mrs : shr_record) : Prop :=
  shr_m mrs = n / 2 ^ j
  /\ (shr_r mrs = true <-> 2 ^ j <= 2 * (n mod 2 ^ j))
  /\ (shr_s mrs = true <-> n mod 2 ^ j <> 0 /\ 2 * (n mod 2 ^ j) <> 2 ^ j).

Definition finite (f : spec_float) : bool :=
  match f with
  | S754_zero _ | S754_finite _ _ _ => true
  | _ => false
  end.

Definition level (a b : Z * Z * Z) : Prop :=
  let '(a1, a2, a3) := a in
  let '(b1, b2, b3) := b in
  a1 = b1 /\ a2 = b2 /\ a3 = b3.

Open Scope float_scope.

Definition placeOf (x : float) : Z * Z * Z := place (Prim2SF x).

Definition unitsOf (x : float) : Z := units (Prim2SF x).

Definition isFinite (x : float) : bool := finite (Prim2SF x).

(** The double 1, in units of 2^-1074. *)
Definition one : Z := Eval compute in (2 ^ 1074)%Z.

(** The values below [limit] round to finite doubles. *)
Definition limit : Z := Eval compute in (2 ^ 2097)%Z.

(** A number of size at most 2^32. *)
Definition small (t : float) : Prop := (abs t <=? 4294967296) = true.

(** A number of size at most [bound]. *)
Definition within (bound t : float) : Prop := (abs t <=? bound) = true.

End F64.

(** ** Strings and maps of the run time *)

(** [s.includes(sub)] on strings. *)
Fixpoint String_includes (s sub : string) : bool :=
  String.prefix sub s
  || match s with
     | EmptyString => false
     | String _ s' => String_includes s' sub
     end.

(** A [Map] with strings as keys, as the list of its entries in the order of
    their insertion: [m.get(key)], and [m.set(key, value)], which writes over
    the entry of the key where there is one and adds an entry at the end
    where there is none. *)
Fixpoint Map_get {V : Type} (m : list (string * V)) (key : string) : option V :=
  match m with
  | [] => None
  | (k, v) :: m' => if String.eqb k key then Some v else Map_get m' key
  end.

Fixpoint Map_set {V : Type} (m : list (string * V)) (key : string) (value : V)
  : list (string * V) :=
  match m with
  | [] => [(key, value)]
  | (k, v) :: m' =>
      if String.eqb k key then (key, value) :: m'
      else (k, v) :: Map_set m' key value
  end.

(** ** Exceptions *)

Module Exn.

(** What a call throws: a [ZodError] with its issues, another [Error] with
    its message, or a value that is no [Error]. *)
Inductive Thrown : Type :=
| ZodError (issues : list string)
| Error (message : string)
| NotAnError.

(** What awaiting a call gives. *)
Inductive Result (A : Type) : Type :=
| Ok (value : A)
| Throw (error : Thrown).

Arguments Ok {A} value.
Arguments Throw {A} error.

Definition andThen {A B : Type} (m : Result A) (k : A -> Result B) : Result B :=
  match m with
  | Ok v => k v
  | Throw e => Throw e
  end.

End Exn.

(** ** Geocoding ([src/lib/geocoding.ts]) *)

Module Geocoding.

Import Exn.

(** [GeocodingResult] of [src/lib/types.ts]. *)
Record GeocodingResult : Type := {
  lat : float;
  lng : float;
  bbox : float * float * float * float;
  timezone : string;
  displayName : string;
  city : string;
  country : string
}.

(** An entry of [geocodeCache]. *)
Record CacheEntry : Type := {
  result : GeocodingResult;
  timestamp : float
}.

Definition CACHE_TTL : float := (60 * 60 * 1000)%float.

(** [geocodeCity(city)], with the cache it reads and the cache it leaves.
    [now] is the clock when the cache is looked up and [storedAt] the clock
    when the result is stored; [nominatim] is what
    [await geocodeWithNominatim(city)] gives, [googleKey] is
    [process.env.GOOGLE_PLACES_API_KEY] and [google] is what
    [geocodeWithGooglePlaces(city)] gives. *)
Definition geocodeCity (geocodeCache : list (string * CacheEntry))
  (now storedAt : float) (city : string)
  (nominatim : Result GeocodingResult) (googleKey : option string)
  (google : Result GeocodingResult)
  : Result GeocodingResult * list (string * CacheEntry) :=
  let cacheKey := Js.toLowerCase city in
  let cached := Map_get geocodeCache cacheKey in
  let geocode (_ : unit) :=
    match nominatim with
    | Ok found =>
        (Ok found,
         Map_set geocodeCache cacheKey
           {| result := found; timestamp := storedAt |})
    | Throw _ =>
        if Js.truthy_str googleKey then (google, geocodeCache)
        else (Throw (Error ("Failed to geocode city: " ++ city)), geocodeCache)
    end in
  match cached with
  | Some entry =>
      if (now - timestamp entry <? CACHE_TTL)%float
      then (Ok (result entry), geocodeCache)
      else geocode tt
  | None => geocode tt
  end.

End Geocoding.

(** ** The parameters of a search ([src/lib/validation.ts]) *)

Module Validation.

(** [SearchParamsInput], what [searchParamsSchema.parse] returns. *)
Record SearchParamsInput : Type := {
  city : string;
  start : string;
  end_ : string;
  categories : option (list HappenCategory)
}.

End Validation.

(** ** The search route ([src/app/api/search/route.ts]) *)

Module Search.

Import Exn.

(** [new Date(t).toISOString()], which throws a [RangeError] when [t] is no
    time. *)
Class Calendar : Type := {
  Date_toISOString : float -> Result string
}.

Section Handler.

Open Scope float_scope.

Context {rt : Runtime} {cal : Calendar}.

(** [new Date(new Date(startISO).getTime() + hours * 60 * 60 * 1000).toISOString()] *)
Definition hoursAfter (startISO : string) (hours : float) : Result string :=
  Date_toISOString (Date_getTime startISO + hours * 60 * 60 * 1000).

(** The mock data: the five records, the dates being computed in the order
    in which the records name them. *)
Definition getMockItems (city startISO _endISO : string)
  : Result (list ProviderItem) :=
  andThen (hoursAfter startISO 8) (fun end2 =>
  andThen (hoursAfter startISO 24) (fun start3 =>
  andThen (hoursAfter startISO 26) (fun end3 =>
  andThen (hoursAfter startISO 48) (fun start4 =>
  andThen (hoursAfter startISO 56) (fun end4 =>
  Ok [
    {| externalId := "mock-1"; source := "mock";
       title := city ++ " City Museum";
       description := Some "Explore the rich history and culture of the city through interactive exhibitions.";
       category := [attraction; exhibition];
       startTime := None; endTime := None; timezone := None;
       venueName := Some "City Museum"; address := None;
       city := Some city; lat := None; lng := None;
       priceMin := Some 15; priceMax := Some 25; currency := Some "USD";
       url := "https://example.com/museum"; imageUrl := None;
       tags := Some ["museum"; "history"; "culture"];
       isFamilyFriendly := Some true; isIndoor := Some true;
       language := None; lastUpdated := None;
       popularity := Some 0.8; attendeeCount := None |};
    {| externalId := "mock-2"; source := "mock";
       title := city ++ " Food Festival";
       description := Some "Annual food festival featuring local cuisine and international dishes.";
       category := [event];
       startTime := Some startISO; endTime := Some end2; timezone := None;
       venueName := Some "City Park"; address := None;
       city := Some city; lat := None; lng := None;
       priceMin := Some 0; priceMax := Some 0; currency := Some "USD";
       url := "https://example.com/food-festival"; imageUrl := None;
       tags := Some ["food"; "festival"; "outdoor"];
       isFamilyFriendly := Some true; isIndoor := Some false;
       language := None; lastUpdated := None;
       popularity := Some 0.9; attendeeCount := None |};
    {| externalId := "mock-3"; source := "mock";
       title := city ++ " Walking Tour";
       description := Some "Guided walking tour through historic downtown.";
       category := [tour];
       startTime := Some start3; endTime := Some end3; timezone := None;
       venueName := Some "Tourist Information Center"; address := None;
       city := Some city; lat := None; lng := None;
       priceMin := Some 20; priceMax := Some 20; currency := Some "USD";
       url := "https://example.com/walking-tour"; imageUrl := None;
       tags := Some ["tour"; "walking"; "history"];
       isFamilyFriendly := Some true; isIndoor := Some false;
       language := None; lastUpdated := None;
       popularity := Some 0.7; attendeeCount := None |};
    {| externalId := "mock-4"; source := "mock";
       title := "Tech Conference 2025";
       description := Some "Annual technology conference with keynote speakers and workshops.";
       category := [seminar; event];
       startTime := Some start4; endTime := Some end4; timezone := None;
       venueName := Some "Convention Center"; address := None;
       city := Some city; lat := None; lng := None;
       priceMin := Some 150; priceMax := Some 300; currency := Some "USD";
       url := "https://example.com/tech-conf"; imageUrl := None;
       tags := Some ["technology"; "conference"; "networking"];
       isFamilyFriendly := Some false; isIndoor := Some true;
       language := None; lastUpdated := None;
       popularity := Some 0.85; attendeeCount := None |};
    {| externalId := "mock-5"; source := "mock";
       title := "Modern Art Exhibition";
       description := Some "Contemporary art exhibition featuring local and international artists.";
       category := [exhibition];
       startTime := None; endTime := None; timezone := None;
       venueName := Some "Art Gallery"; address := None;
       city := Some city; lat := None; lng := None;
       priceMin := Some 12; priceMax := Some 12; currency := Some "USD";
       url := "https://example.com/art-exhibition"; imageUrl := None;
       tags := Some ["art"; "exhibition"; "gallery"];
       isFamilyFriendly := Some true; isIndoor := Some true;
       language := None; lastUpdated := None;
       popularity := Some 0.6; attendeeCount := None |}
  ]))))).

(** Lines 55 to 58 of [GET]: the mock data stand in when nothing was
    collected. *)
Definition withMockItems (validated : Validation.SearchParamsInput)
  (allItems : list ProviderItem) : Result (list ProviderItem) :=
  if (List.length allItems =? 0)%nat then
    andThen (getMockItems (Validation.city validated)
               (Validation.start validated) (Validation.end_ validated))
      (fun mockItems => Ok (allItems ++ mockItems))
  else Ok allItems.

(** Lines 61 to 64: the aggregation pipeline. *)
Definition aggregate (validated : Validation.SearchParamsInput)
  (geo : Geocoding.GeocodingResult) (allItems : list ProviderItem)
  : list NormalizedItem :=
  let normalized :=
    normalize allItems (Geocoding.timezone geo)
      (Validation.categories validated) in
  let filtered :=
    filterByDateRange normalized (Validation.start validated)
      (Validation.end_ validated) in
  let unique := dedupe filtered in
  rank unique {| center := Some (Geocoding.lat geo, Geocoding.lng geo);
                 sortBy := None |}.

End Handler.

(** The body of the answer to a search. *)
Record SearchResults : Type := {
  city : string;
  country : string;
  displayName : string;
  timezone : string;
  center : float * float;
  bbox : float * float * float * float;
  startISO : string;
  endISO : string;
  count : nat;
  providers : list string;
  items : list NormalizedItem
}.

Inductive Body : Type :=
| results (r : SearchResults)
| failure (error : string) (details : option (list string)).

(** [NextResponse.json(body, { status })]; the status is 200 when none is
    given. *)
Record Response : Type := {
  status : nat;
  body : Body
}.

Section Route.

Context {rt : Runtime} {cal : Calendar}.

(** The [try] block of [GET].  [parsed] is what [searchParamsSchema.parse]
    gives on the parameters of the request, [geocodeCity] is the call of that
    name, [fetchItems] are the calls [p.fetchItems(...)] of the registered
    providers, in the order of the registry, and [providerNames] are the
    names of these providers. *)
Definition search (parsed : Result Validation.SearchParamsInput)
  (geocodeCity : string -> Result Geocoding.GeocodingResult)
  (fetchItems : Validation.SearchParamsInput -> Geocoding.GeocodingResult ->
                list (Route.Outcome (list ProviderItem)))
  (providerNames : list string) : Result SearchResults :=
  andThen parsed (fun validated =>
  andThen (geocodeCity (Validation.city validated)) (fun geo =>
  andThen (match Route.collectItems (fetchItems validated geo) with
           | Route.returns allItems => Ok allItems
           | Route.throws reason => Throw (Error reason)
           end) (fun allItems =>
  andThen (withMockItems validated allItems) (fun allItems =>
  let ranked := aggregate validated geo allItems in
  Ok {| city := Geocoding.city geo;
        country := Geocoding.country geo;
        displayName := Geocoding.displayName geo;
        timezone := Geocoding.timezone geo;
        center := (Geocoding.lat geo, Geocoding.lng geo);
        bbox := Geocoding.bbox geo;
        startISO := Validation.start validated;
        endISO := Validation.end_ validated;
        count := List.length ranked;
        providers := providerNames;
        items := firstn 200 ranked |})))).

(** [GET]: the [try] block and the [catch] clause. *)
Definition GET (parsed : Result Validation.SearchParamsInput)
  (geocodeCity : string -> Result Geocoding.GeocodingResult)
  (fetchItems : Validation.SearchParamsInput -> Geocoding.GeocodingResult ->
                list (Route.Outcome (list ProviderItem)))
  (providerNames : list string) : Response :=
  match search parsed geocodeCity fetchItems providerNames with
  | Ok r => {| status := 200; body := results r |}
  | Throw (ZodError issues) =>
      {| status := 400; body := failure "Invalid parameters" (Some issues) |}
  | Throw (Error message) =>
      if String_includes message "City not found"
      then {| status := 404; body := failure message None |}
      else {| status := 500; body := failure "Internal server error" None |}
  | Throw NotAnError =>
      {| status := 500; body := failure "Internal server error" None |}
  end.

End Route.

End Search.

(** ** The base of the providers ([src/lib/providers/base.ts]) *)

Module BaseProvider.

Import Route.

(** An entry of [providerCache]. *)
Record CacheEntry : Type := {
  key : string;
  data : list ProviderItem;
  timestamp : float
}.

(** [fetchWithCache(cacheKey, fetcher)], with the cache it reads and the
    cache it leaves.  [CACHE_TTL] is read off the environment when the module
    is loaded; [now] is the clock when the cache is looked up and [storedAt]
    the clock when the data are stored; [fetcher] is what
    [await limit(fetcher)] gives. *)
Definition fetchWithCache (CACHE_TTL : float)
  (providerCache : list (string * CacheEntry)) (now storedAt : float)
  (cacheKey : string) (fetcher : Outcome (list ProviderItem))
  : Outcome (list ProviderItem) * list (string * CacheEntry) :=
  let cached := Map_get providerCache cacheKey in
  let fetch (_ : unit) :=
    match fetcher with
    | returns items =>
        (returns items,
         Map_set providerCache cacheKey
           {| key := cacheKey; data := items; timestamp := storedAt |})
    | throws error =>
        match cached with
        | Some entry => (returns (data entry), providerCache)
        | None => (throws error, providerCache)
        end
    end in
  match cached with
  | Some entry =>
      if (now - timestamp entry <? CACHE_TTL)%float
      then (returns (data entry), providerCache)
      else fetch tt
  | None => fetch tt
  end.

(** One call of [fetchWithCache]. *)
Record Call : Type := {
  call_now : float;
  call_storedAt : float;
  call_cacheKey : string;
  call_fetcher : Outcome (list ProviderItem)
}.

(** The calls made one after the other on the cache of the module: what
    each of them gives, and the cache at the end. *)
Fixpoint fetchesWithCache (CACHE_TTL : float)
  (providerCache : list (string * CacheEntry)) (calls : list Call)
  : list (Outcome (list ProviderItem)) * list (string * CacheEntry) :=
  match calls with
  | [] => ([], providerCache)
  | call :: calls' =>
      let '(outcome, providerCache') :=
        fetchWithCache CACHE_TTL providerCache (call_now call)
          (call_storedAt call) (call_cacheKey call) (call_fetcher call) in
      let '(outcomes, final) :=
        fetchesWithCache CACHE_TTL providerCache' calls' in
      (outcome :: outcomes, final)
  end.

(** A [Response]: what [fetchWithRetry] reads of it, and its content. *)
Record Response : Type := {
  status : nat;
  ok : bool;
  statusText : string;
  content : string
}.

(** [Math.pow(2, i)] for a counter [i]: a power of two is a double, and is
    infinite from 2^1024 on. *)
Definition Math_pow2 (i : nat) : float :=
  Nat.iter i (fun x => (2 * x)%float) 1%float.

(** [`HTTP ${response.status}: ${response.statusText}`] *)
Definition httpError (response : Response) : string :=
  "HTTP " ++ NilEmpty.string_of_uint (Nat.to_uint (status response))
  ++ ": " ++ statusText response.

(** The loop of [fetchWithRetry], [remaining] turns before its end: what the
    function gives, and the waits in milliseconds in the order in which they
    are made.  [fetch i] is what the call of [fetch] gives in turn [i] and
    [random i] is what [Math.random()] gives in that turn. *)
Fixpoint retry (fetch : nat -> Outcome Response) (random : nat -> float)
  (maxRetries remaining i : nat) (lastError : option string)
  : Outcome Response * list float :=
  match remaining with
  | O =>
      (throws (match lastError with
               | Some error => error
               | None => "Failed to fetch after retries"
               end), [])
  | S remaining' =>
      let caught (error : string) :=
        let '(outcome, waits) :=
          retry fetch random maxRetries remaining' (S i) (Some error) in
        if (i <? maxRetries - 1)%nat
        then (outcome, Js.Math_min (500 * Math_pow2 i) 5000 :: waits)
        else (outcome, waits) in
      match fetch i with
      | returns response =>
          if (status response =? 429)%nat then
            let delay := Js.Math_min (1000 * Math_pow2 i) 10000 in
            let jitter := (random i * 1000)%float in
            let '(outcome, waits) :=
              retry fetch random maxRetries remaining' (S i) lastError in
            (outcome, (delay + jitter)%float :: waits)
          else if negb (ok response) && (500 <=? status response)%nat
          then caught (httpError response)
          else (returns response, [])
      | throws error => caught error
      end
  end.

Definition fetchWithRetry (fetch : nat -> Outcome Response)
  (random : nat -> float) (maxRetries : nat)
  : Outcome Response * list float :=
  retry fetch random maxRetries maxRetries 0 None.

End BaseProvider.

(** ** The places of OpenTripMap ([src/lib/providers/opentripmap.ts]) *)

Module OpenTripMap.

(** [`${x?.toFixed(4)}`], [toFixed4] being [x => x.toFixed(4)]. *)
Definition fixed (toFixed4 : float -> string) (x : option float) : string :=
  match x with
  | Some v => toFixed4 v
  | None => "undefined"
  end.

(** The key of line 156. *)
Definition locationKey (toFixed4 : float -> string) (item : ProviderItem)
  : string :=
  fixed toFixed4 (lat item) ++ "," ++ fixed toFixed4 (lng item).

(** One turn of the loop of lines 155 to 160. *)
Definition keepPlace (toFixed4 : float -> string)
  (uniqueItems : list (string * ProviderItem)) (item : ProviderItem)
  : list (string * ProviderItem) :=
  let key := locationKey toFixed4 item in
  match Map_get uniqueItems key with
  | None => Map_set uniqueItems key item
  | Some kept =>
      if Js.truthy_str (description item)
         && negb (Js.truthy_str (description kept))
      then Map_set uniqueItems key item
      else uniqueItems
  end.

(** Lines 153 to 162: the places, one for each location. *)
Definition uniquePlaces (toFixed4 : float -> string)
  (items : list ProviderItem) : list ProviderItem :=
  map snd (fold_left (keepPlace toFixed4) items []).

End OpenTripMap.

(** ** The shortlist ([src/hooks/use-shortlist.ts]) *)

Module Shortlist.

(** [item.id] *)
Definition idOf (item : NormalizedItem) : string := id item.

(** [ShortlistItem] of [src/lib/types.ts]. *)
Record ShortlistItem : Type := {
  id : string;
  item : NormalizedItem;
  addedAt : string;
  notes : option string
}.

Section Updates.

Context {rt : Runtime}.

(** The state updates of the hook, from the state [prev] to the next;
    [addItem] makes the first reading of the clock of its call. *)
Definition addItem (prev : list ShortlistItem) (added : NormalizedItem)
  (notes : option string) : list ShortlistItem :=
  if existsb (fun s => String.eqb (id s) (idOf added)) prev then prev
  else prev ++ [{| id := idOf added; item := added;
                   addedAt := now_iso 0%nat; notes := notes |}].

Definition removeItem (prev : list ShortlistItem) (removed : string)
  : list ShortlistItem :=
  filter (fun s => negb (String.eqb (id s) removed)) prev.

Definition updateNotes (prev : list ShortlistItem) (updated notes : string)
  : list ShortlistItem :=
  map (fun s => if String.eqb (id s) updated
                then {| id := id s; item := item s;
                        addedAt := addedAt s; notes := Some notes |}
                else s) prev.

Definition clearAll (prev : list ShortlistItem) : list ShortlistItem := [].

Definition isInShortlist (items : list ShortlistItem) (sought : string) : bool :=
  existsb (fun s => String.eqb (id s) sought) items.

End Updates.

Definition comma : ascii := ","%char.
Definition semicolon : ascii := ";"%char.
Definition backslash : ascii := "\"%char.
Definition quote : ascii := "034"%char.
Definition lineFeed : ascii := "010"%char.

(** [str.includes(c)] for a character [c]. *)
Fixpoint includesChar (str : string) (c : ascii) : bool :=
  match str with
  | EmptyString => false
  | String d str' => Ascii.eqb d c || includesChar str' c
  end.

(** [str.replace(/[,;\\]/g, '\\$&')] *)
Fixpoint escapeSeparators (str : string) : string :=
  match str with
  | EmptyString => EmptyString
  | String c str' =>
      if Ascii.eqb c comma || Ascii.eqb c semicolon || Ascii.eqb c backslash
      then String backslash (String c (escapeSeparators str'))
      else String c (escapeSeparators str')
  end.

(** [str.replace(/\n/g, '\\n')] *)
Fixpoint escapeLineFeeds (str : string) : string :=
  match str with
  | EmptyString => EmptyString
  | String c str' =>
      if Ascii.eqb c lineFeed
      then String backslash (String "n" (escapeLineFeeds str'))
      else String c (escapeLineFeeds str')
  end.

Definition escapeICS (str : string) : string :=
  escapeLineFeeds (escapeSeparators str).

(** [str.replace] of every double quote by two double quotes. *)
Fixpoint doubleQuotes (str : string) : string :=
  match str with
  | EmptyString => EmptyString
  | String c str' =>
      if Ascii.eqb c quote
      then String quote (String quote (doubleQuotes str'))
      else String c (doubleQuotes str')
  end.

Definition escapeCSV (str : string) : string :=
  if includesChar str comma || includesChar str quote
     || includesChar str lineFeed
  then String quote (doubleQuotes str ++ String quote EmptyString)
  else str.

End Shortlist.

(** ** A writer of UTC date-time strings

    [IsoWriter.toISOString] writes the times of the years 0 to 9999 as
    [new Date(t).toISOString()] does, [YYYY-MM-DDTHH:MM:SS.sssZ], and throws
    on every other number (the engine writes the years outside of this range
    with a sign and six digits; no example leaves the range);
    [IsoWriter.getTime] reads these strings, and the strings that
    [Iso8601.getTime] reads.  They are the instances of [Date_toISOString]
    and of [Date_getTime] at which the examples of the search route are run,
    and no theorem is stated of them. *)

Module IsoWriter.

Open Scope Z_scope.

(** The integer part of a number. *)
Definition truncate (t : float) : option Z :=
  match Prim2SF t with
  | S754_zero _ => Some 0
  | S754_finite s m e =>
      let magnitude := if 0 <=? e then Zpos m * 2 ^ e else Zpos m / 2 ^ (- e) in
      Some (if s then - magnitude else magnitude)
  | _ => None
  end.

(** The year, the month and the day of the day that comes [days] days after
    1970-01-01. *)
Definition civilFromDays (days : Z) : Z * Z * Z :=
  let z := days + 719468 in
  let era := z / 146097 in
  let doe := z - era * 146097 in
  let yoe := (doe - doe / 1460 + doe / 36524 - doe / 146096) / 365 in
  let doy := doe - (365 * yoe + yoe / 4 - yoe / 100) in
  let mp := (5 * doy + 2) / 153 in
  let d := doy - (153 * mp + 2) / 5 + 1 in
  let m := if mp <? 10 then mp + 3 else mp - 9 in
  let y := yoe + era * 400 in
  (if m <=? 2 then y + 1 else y, m, d).

Definition digitChar (d : Z) : ascii := ascii_of_nat (48 + Z.to_nat d).

(** [n] in [width] digits. *)
Fixpoint digits (width : nat) (n : Z) : string :=
  match width with
  | O => EmptyString
  | S width' =>
      (digits width' (n / 10) ++ String (digitChar (n mod 10)) EmptyString)%string
  end.

Definition toISOString (t : float) : Exn.Result string :=
  match truncate t with
  | Some ms =>
      let '(y, m, d) := civilFromDays (ms / 86400000) in
      let rest := ms mod 86400000 in
      if (0 <=? y) && (y <=? 9999) then
        Exn.Ok (digits 4 y ++ "-" ++ digits 2 m ++ "-" ++ digits 2 d ++ "T"
                ++ digits 2 (rest / 3600000) ++ ":"
                ++ digits 2 (rest / 60000 mod 60) ++ ":"
                ++ digits 2 (rest / 1000 mod 60) ++ "."
                ++ digits 3 (rest mod 1000) ++ "Z")%string
      else Exn.Throw (Exn.Error "Invalid time value")
  | None => Exn.Throw (Exn.Error "Invalid time value")
  end.

Definition getTime (s : string) : float :=
  if (String.length s =? 24)%nat then
    match Iso8601.parse (substring 0 19 s ++ "Z"),
          Iso8601.number 0 (list_ascii_of_string (substring 20 3 s)) with
    | Some ms, Some fraction =>
        if String.eqb (substring 19 1 s) "." && String.eqb (substring 23 1 s) "Z"
        then Iso8601.of_Z (ms + fraction)
        else nan
    | _, _ => nan
    end
  else Iso8601.getTime s.

End IsoWriter.

(** ** A writer of numbers

    [JsNumber.toFixed4 x] is [x.toFixed(4)] for the numbers below 10^21: the
    decimal number of four decimals nearest to [x], the larger one of two
    that are as near. *)

Module JsNumber.

Open Scope Z_scope.

Definition toFixed4 (x : float) : string :=
  match Prim2SF x with
  | S754_nan => "NaN"
  | S754_infinity s => if s then "-Infinity" else "Infinity"
  | S754_zero _ => "0.0000"
  | S754_finite s m e =>
      let n := if 0 <=? e then Zpos m * 2 ^ e * 10000
               else (Zpos m * 10000 * 2 + 2 ^ (- e)) / 2 ^ (- e + 1) in
      ((if s then "-" else "")
       ++ NilEmpty.string_of_uint (Nat.to_uint (Z.to_nat (n / 10000)))
       ++ "." ++ IsoWriter.digits 4 (n mod 10000))%string
  end.

End JsNumber.

(** ** Vocabulary of the specification *)

(** [Subseq kept l]: [kept] is [l] with some elements left out, the others
    in their order. *)
Inductive Subseq {A : Type} : list A -> list A -> Prop :=
| Subseq_nil : Subseq [] []
| Subseq_skip (x : A) (kept l : list A) : Subseq kept l -> Subseq kept (x :: l)
| Subseq_keep (x : A) (kept l : list A) :
    Subseq kept l -> Subseq (x :: kept) (x :: l).

(** An optional text field is present: it is defined and not empty. *)
Definition present (o : option string) : Prop :=
  exists s, o = Some s /\ s <> EmptyString.

(** Section 4.1, the category filter as the specification words it: no
    filter is specified, or a tag of the item is in the filter set. *)
Definition survivesAsStated (filterCategories : option (list HappenCategory))
  (item : ProviderItem) : Prop :=
  filterCategories = None \/
  exists fc cat, filterCategories = Some fc /\ In cat (category item) /\ In cat fc.

(** The category filter of the code: an empty filter set filters nothing. *)
Definition survives (filterCategories : option (list HappenCategory))
  (item : ProviderItem) : Prop :=
  filterCategories = None \/ filterCategories = Some [] \/
  exists fc cat, filterCategories = Some fc /\ In cat (category item) /\ In cat fc.

(** Section 4.5: the union of the successful results, provider by provider
    in the order of the registry; a failure adds nothing. *)
Inductive UnionOfSuccesses :
  list (Route.Outcome (list ProviderItem)) -> list ProviderItem -> Prop :=
| Union_none : UnionOfSuccesses [] []
| Union_success (items : list ProviderItem) fetches rest :
    UnionOfSuccesses fetches rest ->
    UnionOfSuccesses (Route.returns items :: fetches) (items ++ rest)
| Union_failure (reason : string) fetches rest :
    UnionOfSuccesses fetches rest ->
    UnionOfSuccesses (Route.throws reason :: fetches) rest.

(** An item of the test data: an event without a start time. *)
Definition untimedEvent : ProviderItem :=
  {| externalId := "e-1"; source := "meetup"; title := "Open Mic";
     description := None; category := [event];
     startTime := None; endTime := None; timezone := None;
     venueName := None; address := None; city := None;
     lat := None; lng := None; priceMin := None; priceMax := None;
     currency := None; url := "https://example.com/open-mic";
     imageUrl := None; tags := None; isFamilyFriendly := None;
     isIndoor := None; language := None; lastUpdated := None;
     popularity := None; attendeeCount := None |}.

(** A tour of the test data, without a date of last update. *)
Definition untimedTour : ProviderItem :=
  {| externalId := "t-1"; source := "meetup"; title := "Old Town Tour";
     description := None; category := [tour];
     startTime := None; endTime := None; timezone := None;
     venueName := None; address := None; city := None;
     lat := None; lng := None; priceMin := None; priceMax := None;
     currency := None; url := "https://example.com/old-town-tour";
     imageUrl := None; tags := None; isFamilyFriendly := None;
     isIndoor := None; language := None; lastUpdated := None;
     popularity := None; attendeeCount := None |}.

(** A lower-case hexadecimal digit. *)
Definition isHexDigit (c : ascii) : bool :=
  let n := nat_of_ascii c in
  ((48 <=? n) && (n <=? 57) || (97 <=? n) && (n <=? 102))%nat.

Fixpoint allHex (s : string) : bool :=
  match s with
  | EmptyString => true
  | String c s' => isHexDigit c && allHex s'
  end.

(** Section 4.4: the end of an item's interval is its end time, or its start
    time when no end time is present. *)
Definition intervalEnd {rt : Runtime} (item : NormalizedItem) (t : float)
  : Prop :=
  (present (endTime item) /\ t = time_of (endTime item))
  \/ (~ present (endTime item) /\ t = time_of (startTime item)).

(** Section 4.4: an item is retained for the window when it has no start
    time and is tagged as an attraction, or when it has a start time and its
    interval overlaps the window. *)
Definition retainedFor {rt : Runtime} (startISO endISO : string)
  (item : NormalizedItem) : Prop :=
  (~ present (startTime item) /\ In attraction (category item))
  \/ (present (startTime item)
      /\ (time_of (startTime item) <=? Date_getTime endISO)%float = true
      /\ exists itemEnd, intervalEnd item itemEnd
                         /\ (Date_getTime startISO <=? itemEnd)%float = true).

(** A normalized item of the test data, with the start time, the end time and
    the categories given. *)
Definition happening (start finish : option string)
  (cats : list HappenCategory) : NormalizedItem :=
  {| base :=
       {| externalId := "h-1"; source := "meetup"; title := "Harbour Walk";
          description := None; category := cats;
          startTime := start; endTime := finish; timezone := Some "UTC";
          venueName := None; address := None; city := None;
          lat := None; lng := None; priceMin := None; priceMax := None;
          currency := None; url := "https://example.com/harbour-walk";
          imageUrl := None; tags := None; isFamilyFriendly := None;
          isIndoor := None; language := None;
          lastUpdated := None;
          popularity := None; attendeeCount := None |};
     id := "00f1a2b3c4d5e6f7"; normalizedTitle := "harbour walk";
     score := None |}.

(** The same, at the given coordinates. *)
Definition happeningAt (latitude longitude : option float) : NormalizedItem :=
  {| base :=
       {| externalId := "h-2"; source := "opentripmap"; title := "Equator Monument";
          description := None; category := [attraction];
          startTime := None; endTime := None; timezone := Some "UTC";
          venueName := None; address := None; city := None;
          lat := latitude; lng := longitude; priceMin := None; priceMax := None;
          currency := None; url := "https://example.com/monument";
          imageUrl := None; tags := None; isFamilyFriendly := None;
          isIndoor := None; language := None;
          lastUpdated := None;
          popularity := None; attendeeCount := None |};
     id := "0a1b2c3d4e5f6071"; normalizedTitle := "equator monument";
     score := None |}.

(** Section 4.2, the proximity signals and the merge rule.  The start times
    of two items are under 30 minutes apart. *)
Definition timeProximate {rt : Runtime} (a b : NormalizedItem) : Prop :=
  present (startTime a) /\ present (startTime b)
  /\ (Js.Math_abs (time_of (startTime a) - time_of (startTime b))
      <? 1800000)%float = true.

(** Both items carry coordinates, under 200 meters apart. *)
Definition locationProximate {rt : Runtime} (a b : NormalizedItem) : Prop :=
  exists xa ya xb yb,
    lat a = Some xa /\ lng a = Some ya /\ lat b = Some xb /\ lng b = Some yb
    /\ (getDistance xa ya xb yb <? 200)%float = true.

Definition duplicates {rt : Runtime} (a b : NormalizedItem) : Prop :=
  ((0.9 <? stringSimilarity (normalizedTitle a) (normalizedTitle b))%float = true
   /\ timeProximate a b)
  \/ ((0.8 <? stringSimilarity (normalizedTitle a) (normalizedTitle b))%float = true
      /\ locationProximate a b /\ timeProximate a b).

(** An item has a popularity score that counts: a number other than 0. *)
Definition popular (item : NormalizedItem) (p : float) : Prop :=
  popularity item = Some p /\ Js.truthy p = true.

(** Section 4.2, the replacement policy as the specification words it: the
    popularity of the incoming item exceeds the representative's, or the
    representative has none. *)
Definition improvesAsStated (item rep : NormalizedItem) : Prop :=
  (~ present (description rep) /\ present (description item))
  \/ (~ present (imageUrl rep) /\ present (imageUrl item))
  \/ (exists p, popularity item = Some p
                /\ (popularity rep = None
                    \/ exists q, popularity rep = Some q /\ (q <? p)%float = true)).

(** The replacement policy of the code: the incoming item must have a
    popularity other than 0. *)
Definition improves (item rep : NormalizedItem) : Prop :=
  (~ present (description rep) /\ present (description item))
  \/ (~ present (imageUrl rep) /\ present (imageUrl item))
  \/ (exists p, popular item p
                /\ ((forall q, ~ popular rep q)
                    \/ exists q, popularity rep = Some q /\ (q <? p)%float = true)).

(** One incoming item against the kept representatives: no representative
    matches and the item is kept as a new one, or the first match takes the
    item's place (under its own identifier) when the item improves on it, and
    stays as it is otherwise; the representatives after the first match are
    not looked at. *)
Inductive merged (dup improve : NormalizedItem -> NormalizedItem -> Prop)
  (item : NormalizedItem) : list NormalizedItem -> list NormalizedItem -> Prop :=
| merged_new kept :
    (forall rep, In rep kept -> ~ dup item rep) ->
    merged dup improve item kept (kept ++ [item])
| merged_replace before rep after :
    (forall r, In r before -> ~ dup item r) ->
    dup item rep -> improve item rep ->
    merged dup improve item (before ++ rep :: after)
      (before ++ with_id item (id rep) :: after)
| merged_unchanged before rep after :
    (forall r, In r before -> ~ dup item r) ->
    dup item rep -> ~ improve item rep ->
    merged dup improve item (before ++ rep :: after) (before ++ rep :: after).

(** The linear scan: the items are merged one after the other into the
    representatives kept so far. *)
Inductive scanned (dup improve : NormalizedItem -> NormalizedItem -> Prop)
  : list NormalizedItem -> list NormalizedItem -> list NormalizedItem -> Prop :=
| scanned_done kept : scanned dup improve kept [] kept
| scanned_item kept item items kept' result :
    merged dup improve item kept kept' ->
    scanned dup improve kept' items result ->
    scanned dup improve kept (item :: items) result.

(** The coordinates an item carries are numbers other than 0. *)
Definition offAxes (item : NormalizedItem) : Prop :=
  (forall x, lat item = Some x -> Js.truthy x = true)
  /\ (forall y, lng item = Some y -> Js.truthy y = true).

(** The items of the merge example of section 8, as the providers emit them. *)
Definition jazzA : ProviderItem :=
  {| externalId := "1001"; source := "eventbrite"; title := "Jazz Night";
     description := None; category := [event];
     startTime := Some "2025-06-10T20:00:00Z"; endTime := None;
     timezone := None; venueName := None; address := None; city := None;
     lat := Some 40%float; lng := Some (-73)%float;
     priceMin := None; priceMax := None;
     currency := None; url := "https://example.com/jazz";
     imageUrl := None; tags := None; isFamilyFriendly := None;
     isIndoor := None; language := None; lastUpdated := None;
     popularity := None; attendeeCount := None |}.

Definition jazzB : ProviderItem :=
  {| externalId := "m-77"; source := "meetup"; title := "jazz night!!";
     description := Some "live music"; category := [event];
     startTime := Some "2025-06-10T20:10:00Z"; endTime := None;
     timezone := None; venueName := None; address := None; city := None;
     lat := Some 40.0005%float; lng := Some (-73.0004)%float;
     priceMin := None; priceMax := None;
     currency := None; url := "https://example.com/jazz-meetup";
     imageUrl := None; tags := None; isFamilyFriendly := None;
     isIndoor := None; language := None; lastUpdated := None;
     popularity := None; attendeeCount := None |}.

(** The first item of the merge example fetched again, later: the two
    records agree on [source] and [externalId] and on little else. *)
Definition jazzRefetched : ProviderItem :=
  {| externalId := "1001"; source := "eventbrite"; title := "Jazz Night (sold out)";
     description := Some "live music"; category := [event; seminar];
     startTime := Some "2025-06-11T21:00:00Z"; endTime := Some "2025-06-11T23:00:00Z";
     timezone := Some "America/New_York"; venueName := Some "Blue Room";
     address := None; city := None;
     lat := Some 40.5%float; lng := Some (-73.5)%float;
     priceMin := Some 10%float; priceMax := None;
     currency := None; url := "https://example.com/jazz-night";
     imageUrl := None; tags := None; isFamilyFriendly := None;
     isIndoor := None; language := None; lastUpdated := Some "2025-06-01T00:00:00Z";
     popularity := Some 0.5%float; attendeeCount := Some 12%float |}.

(** A representative with a description and an image, and a duplicate of it
    that brings nothing but a popularity of 0. *)
Definition galaKept : NormalizedItem :=
  {| base :=
       {| externalId := "g-1"; source := "eventbrite"; title := "Gala";
          description := Some "annual gala"; category := [event];
          startTime := Some "2025-06-10T20:00:00Z"; endTime := None;
          timezone := Some "UTC"; venueName := None; address := None;
          city := None; lat := None; lng := None;
          priceMin := None; priceMax := None; currency := None;
          url := "https://example.com/gala";
          imageUrl := Some "https://example.com/gala.png"; tags := None;
          isFamilyFriendly := None; isIndoor := None; language := None;
          lastUpdated := None; popularity := None; attendeeCount := None |};
     id := "1111111111111111"; normalizedTitle := "gala"; score := None |}.

Definition galaIncoming : NormalizedItem :=
  {| base :=
       {| externalId := "g-2"; source := "meetup"; title := "Gala";
          description := None; category := [event];
          startTime := Some "2025-06-10T20:00:00Z"; endTime := None;
          timezone := Some "UTC"; venueName := None; address := None;
          city := None; lat := None; lng := None;
          priceMin := None; priceMax := None; currency := None;
          url := "https://example.com/gala-meetup";
          imageUrl := None; tags := None;
          isFamilyFriendly := None; isIndoor := None; language := None;
          lastUpdated := None; popularity := Some 0%float;
          attendeeCount := None |};
     id := "2222222222222222"; normalizedTitle := "gala"; score := None |}.

(** The examples do not depend on the trigonometric functions, on the
    logarithm or on the zone conversion; they are run with these in their
    place. *)
Definition anyUnary (x : float) : float := x.
Definition anyBinary (x y : float) : float := x.
Definition noConversion (t zone target : string) : option string := None.

(** The run time of the examples: SHA-256, the reader of UTC date-time
    strings, and a clock whose readings all fall in the millisecond of
    2025-06-10T10:00:00Z. *)
Definition exampleRuntime : Runtime :=
  {| sha256_hex := Sha256.hex;
     setZone := noConversion;
     now_iso := fun _ => "2025-06-10T10:00:00.000Z";
     Date_getTime := Iso8601.getTime;
     Date_now := fun _ => 1749549600000%float;
     Math_sin := anyUnary;
     Math_cos := anyUnary;
     Math_log10 := anyUnary;
     Math_atan2 := anyBinary |}.

(** The same run time a day later, with a zone conversion that returns its
    argument. *)
Definition laterRuntime : Runtime :=
  {| sha256_hex := Sha256.hex;
     setZone := fun t _ _ => Some t;
     now_iso := fun _ => "2025-06-11T10:00:00.000Z";
     Date_getTime := Iso8601.getTime;
     Date_now := fun _ => 1749636000000%float;
     Math_sin := anyUnary;
     Math_cos := anyUnary;
     Math_log10 := anyUnary;
     Math_atan2 := anyBinary |}.

(** The run time of the examples with a clock that advances: the reading
    number [k] is made [k] milliseconds after 2025-06-10T10:00:00Z, and the
    dates are written up to the second reading. *)
Definition tickingRuntime : Runtime :=
  {| sha256_hex := Sha256.hex;
     setZone := noConversion;
     now_iso := fun k => match k with
                         | O => "2025-06-10T10:00:00.000Z"
                         | _ => "2025-06-10T10:00:00.001Z"
                         end;
     Date_getTime := Iso8601.getTime;
     Date_now := fun k => (1749549600000 + Js.of_nat k)%float;
     Math_sin := anyUnary;
     Math_cos := anyUnary;
     Math_log10 := anyUnary;
     Math_atan2 := anyBinary |}.

(** The items of the merge example, normalized. *)
Definition normalizedJazzA : NormalizedItem :=
  fst (normalizeItem (rt := exampleRuntime) "UTC" jazzA 0).

Definition normalizedJazzB : NormalizedItem :=
  fst (normalizeItem (rt := exampleRuntime) "UTC" jazzB 0).

(** Section 4.3: sorted descending by score, no item is scored below an item
    that comes after it. *)
Definition descending (l : list NormalizedItem) : Prop :=
  StronglySorted
    (fun a b => (num (score a) <? num (score b))%float = false) l.


(** [a] comes no later than [b] in the descending order of the keys. *)
Definition noLater {A : Type} (key : A -> float) (a b : A) : Prop :=
  (key a <? key b)%float = false.

(** The number that the comparison function of rank reads off an item. *)
Definition scoreKey (item : NormalizedItem) : float :=
  Js.or_opt (score item) 0.

(** [{ ...item, popularity: p }]: the item with another popularity and
    every other field as it is. *)
Definition withPopularity (item : NormalizedItem) (p : option float)
  : NormalizedItem :=
  {| base :=
       {| externalId := externalId item; source := source item;
          title := title item; description := description item;
          category := category item; startTime := startTime item;
          endTime := endTime item; timezone := timezone item;
          venueName := venueName item; address := address item;
          city := city item; lat := lat item; lng := lng item;
          priceMin := priceMin item; priceMax := priceMax item;
          currency := currency item; url := url item;
          imageUrl := imageUrl item; tags := tags item;
          isFamilyFriendly := isFamilyFriendly item;
          isIndoor := isIndoor item; language := language item;
          lastUpdated := lastUpdated item; popularity := p;
          attendeeCount := attendeeCount item |};
     id := id item; normalizedTitle := normalizedTitle item;
     score := score item |}.

(** Section 4.3, the popularity term of the recommended score: popularity
    times 30, added to the initial score 0. *)
Definition popularityTerm (item : NormalizedItem) : float :=
  if Js.truthy_num (popularity item)
  then (0 + num (popularity item) * 30)%float else 0%float.

(** The other terms of the recommended score, in the order in which they are
    added: attendee count, recency, proximity, completeness (up to five
    times 3), category boost, temporal urgency.  [updateNow] is the reading
    of the clock for the recency and [startNow] the reading for the
    urgency. *)
Definition otherTerms {rt : Runtime} (center : option (float * float))
  (item : NormalizedItem) (updateNow startNow : float) : list float :=
  ((if Js.truthy_num (attendeeCount item)
    then [Js.Math_min 10 (Math_log10 (num (attendeeCount item) + 1) * 2)]
    else [])
   ++ (if Js.truthy_str (lastUpdated item)
       then [Js.Math_max 0
               (20 - (updateNow - time_of (lastUpdated item))
                     / (1000 * 60 * 60) / 24)]
       else [])
   ++ match center with
      | Some c =>
          if Js.truthy_num (lat item) && Js.truthy_num (lng item)
          then [Js.Math_max 0
                  (20 - getDistance (fst c) (snd c)
                          (num (lat item)) (num (lng item)) / 1000)]
          else []
      | None => []
      end
   ++ (if Js.truthy_str (description item) then [3] else [])
   ++ (if Js.truthy_str (imageUrl item) then [3] else [])
   ++ (if Js.truthy_str (venueName item) then [3] else [])
   ++ (if Js.truthy_str (address item) then [3] else [])
   ++ match priceMin item with
      | Some _ => [3]
      | None => []
      end
   ++ [Js.Math_min 10
         (fold_left (fun acc cat => acc + Js.or_num (categoryWeights cat) 1)
            (category item) 0 * 2)]
   ++ (if Js.truthy_str (startTime item)
       then
         if (time_of (startTime item) - startNow) / (1000 * 60 * 60 * 24) <? 1
         then [5]
         else if (time_of (startTime item) - startNow)
                 / (1000 * 60 * 60 * 24) <? 3
         then [3]
         else if (time_of (startTime item) - startNow)
                 / (1000 * 60 * 60 * 24) <? 7
         then [1]
         else []
       else []))%float.

(** The input of rank with its scores: every item with the score of its
    strategy, each of them scored after the items before it; [tick] readings
    of the clock precede the first. *)
Fixpoint scoredFrom {rt : Runtime} (center : option (float * float))
  (sortBy : SortBy) (tick : nat) (items : list NormalizedItem)
  : list NormalizedItem :=
  match items with
  | [] => []
  | item :: rest =>
      with_score item (fst (itemScore center sortBy item tick))
      :: scoredFrom center sortBy (snd (itemScore center sortBy item tick)) rest
  end.

(** The readings of the clock that the recommended score of an item takes:
    one for the recency where the item has a date of last update, then one
    for the urgency where it has a start time. *)
Definition recommendedReads (item : NormalizedItem) : nat :=
  (if Js.truthy_str (lastUpdated item) then 1 else 0)
  + (if Js.truthy_str (startTime item) then 1 else 0).

(** The number of the reading for the urgency, for an item that is scored
    after [tick] readings. *)
Definition urgencyTick (item : NormalizedItem) (tick : nat) : nat :=
  if Js.truthy_str (lastUpdated item) then S tick else tick.

(** The other terms of the recommended score of an item that is scored
    after [tick] readings of the clock. *)
Definition otherTermsAt {rt : Runtime} (center : option (float * float))
  (item : NormalizedItem) (tick : nat) : list float :=
  otherTerms center item (Date_now tick) (Date_now (urgencyTick item tick)).

(** The items with their recommended scores, each of them scored after the
    items before it; [tick] readings of the clock precede the first. *)
Fixpoint recommendedFrom {rt : Runtime} (center : option (float * float))
  (tick : nat) (items : list NormalizedItem) : list NormalizedItem :=
  match items with
  | [] => []
  | item :: rest =>
      with_score item (fst (recommendedScore center item tick))
      :: recommendedFrom center (tick + recommendedReads item) rest
  end.

(** The run time [rt] at another time: the clock gives other readings, and
    nothing else changes. *)
Definition atClock (rt : Runtime) (readings : nat -> float) : Runtime :=
  {| sha256_hex := @sha256_hex rt;
     setZone := @setZone rt;
     now_iso := @now_iso rt;
     Date_getTime := @Date_getTime rt;
     Date_now := readings;
     Math_sin := @Math_sin rt;
     Math_cos := @Math_cos rt;
     Math_log10 := @Math_log10 rt;
     Math_atan2 := @Math_atan2 rt |}.

(** The strategies whose scores are not counted from the clock: 'price',
    and 'closest' with a center. *)
Definition clockFree (params : RankParams) : bool :=
  match sortBy params, center params with
  | Some price, _ => true
  | Some closest, Some _ => true
  | _, _ => false
  end.

(** An event that starts a day after 2025-06-10T10:00:00Z. *)
Definition tomorrowWalk : NormalizedItem :=
  happening (Some "2025-06-11T10:00:00Z") None [event].

(** An item without a start time. *)
Definition standingOffer : NormalizedItem := happening None None [event].

(** An item of the test data with a description and a date of last update. *)
Definition reviewed (updated : string) : NormalizedItem :=
  {| base :=
       {| externalId := "r-1"; source := "meetup"; title := "Night Market";
          description := Some "food stalls"; category := [event];
          startTime := None; endTime := None; timezone := Some "UTC";
          venueName := None; address := None; city := None;
          lat := None; lng := None; priceMin := None; priceMax := None;
          currency := None; url := "https://example.com/night-market";
          imageUrl := None; tags := None; isFamilyFriendly := None;
          isIndoor := None; language := None;
          lastUpdated := Some updated;
          popularity := None; attendeeCount := None |};
     id := "3333333333333333"; normalizedTitle := "night market";
     score := None |}.

(** *** Further vocabulary: edit distance, items without a start time *)

(** The edit distance of two words, by the recursion on their first
    characters: a character is kept at no cost, and is substituted, inserted
    or deleted at the cost of 1. *)
Fixpoint editDistance (s : list ascii) : list ascii -> nat :=
  fix against (t : list ascii) : nat :=
    match s, t with
    | [], _ => List.length t
    | _, [] => List.length s
    | a :: s', b :: t' =>
        if Ascii.eqb a b then editDistance s' t'
        else S (Nat.min (editDistance s' t')
                  (Nat.min (against t') (editDistance s' t)))
    end.

(** The cells of one row of the matrix of levenshteinDistance to the right
    of the column of the prefix [p] (kept last character first): one cell for
    each character of [s], against the word [u]. *)
Fixpoint rowCells (u p : list ascii) (s : string) : list nat :=
  match s with
  | EmptyString => []
  | String a s' => editDistance u (a :: p) :: rowCells u (a :: p) s'
  end.

(** The characters of a string, the last one first. *)
Definition reversed (s : string) : list ascii := rev (list_ascii_of_string s).

(** An item carries no start time: the field is [undefined] or empty. *)
Definition untimed (item : NormalizedItem) : bool :=
  negb (Js.truthy_str (startTime item)).

(** No item of the list is a duplicate of an item before it. *)
Definition duplicateFree {rt : Runtime} (items : list NormalizedItem) : Prop :=
  ForallOrdPairs (fun earlier later => isDuplicateOf later earlier = false) items.

(** A character of a normalized title: a lower-case letter, a digit, an
    underscore or a space. *)
Definition isTitleChar (c : ascii) : bool :=
  let n := nat_of_ascii c in
  ((97 <=? n) && (n <=? 122) || (48 <=? n) && (n <=? 57)
   || (n =? 95) || (n =? 32))%nat.

Fixpoint allTitleChars (s : string) : bool :=
  match s with
  | EmptyString => true
  | String c s' => isTitleChar c && allTitleChars s'
  end.

(** No two spaces in a row; [after_space] tells that the character before
    was a space. *)
Fixpoint singleSpacedFrom (after_space : bool) (s : string) : bool :=
  match s with
  | EmptyString => true
  | String c s' =>
      if Ascii.eqb c " " then negb after_space && singleSpacedFrom true s'
      else singleSpacedFrom false s'
  end.

Definition singleSpaced (s : string) : bool := singleSpacedFrom false s.

(** No upper-case letter of the Latin alphabet. *)
Fixpoint noUpperCase (s : string) : bool :=
  match s with
  | EmptyString => true
  | String c s' =>
      negb ((65 <=? nat_of_ascii c) && (nat_of_ascii c <=? 90))%nat
      && noUpperCase s'
  end.

(** *** Further vocabulary: the search route and the providers *)

(** An item that a provider returned: it is in the list of a call of
    [fetchItems] that was fulfilled. *)
Definition fetched (fetches : list (Route.Outcome (list ProviderItem)))
  (p : ProviderItem) : Prop :=
  exists l, In (Route.returns l) fetches /\ In p l.

(** The cache of the geocoder holds no fresh entry for the key. *)
Definition noFreshEntry (geocodeCache : list (string * Geocoding.CacheEntry))
  (now : float) (key : string) : Prop :=
  forall entry,
    Map_get geocodeCache key = Some entry ->
    (now - Geocoding.timestamp entry <? Geocoding.CACHE_TTL)%float = false.

(** The cache of the providers holds no fresh data for the key. *)
Definition noFreshData (CACHE_TTL : float)
  (providerCache : list (string * BaseProvider.CacheEntry))
  (now : float) (key : string) : Prop :=
  forall entry,
    Map_get providerCache key = Some entry ->
    (now - BaseProvider.timestamp entry <? CACHE_TTL)%float = false.

(** The answer of an attempt makes [fetchWithRetry] try again: the call
    threw, or the status is 429, or it is a server error. *)
Definition triesAgain (attempt : Route.Outcome BaseProvider.Response) : bool :=
  match attempt with
  | Route.returns response =>
      (BaseProvider.status response =? 429)%nat
      || negb (BaseProvider.ok response)
         && (500 <=? BaseProvider.status response)%nat
  | Route.throws _ => true
  end.

(** The wait after the attempt [i] that failed, and after the attempt [i]
    that was answered 429. *)
Definition waitAfterError (i : nat) : float :=
  Js.Math_min (500 * BaseProvider.Math_pow2 i)%float 5000%float.

Definition waitAfterLimit (random : nat -> float) (i : nat) : float :=
  (Js.Math_min (1000 * BaseProvider.Math_pow2 i) 10000 + random i * 1000)%float.

(** The entries of the map of uniquePlaces when the loop has gone through
    the places [seen]: no two entries under one key, every entry a place
    that was seen under its own key, and every place that was seen
    represented under its key, by a place with a description when it has
    one. *)
Definition placesOf (toFixed4 : float -> string) (seen : list ProviderItem)
  (uniqueItems : list (string * ProviderItem)) : Prop :=
  NoDup (map fst uniqueItems)
  /\ (forall key kept, In (key, kept) uniqueItems ->
        key = OpenTripMap.locationKey toFixed4 kept /\ In kept seen)
  /\ (forall item, In item seen ->
        exists kept,
          Map_get uniqueItems (OpenTripMap.locationKey toFixed4 item) = Some kept
          /\ (Js.truthy_str (description item) = true ->
              Js.truthy_str (description kept) = true)).

(** *** Further vocabulary: the readers of the exported files *)

(** A field of a CSV line as its reader takes it: between double quotes,
    with two double quotes standing for one, or as it is. *)
Fixpoint readQuoted (s : string) : string :=
  match s with
  | EmptyString => EmptyString
  | String c s' =>
      if Ascii.eqb c Shortlist.quote then
        match s' with
        | String d s'' =>
            if Ascii.eqb d Shortlist.quote
            then String Shortlist.quote (readQuoted s'')
            else EmptyString
        | EmptyString => EmptyString
        end
      else String c (readQuoted s')
  end.

Definition readCSVField (field : string) : string :=
  match field with
  | String c rest => if Ascii.eqb c Shortlist.quote then readQuoted rest else field
  | EmptyString => EmptyString
  end.

(** A text value of a calendar file as its reader takes it: a backslash and
    the letter n stand for a line feed, a backslash and another character
    for that character. *)
Fixpoint readICSText (s : string) : string :=
  match s with
  | EmptyString => EmptyString
  | String c s' =>
      if Ascii.eqb c Shortlist.backslash then
        match s' with
        | String d s'' =>
            String (if Ascii.eqb d "n" then Shortlist.lineFeed else d)
              (readICSText s'')
        | EmptyString => EmptyString
        end
      else String c (readICSText s')
  end.

(** *** Further test data *)

(** The run time of the examples of the search route: the clock of
    [exampleRuntime], with the reader of the strings that toISOString
    writes. *)
Definition routeRuntime : Runtime :=
  {| sha256_hex := Sha256.hex;
     setZone := noConversion;
     now_iso := fun _ => "2025-06-10T10:00:00.000Z";
     Date_getTime := IsoWriter.getTime;
     Date_now := fun _ => 1749549600000%float;
     Math_sin := anyUnary;
     Math_cos := anyUnary;
     Math_log10 := anyUnary;
     Math_atan2 := anyBinary |}.

Definition routeCalendar : Search.Calendar :=
  {| Search.Date_toISOString := IsoWriter.toISOString |}.

(** A search for three days in Lisbon. *)
Definition lisbonSearch : Validation.SearchParamsInput :=
  {| Validation.city := "Lisbon";
     Validation.start := "2025-06-10T00:00:00Z";
     Validation.end_ := "2025-06-13T00:00:00Z";
     Validation.categories := None |}.

Definition lisbon : Geocoding.GeocodingResult :=
  {| Geocoding.lat := 38.7223%float;
     Geocoding.lng := (-9.1393)%float;
     Geocoding.bbox := ((-9.2298)%float, 38.6914%float,
                        (-9.0863)%float, 38.7967%float);
     Geocoding.timezone := "UTC";
     Geocoding.displayName := "Lisboa, Portugal";
     Geocoding.city := "Lisbon";
     Geocoding.country := "Portugal" |}.

Definition findsLisbon (city : string) : Exn.Result Geocoding.GeocodingResult :=
  Exn.Ok lisbon.

(** One provider times out and the other returns the two items of the merge
    example. *)
Definition oneProviderDown (validated : Validation.SearchParamsInput)
  (geo : Geocoding.GeocodingResult)
  : list (Route.Outcome (list ProviderItem)) :=
  [Route.throws "The operation was aborted due to timeout";
   Route.returns [jazzA; jazzB]].

(** No provider returns an item. *)
Definition allProvidersDown (validated : Validation.SearchParamsInput)
  (geo : Geocoding.GeocodingResult)
  : list (Route.Outcome (list ProviderItem)) :=
  [Route.throws "The operation was aborted due to timeout"; Route.returns []].

(** A cache of the geocoder with the entry of Lisbon, stored at the time of
    the clock of the examples. *)
Definition lisbonCached : list (string * Geocoding.CacheEntry) :=
  [("lisbon",
    {| Geocoding.result := lisbon;
       Geocoding.timestamp := 1749549600000%float |})].

(** Answers of a server: the page, too many requests, and an outage. *)
Definition pageAnswer : BaseProvider.Response :=
  {| BaseProvider.status := 200; BaseProvider.ok := true;
     BaseProvider.statusText := "OK"; BaseProvider.content := "{}" |}.

Definition limitAnswer : BaseProvider.Response :=
  {| BaseProvider.status := 429; BaseProvider.ok := false;
     BaseProvider.statusText := "Too Many Requests";
     BaseProvider.content := EmptyString |}.

Definition alwaysLimited (i : nat) : Route.Outcome BaseProvider.Response :=
  Route.returns limitAnswer.

Definition alwaysRefused (i : nat) : Route.Outcome BaseProvider.Response :=
  Route.throws "fetch failed".

Definition noJitter (i : nat) : float := 0%float.

(** Two records of one place, the second with a description, and a record
    of another place. *)
Definition placeAt (name : string) (about : option string)
  (latitude longitude : float) : ProviderItem :=
  {| externalId := name; source := "opentripmap"; title := name;
     description := about; category := [attraction];
     startTime := None; endTime := None; timezone := None;
     venueName := Some name; address := None; city := Some "Lisbon";
     lat := Some latitude; lng := Some longitude;
     priceMin := None; priceMax := None; currency := None;
     url := "https://www.openstreetmap.org/"; imageUrl := None;
     tags := None; isFamilyFriendly := Some true; isIndoor := None;
     language := None; lastUpdated := None;
     popularity := None; attendeeCount := None |}.

Definition lisbonPlaces : list ProviderItem :=
  [placeAt "Torre de Belem" None 38.69158%float (-9.21597)%float;
   placeAt "Belem Tower" (Some "a fortification of the 16th century")
     38.69161%float (-9.21601)%float;
   placeAt "Castelo de Sao Jorge" None 38.71393%float (-9.13345)%float].

(** A geocoder that finds no city. *)
Definition findsNothing (city : string) : Exn.Result Geocoding.GeocodingResult :=
  Exn.Throw (Exn.Error ("City not found: " ++ city)).

(** A cache of the providers with data fetched a day before the clock of the
    examples, and a call at that clock whose fetcher fails. *)
Definition dayOldCache : list (string * BaseProvider.CacheEntry) :=
  [("meetup:Lisbon",
    {| BaseProvider.key := "meetup:Lisbon";
       BaseProvider.data := [jazzB];
       BaseProvider.timestamp := 1749463200000%float |})].

Definition failingCall : BaseProvider.Call :=
  {| BaseProvider.call_now := 1749549600000%float;
     BaseProvider.call_storedAt := 1749549600500%float;
     BaseProvider.call_cacheKey := "meetup:Lisbon";
     BaseProvider.call_fetcher := Route.throws "HTTP 503: Service Unavailable" |}.

(** Two events of one title, two hours apart. *)
Definition morningWalk : NormalizedItem :=
  happening (Some "2025-06-10T09:00:00Z") None [event].

Definition laterWalk : NormalizedItem :=
  happening (Some "2025-06-10T11:00:00Z") None [event].

(** ** Properties *)

(** *** Run-time facts *)

Lemma HappenCategory_eqb_eq (a b : HappenCategory) :
  HappenCategory_eqb a b = true <-> a = b.
Proof. destruct a, b; simpl; split; congruence. Qed.

Lemma includes_In (xs : list HappenCategory) (c : HappenCategory) :
  includes xs c = true <-> In c xs.
Proof.
  unfold includes. rewrite existsb_exists. split.
  - intros [x [Hin Heq]]. apply HappenCategory_eqb_eq in Heq. now subst.
  - intros Hin. exists c. split; [assumption | now apply HappenCategory_eqb_eq].
Qed.

Lemma truthy_str_present (o : option string) :
  Js.truthy_str o = true <-> present o.
Proof.
  unfold present. destruct o as [s|]; simpl.
  - rewrite negb_true_iff. split.
    + intros H. exists s. split; [reflexivity|].
      intros ->. discriminate.
    + intros [s' [[= <-] Hne]]. apply String.eqb_neq. exact Hne.
  - split; [discriminate|]. intros [s [H _]]. discriminate.
Qed.

Lemma truthy_str_absent (o : option string) :
  Js.truthy_str o = false <-> ~ present o.
Proof.
  rewrite <- truthy_str_present. destruct (Js.truthy_str o); split; congruence.
Qed.

Lemma Subseq_filter {A : Type} (f : A -> bool) (l : list A) :
  Subseq (filter f l) l.
Proof.
  induction l as [|x l IH]; simpl.
  - constructor.
  - destruct (f x); now constructor.
Qed.

Lemma Subseq_map {A B : Type} (g : A -> B) (kept l : list A) :
  Subseq kept l -> Subseq (map g kept) (map g l).
Proof. induction 1; simpl; now constructor. Qed.

(** *** [Array.prototype.map] with a state *)

Section ArrayMap.

Context {A B S : Type} (callback : A -> S -> B * S).

Lemma Array_map_cons (x : A) (rest : list A) (state : S) :
  Js.Array_map callback (x :: rest) state
  = (fst (callback x state)
       :: fst (Js.Array_map callback rest (snd (callback x state))),
     snd (Js.Array_map callback rest (snd (callback x state)))).
Proof.
  cbn [Js.Array_map]. destruct (callback x state) as [y state']. cbn [fst snd].
  destruct (Js.Array_map callback rest state'). reflexivity.
Qed.

Lemma Array_map_length (l : list A) : forall state,
  List.length (fst (Js.Array_map callback l state)) = List.length l.
Proof.
  induction l as [|x l IH]; intros state; [reflexivity|].
  rewrite Array_map_cons. cbn [fst List.length]. now rewrite IH.
Qed.

(** The results come in the order of the elements, each of them what the
    callback gives for its element from some state. *)
Lemma Array_map_Forall2 (l : list A) : forall state,
  Forall2 (fun x y => exists state', y = fst (callback x state'))
    l (fst (Js.Array_map callback l state)).
Proof.
  induction l as [|x l IH]; intros state; [constructor|].
  rewrite Array_map_cons. cbn [fst]. constructor; [|apply IH].
  now exists state.
Qed.

Lemma Array_map_In (l : list A) (y : B) : forall state,
  In y (fst (Js.Array_map callback l state)) ->
  exists x state', In x l /\ y = fst (callback x state').
Proof.
  induction l as [|x l IH]; intros state; [intros []|].
  rewrite Array_map_cons. cbn [fst]. intros [<-|Hin].
  - exists x, state. split; [now left | reflexivity].
  - destruct (IH _ Hin) as [x' [state' [Hx ->]]].
    exists x', state'. split; [now right | reflexivity].
Qed.

Lemma In_Array_map (l : list A) (x : A) : forall state,
  In x l ->
  exists state', In (fst (callback x state')) (fst (Js.Array_map callback l state)).
Proof.
  induction l as [|x' l IH]; intros state; [intros []|].
  rewrite Array_map_cons. cbn [fst]. intros [->|Hin].
  - exists state. now left.
  - destruct (IH (snd (callback x' state)) Hin) as [state' H].
    exists state'. now right.
Qed.

(** What the results do not owe to the state is mapped as by [map]. *)
Lemma Array_map_map {C : Type} (g : B -> C) (h : A -> C) (l : list A) :
  (forall x state, g (fst (callback x state)) = h x) ->
  forall state, map g (fst (Js.Array_map callback l state)) = map h l.
Proof.
  intros H. induction l as [|x l IH]; intros state; [reflexivity|].
  rewrite Array_map_cons. cbn [fst map]. now rewrite H, IH.
Qed.

Lemma Array_map_app (l1 l2 : list A) : forall state,
  fst (Js.Array_map callback (l1 ++ l2) state)
  = fst (Js.Array_map callback l1 state)
    ++ fst (Js.Array_map callback l2 (snd (Js.Array_map callback l1 state))).
Proof.
  induction l1 as [|x l1 IH]; intros state; [reflexivity|].
  cbn [app]. rewrite !Array_map_cons. cbn [fst snd app]. now rewrite IH.
Qed.

(** A callback that neither reads nor changes the state maps as [map]
    does. *)
Lemma Array_map_pure (f : A -> B) (l : list A) :
  (forall x state, callback x state = (f x, state)) ->
  forall state, Js.Array_map callback l state = (map f l, state).
Proof.
  intros H. induction l as [|x l IH]; intros state; [reflexivity|].
  rewrite Array_map_cons, H. cbn [fst snd map]. now rewrite IH.
Qed.

End ArrayMap.

(** *** The provider fan-out *)

Lemma flat_map_itemsOf (fetches : list (Route.Outcome (list ProviderItem))) :
  UnionOfSuccesses fetches
    (flat_map Route.itemsOf
       (map (fun p => match p with
                      | Route.returns v => Route.fulfilled v
                      | Route.throws r => Route.rejected r
                      end) fetches)).
Proof.
  induction fetches as [|[items|reason] fetches IH]; simpl.
  - constructor.
  - now constructor.
  - now constructor.
Qed.

Lemma UnionOfSuccesses_functional fetches l1 l2 :
  UnionOfSuccesses fetches l1 -> UnionOfSuccesses fetches l2 -> l1 = l2.
Proof.
  intros H1. revert l2.
  induction H1; intros l2 H2; inversion H2; subst; try reflexivity.
  - f_equal. now apply IHUnionOfSuccesses.
  - now apply IHUnionOfSuccesses.
Qed.

(** C4.  Whatever the providers' outcomes, the fan-out returns (it never
    throws) the union of the successful providers' items in the order of the
    registry, a failed provider adding nothing; with three providers of which
    one throws, whichever it is, the items of the other two are returned. *)
Theorem collectItems_isolates_failures :
  (forall fetches, exists allItems,
      Route.collectItems fetches = Route.returns allItems
      /\ UnionOfSuccesses fetches allItems)
  /\ (forall fetches reason, Route.collectItems fetches <> Route.throws reason)
  /\ (forall a b reason,
        Route.collectItems [Route.throws reason; Route.returns a; Route.returns b]
          = Route.returns (a ++ b)
        /\ Route.collectItems [Route.returns a; Route.throws reason; Route.returns b]
          = Route.returns (a ++ b)
        /\ Route.collectItems [Route.returns a; Route.returns b; Route.throws reason]
          = Route.returns (a ++ b)).
Proof.
  split; [|split].
  - intros fetches. eexists. split.
    + unfold Route.collectItems, Route.Promise_allSettled, Route.bind.
      reflexivity.
    + apply flat_map_itemsOf.
  - intros fetches reason. unfold Route.collectItems. simpl. discriminate.
  - intros a b reason. unfold Route.collectItems. simpl.
    rewrite !app_nil_r. repeat split.
Qed.

(** When anything was collected, it is what enters the pipeline. *)
Lemma orMockItems_nonempty mockItems allItems :
  allItems <> [] -> Route.orMockItems mockItems allItems = allItems.
Proof.
  unfold Route.orMockItems. destruct allItems; [congruence|reflexivity].
Qed.

(** *** normalize *)

Lemma hexDigit_isHex (x : N) :
  isHexDigit (Sha256.hexDigit (N.land x 0xF)) = true.
Proof.
  assert (Hlt : (N.land x 0xF < 16)%N).
  { change 0xF%N with (N.ones 4). rewrite N.land_ones.
    apply N.mod_lt. discriminate. }
  destruct (N.land x 0xF) as [|p]; [reflexivity|].
  do 4 (destruct p as [p|p|]; try reflexivity); exfalso; lia.
Qed.

Lemma digest_length (st : Sha256.state) :
  String.length (Sha256.digest st) = 64%nat.
Proof. reflexivity. Qed.

Lemma digest_allHex (st : Sha256.state) : allHex (Sha256.digest st) = true.
Proof.
  unfold Sha256.digest, Sha256.hexWord. cbn [allHex].
  rewrite !hexDigit_isHex. reflexivity.
Qed.

Lemma substring_prefix_length (n : nat) (s : string) :
  (n <= String.length s)%nat -> String.length (substring 0 n s) = n.
Proof.
  revert s. induction n as [|n IH]; intros s Hle.
  - destruct s; reflexivity.
  - destruct s as [|c s]; simpl in *; [lia|].
    rewrite IH; [reflexivity | lia].
Qed.

Lemma substring_prefix_allHex (n : nat) (s : string) :
  allHex s = true -> allHex (substring 0 n s) = true.
Proof.
  revert s. induction n as [|n IH]; intros s Hs.
  - destruct s; reflexivity.
  - destruct s as [|c s]; simpl in *; [reflexivity|].
    apply andb_true_iff in Hs as [Hc Hs]. rewrite Hc. now apply IH.
Qed.

(** C5.  The identifier that normalize assigns is the first 16 characters of
    the hexadecimal digest of ["<source>:<externalId>"]; under one hash, two
    raw items that agree on [source] and [externalId] get the same
    identifier, whatever their other fields, the target zone, the clock and
    the zone conversion are; with SHA-256 as the hash the identifier is 16
    hexadecimal digits. *)
Theorem normalize_id_pure :
  (forall (rt : Runtime) target item tick,
      id (fst (normalizeItem target item tick))
      = substring 0 16 (sha256_hex (source item ++ ":" ++ externalId item)))
  /\ (forall (rt1 rt2 : Runtime) target1 target2 a b tick1 tick2,
        @sha256_hex rt1 = @sha256_hex rt2 ->
        source a = source b -> externalId a = externalId b ->
        id (fst (normalizeItem (rt := rt1) target1 a tick1))
        = id (fst (normalizeItem (rt := rt2) target2 b tick2)))
  /\ (forall (rt : Runtime) items target filterCategories n,
        In n (normalize items target filterCategories) ->
        id n = substring 0 16 (sha256_hex (source n ++ ":" ++ externalId n)))
  /\ (forall (rt : Runtime) target item tick,
        @sha256_hex rt = Sha256.hex ->
        String.length (id (fst (normalizeItem target item tick))) = 16%nat
        /\ allHex (id (fst (normalizeItem target item tick))) = true).
Proof.
  split; [|split; [|split]].
  - reflexivity.
  - intros rt1 rt2 target1 target2 a b tick1 tick2 Hh Hs He.
    unfold normalizeItem. cbn [fst id].
    unfold itemId. now rewrite Hh, Hs, He.
  - intros rt items target fc n Hin.
    unfold normalize in Hin.
    apply Array_map_In in Hin as [item [tick [_ ->]]].
    reflexivity.
  - intros rt target item tick Hh. unfold normalizeItem. cbn [fst id].
    unfold itemId. rewrite Hh. unfold Sha256.hex. split.
    + apply substring_prefix_length. rewrite digest_length. lia.
    + apply substring_prefix_allHex, digest_allHex.
Qed.

(** The two fetches of one source item get one identifier, of 16 digits. *)
Lemma normalize_id_pure_witness :
  id (fst (normalizeItem (rt := exampleRuntime) "Europe/Paris" jazzA 0))
  = id (fst (normalizeItem (rt := laterRuntime) "Asia/Tokyo" jazzRefetched 3))
  /\ String.length
       (id (fst (normalizeItem (rt := exampleRuntime) "Europe/Paris" jazzA 0)))
     = 16%nat.
Proof.
  split.
  - apply (proj1 (proj2 normalize_id_pure)); reflexivity.
  - apply (proj2 (proj2 (proj2 normalize_id_pure))). reflexivity.
Defined.

Lemma passesCategoryFilter_survives filterCategories item :
  passesCategoryFilter filterCategories item = true <-> survives filterCategories item.
Proof.
  unfold passesCategoryFilter, survives.
  destruct filterCategories as [fc|].
  - destruct fc as [|c fc]; cbn [List.length Nat.eqb].
    + split; auto.
    + rewrite existsb_exists. split.
      * intros [cat [Hin Hinc]]. right. right. exists (c :: fc), cat.
        repeat split; [assumption|]. now apply includes_In.
      * intros [H | [H | [fc' [cat [[= <-] [Hin Hinc]]]]]]; try discriminate.
        exists cat. split; [assumption|]. now apply includes_In.
  - split; auto.
Qed.

Lemma normalize_unfiltered {rt : Runtime} items target :
  normalize items target None
  = fst (Js.Array_map (normalizeItem target) items 0%nat).
Proof.
  unfold normalize. f_equal. f_equal.
  induction items as [|x l IH]; simpl; [reflexivity|]. now rewrite IH.
Qed.

Lemma normalize_map {rt : Runtime} (A : Type) (g : NormalizedItem -> A)
  (h : ProviderItem -> A) items target filterCategories :
  (forall item tick, g (fst (normalizeItem target item tick)) = h item) ->
  map g (normalize items target filterCategories)
  = map h (filter (passesCategoryFilter filterCategories) items).
Proof. intros H. unfold normalize. now apply Array_map_map. Qed.

(** C6, as amended.  An item survives the category filter of normalize if and
    only if no filter is specified, or the filter set is empty, or one of the
    item's category tags is in the filter set; the survivors are normalized
    in input order, one after the other; the identifiers of the filtered
    output are among those of the unfiltered output, in the same order; and
    so are the items themselves, where no date of last update is missing or
    the clock gives one date at all its readings (an item without a date of
    last update gets the date of the clock, read anew for every item). *)
Theorem normalize_category_filter :
  forall (rt : Runtime) items target filterCategories,
    (exists kept,
        Subseq kept items
        /\ (forall item, In item kept <-> In item items /\ survives filterCategories item)
        /\ normalize items target filterCategories
           = fst (Js.Array_map (normalizeItem target) kept 0%nat))
    /\ Subseq (map id (normalize items target filterCategories))
              (map id (normalize items target None))
    /\ (Forall (fun item => Js.truthy_str (lastUpdated item) = true) items
        \/ (forall k, now_iso k = now_iso 0%nat) ->
        Subseq (normalize items target filterCategories)
               (normalize items target None))
    /\ incl (map id (normalize items target filterCategories))
            (map id (normalize items target None)).
Proof.
  intros rt items target fc.
  assert (Hids : Subseq (map id (normalize items target fc))
                        (map id (normalize items target None))).
  { rewrite !(normalize_map _ id itemId) by reflexivity.
    apply Subseq_map.
    replace (filter (passesCategoryFilter None) items) with items.
    - apply Subseq_filter.
    - clear. induction items as [|x l IH]; simpl; [reflexivity|].
      now rewrite <- IH. }
  split; [|split; [|split]].
  - exists (filter (passesCategoryFilter fc) items). split; [|split].
    + apply Subseq_filter.
    + intros item. rewrite filter_In, passesCategoryFilter_survives. reflexivity.
    + reflexivity.
  - exact Hids.
  - intros Hclock.
    assert (Hfix : forall item tick,
               In item items ->
               fst (normalizeItem target item tick)
               = fst (normalizeItem target item 0%nat)).
    { intros item tick Hin. unfold normalizeItem. cbn [fst].
      destruct Hclock as [Hall|Hstands].
      - rewrite Forall_forall in Hall. now rewrite (Hall item Hin).
      - now rewrite (Hstands tick). }
    assert (Hmap : forall l state,
               incl l items ->
               fst (Js.Array_map (normalizeItem target) l state)
               = map (fun item => fst (normalizeItem target item 0%nat)) l).
    { clear -Hfix. induction l as [|x l IH]; intros state Hl; [reflexivity|].
      rewrite Array_map_cons. cbn [fst map].
      rewrite Hfix by (apply Hl; now left).
      rewrite IH; [reflexivity|].
      intros y Hy. apply Hl. now right. }
    rewrite normalize_unfiltered. unfold normalize.
    rewrite !Hmap; [| intros y Hy; exact Hy
                    | intros y Hy; now apply filter_In in Hy].
    apply Subseq_map, Subseq_filter.
  - clear -Hids. intros i Hi.
    induction Hids as [|x kept l Hs IH|x kept l Hs IH]; simpl in *.
    + exact Hi.
    + right. now apply IH.
    + destruct Hi as [Hi|Hi]; [now left | right; now apply IH].
Qed.

(** C6 as stated fails on the empty filter set: the filter is specified, no
    tag of the item is in it, and yet the item survives. *)
Lemma empty_filter_keeps_items :
  passesCategoryFilter (Some []) untimedEvent = true
  /\ ~ survivesAsStated (Some []) untimedEvent.
Proof.
  split; [reflexivity|].
  intros [H | [fc [cat [[= <-] [_ Hin]]]]]; [discriminate | exact Hin].
Qed.

(** The condition on the clock is needed for the items themselves.  The
    tour gets the date of the first reading when the filter lets it through
    alone, and the date of the second reading when the event is normalized
    before it: the filtered output is not made of items of the unfiltered
    output. *)
Lemma normalize_filter_reads_clock :
  map (fun n : NormalizedItem => (externalId n, lastUpdated n))
    (normalize (rt := tickingRuntime) [untimedEvent; untimedTour] "UTC"
       (Some [tour]))
  = [("t-1", Some "2025-06-10T10:00:00.000Z")]
  /\ map (fun n : NormalizedItem => (externalId n, lastUpdated n))
       (normalize (rt := tickingRuntime) [untimedEvent; untimedTour] "UTC" None)
     = [("e-1", Some "2025-06-10T10:00:00.000Z");
        ("t-1", Some "2025-06-10T10:00:00.001Z")]
  /\ ~ Subseq
        (normalize (rt := tickingRuntime) [untimedEvent; untimedTour] "UTC"
           (Some [tour]))
        (normalize (rt := tickingRuntime) [untimedEvent; untimedTour] "UTC"
           None).
Proof.
  split; [reflexivity | split; [reflexivity|]].
  intros H.
  apply (Subseq_map (fun n : NormalizedItem => (externalId n, lastUpdated n)))
    in H.
  change (Subseq [("t-1", Some "2025-06-10T10:00:00.000Z")]
            [("e-1", Some "2025-06-10T10:00:00.000Z");
             ("t-1", Some "2025-06-10T10:00:00.001Z")]) in H.
  inversion H as [|x kept l H1|x kept l H1]; subst.
  inversion H1 as [|x kept l H2|x kept l H2]; subst.
  inversion H2.
Qed.

(** *** filterByDateRange *)

Section DateRange.

Context {rt : Runtime}.


Lemma inDateRange_retainedFor startISO endISO item :
  inDateRange (Date_getTime startISO) (Date_getTime endISO) item = true
  <-> retainedFor startISO endISO item.
Proof.
  unfold inDateRange, retainedFor, intervalEnd.
  destruct (Js.truthy_str (startTime item)) eqn:Hstart; cbn [negb andb].
  - apply truthy_str_present in Hstart.
    destruct (Js.truthy_str (endTime item)) eqn:Hend.
    + apply truthy_str_present in Hend. rewrite andb_true_iff. split.
      * intros [H1 H2]. right. split; [assumption|]. split; [assumption|].
        eexists. split; [left; split; [assumption|reflexivity] | assumption].
      * intros [[Hno _] | [_ [H1 [t [[[_ ->] | [Hno _]] H2]]]]];
          [contradiction | now split | contradiction].
    + apply truthy_str_absent in Hend. rewrite andb_true_iff. split.
      * intros [H1 H2]. right. split; [assumption|]. split; [assumption|].
        eexists. split; [right; split; [assumption|reflexivity] | assumption].
      * intros [[Hno _] | [_ [H1 [t [[[Hyes _] | [_ ->]] H2]]]]];
          [contradiction | contradiction | now split].
  - apply truthy_str_absent in Hstart.
    destruct (includes (category item) attraction) eqn:Hcat.
    + apply includes_In in Hcat. split; [|reflexivity].
      intros _. left. now split.
    + split; [discriminate|].
      intros [[_ Hin] | [Hyes _]]; [|contradiction].
      apply includes_In in Hin. congruence.
Qed.

(** C3.  filterByDateRange retains an item if and only if it has no start
    time and is tagged as an attraction, or it has a start time, starts no
    later than the window ends and ends (at its start, when it has no end
    time) no earlier than the window starts.  The event of 2025-06-10 10:00
    is retained for the window of that day and excluded for the window of the
    next day; an untimed attraction is retained under every window. *)
Theorem filterByDateRange_spec :
  (forall items startISO endISO item,
      In item (filterByDateRange items startISO endISO)
      <-> In item items /\ retainedFor startISO endISO item)
  /\ (forall item : NormalizedItem,
        startTime item = Some "2025-06-10T10:00:00Z" ->
        endTime item = None ->
        category item = [event] ->
        Date_getTime "2025-06-10T10:00:00Z" = 1749549600000%float ->
        Date_getTime "2025-06-10T00:00:00Z" = 1749513600000%float ->
        Date_getTime "2025-06-10T23:59:59Z" = 1749599999000%float ->
        Date_getTime "2025-06-11T00:00:00Z" = 1749600000000%float ->
        Date_getTime "2025-06-12T00:00:00Z" = 1749686400000%float ->
        filterByDateRange [item] "2025-06-10T00:00:00Z" "2025-06-10T23:59:59Z"
          = [item]
        /\ filterByDateRange [item] "2025-06-11T00:00:00Z" "2025-06-12T00:00:00Z"
          = [])
  /\ (forall (item : NormalizedItem) startISO endISO,
        startTime item = None ->
        category item = [attraction] ->
        filterByDateRange [item] startISO endISO = [item]).
Proof.
  split; [|split].
  - intros items startISO endISO item. unfold filterByDateRange.
    rewrite filter_In, inDateRange_retainedFor. reflexivity.
  - intros item Hs He Hc T0 T1 T2 T3 T4.
    unfold filterByDateRange, inDateRange. cbn [filter].
    rewrite Hs, He, Hc. cbn [Js.truthy_str time_of].
    rewrite T0, T1, T2, T3, T4. split; reflexivity.
  - intros item startISO endISO Hs Hc.
    unfold filterByDateRange, inDateRange. cbn [filter].
    rewrite Hs, Hc. reflexivity.
Qed.

End DateRange.

(** The examples of C3, run with the reader of UTC date-time strings. *)
Lemma filterByDateRange_spec_witness :
  (filterByDateRange (rt := exampleRuntime)
     [happening (Some "2025-06-10T10:00:00Z") None [event]]
     "2025-06-10T00:00:00Z" "2025-06-10T23:59:59Z"
   = [happening (Some "2025-06-10T10:00:00Z") None [event]]
   /\ filterByDateRange (rt := exampleRuntime)
        [happening (Some "2025-06-10T10:00:00Z") None [event]]
        "2025-06-11T00:00:00Z" "2025-06-12T00:00:00Z"
      = [])
  /\ filterByDateRange (rt := exampleRuntime) [happening None None [attraction]]
       "2025-06-11T00:00:00Z" "2025-06-12T00:00:00Z"
     = [happening None None [attraction]].
Proof.
  split.
  - apply (proj1 (proj2 (filterByDateRange_spec (rt := exampleRuntime))));
      vm_compute; reflexivity.
  - apply (proj2 (proj2 (filterByDateRange_spec (rt := exampleRuntime))));
      reflexivity.
Defined.

(** *** rank: the scores *)

Section Scores.

Context {rt : Runtime}.


(** C7, evaluated.  Under 'closest' with a center, an item whose latitude and
    longitude are both non-zero numbers is scored [1 / (1 + d)], [d] the
    haversine distance from the center; an item without a latitude or without
    a longitude is scored 0; and so is an item on the equator or on the prime
    meridian, whose coordinate 0 is taken for a missing one.  The clock is
    not read. *)
Theorem closest_scores :
  (forall c (item : NormalizedItem) x y tick,
      lat item = Some x -> lng item = Some y ->
      Js.truthy x = true -> Js.truthy y = true ->
      itemScore (Some c) closest item tick
      = ((1 / (1 + getDistance (fst c) (snd c) x y))%float, tick))
  /\ (forall c (item : NormalizedItem) tick,
        lat item = None \/ lng item = None ->
        itemScore (Some c) closest item tick = (0%float, tick))
  /\ (forall c (item : NormalizedItem) tick,
        lat item = Some 0%float \/ lng item = Some 0%float ->
        itemScore (Some c) closest item tick = (0%float, tick)).
Proof.
  unfold itemScore, closestScore.
  cbn [SortBy_eqb]. split; [|split].
  - intros c item x y tick Hx Hy Tx Ty. rewrite Hx, Hy. cbn [Js.truthy_num num].
    rewrite Tx, Ty. reflexivity.
  - intros c item tick [H|H]; rewrite H; cbn [Js.truthy_num andb];
      [reflexivity | now rewrite andb_false_r].
  - intros c item tick [H|H]; rewrite H; cbn [Js.truthy_num];
      change (Js.truthy 0) with false;
      [reflexivity | now rewrite andb_false_r].
Qed.

(** C8, evaluated.  Under 'soonest' an item with a start time is scored
    [1 / (1 + timeUntil)], the time until its start being counted from a
    reading of the clock that is made for it, and an item without one is
    scored 0, the clock not being read; an item that started an hour before
    the clock is read for it is scored below an item that starts an hour
    after the clock is read for it, and is ranked after it. *)
Theorem soonest_scores :
  (forall (item : NormalizedItem) tick,
      present (startTime item) ->
      itemScore (center noParams) soonest item tick
      = ((1 / (1 + (time_of (startTime item) - Date_now tick)))%float, S tick))
  /\ (forall (item : NormalizedItem) tick,
        ~ present (startTime item) ->
        itemScore (center noParams) soonest item tick = (0%float, tick))
  /\ (forall (a b : NormalizedItem) sa sb,
        startTime a = Some sa -> startTime b = Some sb ->
        sa <> EmptyString -> sb <> EmptyString ->
        (Date_getTime sa - Date_now 0 = -3600000)%float ->
        (Date_getTime sb - Date_now 1 = 3600000)%float ->
        (fst (soonestScore a 0) <? fst (soonestScore b 1))%float = true
        /\ rank [a; b] {| center := None; sortBy := Some soonest |}
           = [with_score b (fst (soonestScore b 1));
              with_score a (fst (soonestScore a 0))]).
Proof.
  unfold itemScore, soonestScore.
  cbn [SortBy_eqb]. split; [|split].
  - intros item tick Hp. apply truthy_str_present in Hp. now rewrite Hp.
  - intros item tick Hp. apply truthy_str_absent in Hp. now rewrite Hp.
  - intros a b sa sb Ha Hb Hsa Hsb Ta Tb.
    assert (Pa : Js.truthy_str (startTime a) = true).
    { apply truthy_str_present. exists sa. now split. }
    assert (Pb : Js.truthy_str (startTime b) = true).
    { apply truthy_str_present. exists sb. now split. }
    unfold rank, scoreItem, itemScore, soonestScore.
    cbn [center sortBy SortBy_eqb Js.Array_map].
    rewrite Pa, Pb, Ha, Hb. cbn [time_of fst snd]. rewrite Ta, Tb.
    split; reflexivity.
Qed.

End Scores.

(** The item on the equator, seen from the center (1, 10), 111 km away. *)
Lemma closest_scores_witness :
  itemScore (rt := exampleRuntime) (Some (1, 10)%float) closest
    (happeningAt (Some 0%float) (Some 10%float)) 0
  = (0%float, 0%nat).
Proof.
  apply (proj2 (proj2 (closest_scores (rt := exampleRuntime)))).
  left. reflexivity.
Defined.

(** At 10:00 of 2025-06-10, the event of 09:00 is scored below the event of
    11:00. *)
Lemma soonest_scores_witness :
  (fst (soonestScore (rt := exampleRuntime)
          (happening (Some "2025-06-10T09:00:00Z") None [event]) 0)
   <? fst (soonestScore (rt := exampleRuntime)
             (happening (Some "2025-06-10T11:00:00Z") None [event]) 1))%float
  = true.
Proof.
  apply (proj2 (proj2 (soonest_scores (rt := exampleRuntime)))
           (happening (Some "2025-06-10T09:00:00Z") None [event])
           (happening (Some "2025-06-10T11:00:00Z") None [event])
           "2025-06-10T09:00:00Z" "2025-06-10T11:00:00Z");
    try reflexivity; discriminate.
Defined.

(** *** dedupe *)

Section Dedupe.

Context {rt : Runtime}.


Lemma timeSimilar_timeProximate a b :
  timeSimilar a b = true <-> timeProximate a b.
Proof.
  unfold timeSimilar, timeProximate.
  change (30 * 60 * 1000)%float with 1800000%float.
  rewrite <- !truthy_str_present.
  destruct (Js.truthy_str (startTime a)), (Js.truthy_str (startTime b));
    cbn [andb]; split; try discriminate; try tauto.
  all: intros [Ha [Hb _]]; discriminate.
Qed.

Lemma truthy_num_offAxes (o : option float) :
  (forall x, o = Some x -> Js.truthy x = true) ->
  Js.truthy_num o = true <-> exists x, o = Some x.
Proof.
  intros H. destruct o as [x|]; simpl.
  - rewrite (H x eq_refl). split; eauto.
  - split; [discriminate | intros [x Hx]; discriminate].
Qed.

Lemma locationSimilar_locationProximate a b :
  offAxes a -> offAxes b ->
  locationSimilar a b = true <-> locationProximate a b.
Proof.
  intros [Hla Hga] [Hlb Hgb]. unfold locationSimilar, locationProximate.
  pose proof (truthy_num_offAxes _ Hla) as Ela.
  pose proof (truthy_num_offAxes _ Hga) as Ega.
  pose proof (truthy_num_offAxes _ Hlb) as Elb.
  pose proof (truthy_num_offAxes _ Hgb) as Egb.
  split.
  - destruct (Js.truthy_num (lat a)); [|discriminate].
    destruct (Js.truthy_num (lng a)); [|discriminate].
    destruct (Js.truthy_num (lat b)); [|discriminate].
    destruct (Js.truthy_num (lng b)); [|discriminate].
    cbn [andb]. intros Hd.
    destruct (proj1 Ela eq_refl) as [xa Hxa].
    destruct (proj1 Ega eq_refl) as [ya Hya].
    destruct (proj1 Elb eq_refl) as [xb Hxb].
    destruct (proj1 Egb eq_refl) as [yb Hyb].
    exists xa, ya, xb, yb. rewrite Hxa, Hya, Hxb, Hyb in Hd. now repeat split.
  - intros [xa [ya [xb [yb [Hxa [Hya [Hxb [Hyb Hd]]]]]]]].
    rewrite (proj2 Ela), (proj2 Ega), (proj2 Elb), (proj2 Egb) by eauto.
    cbn [andb]. rewrite Hxa, Hya, Hxb, Hyb. exact Hd.
Qed.

Lemma isDuplicateOf_duplicates a b :
  offAxes a -> offAxes b ->
  isDuplicateOf a b = true <-> duplicates a b.
Proof.
  intros Ha Hb. unfold isDuplicateOf, duplicates, titleSimilarity.
  rewrite orb_true_iff, !andb_true_iff.
  rewrite (locationSimilar_locationProximate a b Ha Hb).
  rewrite timeSimilar_timeProximate. tauto.
Qed.

Lemma truthy_num_popular (item : NormalizedItem) :
  Js.truthy_num (popularity item) = true <-> exists p, popular item p.
Proof.
  unfold popular. destruct (popularity item) as [p|]; simpl.
  - split; [eauto | now intros [q [[= <-] Hq]]].
  - split; [discriminate | now intros [q [Hq _]]].
Qed.

Lemma hasMoreInformation_improves item rep :
  hasMoreInformation item rep = true <-> improves item rep.
Proof.
  unfold hasMoreInformation, improves.
  rewrite !orb_true_iff, !andb_true_iff, !negb_true_iff.
  rewrite !truthy_str_absent, !truthy_str_present, orb_true_iff, negb_true_iff.
  rewrite or_assoc.
  apply or_iff_compat_l, or_iff_compat_l. split.
  - intros [Hp Hq]. apply truthy_num_popular in Hp as [p Hp].
    exists p. split; [assumption|]. destruct Hq as [Hq|Hq].
    + left. intros q Hpq.
      assert (Js.truthy_num (popularity rep) = true)
        by (apply truthy_num_popular; eauto).
      congruence.
    + destruct Hp as [Hp _]. rewrite Hp in Hq. cbn [num] in Hq.
      destruct (popularity rep) as [q|] eqn:Hr.
      * right. exists q. now split.
      * left. intros q [Hc _]. congruence.
  - intros [p [Hp Hq]]. split; [apply truthy_num_popular; eauto|].
    destruct Hq as [Hq|[q [Hr Hlt]]].
    + left. destruct (Js.truthy_num (popularity rep)) eqn:E; [|reflexivity].
      apply truthy_num_popular in E as [q E]. now destruct (Hq q).
    + right. destruct Hp as [Hp _]. now rewrite Hp, Hr.
Qed.

Lemma offAxes_with_id item i : offAxes item -> offAxes (with_id item i).
Proof. intros H. exact H. Qed.

(** The inner loop against the vocabulary of the specification. *)
Lemma scanUnique_merged item kept :
  offAxes item -> Forall offAxes kept ->
  merged duplicates improves item kept (dedupeStep kept item)
  /\ Forall offAxes (dedupeStep kept item).
Proof.
  intros Hitem Hkept. unfold dedupeStep.
  assert (Hscan :
    match scanUnique item kept with
    | Some updated =>
        Forall offAxes updated /\
        exists before rep after,
          kept = before ++ rep :: after
          /\ (forall r, In r before -> ~ duplicates item r)
          /\ duplicates item rep
          /\ ((improves item rep
               /\ updated = before ++ with_id item (id rep) :: after)
              \/ (~ improves item rep /\ updated = kept))
    | None => forall rep, In rep kept -> ~ duplicates item rep
    end).
  { induction Hkept as [|u rest Hu Hrest IH]; cbn [scanUnique].
    - intros rep [].
    - destruct (isDuplicateOf item u) eqn:Hdup.
      + apply (isDuplicateOf_duplicates item u Hitem Hu) in Hdup.
        destruct (hasMoreInformation item u) eqn:Hmore.
        * apply hasMoreInformation_improves in Hmore. split.
          -- constructor; [now apply offAxes_with_id | assumption].
          -- exists [], u, rest. cbn [app]. repeat split; auto.
        * split; [now constructor|].
          exists [], u, rest. cbn [app]. repeat split; auto.
          right. split; [|reflexivity].
          intros Himp. apply hasMoreInformation_improves in Himp. congruence.
      + assert (Hnd : ~ duplicates item u).
        { intros Hd. apply (isDuplicateOf_duplicates item u Hitem Hu) in Hd.
          congruence. }
        destruct (scanUnique item rest) as [updated|]; cbn [option_map].
        * destruct IH as [Hf [before [rep [after [-> [Hb [Hd Hcase]]]]]]].
          split; [now constructor|].
          exists (u :: before), rep, after. cbn [app]. repeat split; auto.
          -- intros r [<-|Hr]; auto.
          -- destruct Hcase as [[Hi ->]|[Hi ->]]; [left|right]; now split.
        * intros rep [<-|Hr]; auto. }
  destruct (scanUnique item kept) as [updated|].
  - destruct Hscan as [Hf [before [rep [after [-> [Hb [Hd Hcase]]]]]]].
    split; [|assumption].
    destruct Hcase as [[Hi ->]|[Hi ->]]; now constructor.
  - split; [now constructor|].
    apply Forall_app. split; [assumption | now constructor].
Qed.

Lemma dedupe_scanned items : forall kept,
  Forall offAxes kept -> Forall offAxes items ->
  scanned duplicates improves kept items (fold_left dedupeStep items kept).
Proof.
  induction items as [|item items IH]; intros kept Hkept Hitems; cbn [fold_left].
  - constructor.
  - inversion Hitems as [|? ? Hitem Hrest]; subst.
    destruct (scanUnique_merged item kept Hitem Hkept) as [Hm Hf].
    econstructor; [exact Hm | now apply IH].
Qed.

(** C1, as amended.  On items whose coordinates are not 0, dedupe is the
    linear scan over the kept representatives with the merge rule of the
    specification, the first match winning; on a match the incoming item
    takes the representative's place and identifier exactly when the
    representative lacks a description that the item has, or lacks an image
    that the item has, or the item has a popularity other than 0 and the
    representative has none (or 0) or a smaller one.  The two items of the
    merge example are merged into one, with the identifier of the first and
    the description of the second. *)
Theorem dedupe_spec :
  (forall items,
      Forall offAxes items ->
      scanned duplicates improves [] items (dedupe items))
  /\ (forall (A B : NormalizedItem) sA sB,
        normalizedTitle A = normalizeTitle "Jazz Night" ->
        normalizedTitle B = normalizeTitle "jazz night!!" ->
        startTime A = Some sA -> startTime B = Some sB ->
        sA <> EmptyString -> sB <> EmptyString ->
        (Date_getTime sB - Date_getTime sA = 600000)%float ->
        description A = None -> description B = Some "live music" ->
        dedupe [A; B] = [with_id B (id A)]
        /\ id (with_id B (id A)) = id A
        /\ description (with_id B (id A)) = Some "live music").
Proof.
  split.
  - intros items Hitems. apply dedupe_scanned; [constructor | assumption].
  - intros A B sA sB HtA HtB HsA HsB HnA HnB Hdt HdA HdB.
    split; [|split; [reflexivity | exact HdB]].
    unfold dedupe. cbn [fold_left].
    unfold dedupeStep at 2. cbn [scanUnique app].
    unfold dedupeStep. cbn [scanUnique].
    assert (Hdup : isDuplicateOf B A = true).
    { unfold isDuplicateOf, titleSimilarity, timeSimilar.
      rewrite HtA, HtB, HsA, HsB. cbn [Js.truthy_str time_of].
      apply String.eqb_neq in HnA, HnB. rewrite HnA, HnB. cbn [negb andb].
      rewrite Hdt. reflexivity. }
    rewrite Hdup.
    assert (Hmore : hasMoreInformation B A = true).
    { unfold hasMoreInformation. rewrite HdA, HdB. reflexivity. }
    rewrite Hmore. reflexivity.
Qed.

End Dedupe.

(** The merge example of section 8, run from the raw items on. *)
Lemma dedupe_spec_witness :
  scanned (duplicates (rt := exampleRuntime)) improves []
    [normalizedJazzA; normalizedJazzB]
    (dedupe (rt := exampleRuntime) [normalizedJazzA; normalizedJazzB])
  /\ dedupe (rt := exampleRuntime) [normalizedJazzA; normalizedJazzB]
     = [with_id normalizedJazzB (id normalizedJazzA)].
Proof.
  split.
  - apply (proj1 (dedupe_spec (rt := exampleRuntime))).
    repeat constructor; intros x [= <-]; reflexivity.
  - apply (proj2 (dedupe_spec (rt := exampleRuntime))
             normalizedJazzA normalizedJazzB
             "2025-06-10T20:00:00Z" "2025-06-10T20:10:00Z");
      try reflexivity; discriminate.
Defined.

(** C1 as stated fails where the incoming duplicate has the popularity 0 and
    the representative has none: the policy as stated replaces the
    representative, the code keeps it. *)
Lemma dedupe_keeps_representative_on_zero_popularity :
  isDuplicateOf (rt := exampleRuntime) galaIncoming galaKept = true
  /\ improvesAsStated galaIncoming galaKept
  /\ dedupe (rt := exampleRuntime) [galaKept; galaIncoming] = [galaKept]
  /\ [galaKept] <> [with_id galaIncoming (id galaKept)].
Proof.
  split; [vm_compute; reflexivity | split; [|split]].
  - right. right. exists 0%float. split; [reflexivity | left; reflexivity].
  - vm_compute; reflexivity.
  - discriminate.
Qed.

(** *** The order of the doubles *)

Module F64Facts.

Import F64.

Open Scope Z_scope.

Lemma SFcompare_place (x y : spec_float) :
  x <> S754_nan -> y <> S754_nan ->
  exists c, SFcompare x y = Some c
    /\ (c = Lt <-> before (place x) (place y))
    /\ (c = Eq <-> level (place x) (place y)).
Proof.
  intros Hx Hy.
  destruct x as [sx|sx| |sx mx ex]; try congruence;
  destruct y as [sy|sy| |sy my ey]; try congruence;
  cbn [SFcompare place before level].
  all: try (destruct sx); try (destruct sy); cbn [before level].
  all: try change (Pos.compare_cont Eq mx my) with (Pos.compare mx my).
  all: try (destruct (Z.compare_spec ex ey); destruct (Pos.compare_spec mx my);
            cbn [CompOpp]).
  all: eexists; (split; [reflexivity|]); split; split; intros;
    try reflexivity; try discriminate; try lia.
Qed.


Lemma digits2_pos_bounds (m : positive) :
  2 ^ (Zpos (digits2_pos m) - 1) <= Zpos m < 2 ^ Zpos (digits2_pos m).
Proof.
  induction m as [p IH|p IH|]; cbn [digits2_pos].
  - rewrite Pos2Z.inj_succ.
    replace (Z.succ (Zpos (digits2_pos p)) - 1) with (Z.succ (Zpos (digits2_pos p) - 1)) by lia.
    rewrite !Z.pow_succ_r by lia. lia.
  - rewrite Pos2Z.inj_succ.
    replace (Z.succ (Zpos (digits2_pos p)) - 1) with (Z.succ (Zpos (digits2_pos p) - 1)) by lia.
    rewrite !Z.pow_succ_r by lia. lia.
  - cbn. lia.
Qed.

Lemma shr_1_half (mrs : shr_record) :
  0 <= shr_m mrs -> shr_m (shr_1 mrs) = shr_m mrs / 2.
Proof.
  destruct mrs as [m r t]. cbn [shr_m]. intros Hm.
  rewrite <- Z.div2_div. unfold shr_1.
  destruct m as [|[p|p|]|p]; try reflexivity. lia.
Qed.

Lemma iter_shr_1 (p : positive) : forall mrs,
  0 <= shr_m mrs ->
  shr_m (iter_pos shr_1 p mrs) = shr_m mrs / 2 ^ Zpos p.
Proof.
  induction p as [p IH|p IH|]; intros mrs Hm; cbn [iter_pos].
  - assert (H2 : 0 <= shr_m (shr_1 mrs)).
    { rewrite shr_1_half by assumption. apply Z.div_pos; lia. }
    assert (Hp : 0 < 2 ^ Zpos p) by (apply Z.pow_pos_nonneg; lia).
    rewrite IH.
    + rewrite IH by assumption. rewrite shr_1_half by assumption.
      rewrite !Z.div_div by lia.
      f_equal. rewrite <- Z.pow_add_r by lia.
      rewrite <- (Z.pow_1_r 2) at 1. rewrite <- Z.pow_add_r by lia.
      f_equal. lia.
    + rewrite IH by assumption. apply Z.div_pos; lia.
  - assert (Hp : 0 < 2 ^ Zpos p) by (apply Z.pow_pos_nonneg; lia).
    rewrite IH.
    + rewrite IH by assumption. rewrite Z.div_div by lia.
      f_equal. rewrite <- Z.pow_add_r by lia. f_equal. lia.
    + rewrite IH by assumption. apply Z.div_pos; lia.
  - rewrite shr_1_half by assumption. reflexivity.
Qed.

Lemma shr_m_record_of_loc m l : shr_m (shr_record_of_loc m l) = m.
Proof. destruct l as [|[| |]]; reflexivity. Qed.

(** Rounding a positive mantissa at an exponent not below [emin] does not
    lose it. *)
Lemma shr_fexp_pos (m e : Z) (l : location) :
  0 < m -> -1074 <= e ->
  0 < shr_m (fst (shr_fexp prec emax m e l))
  /\ -1074 <= snd (shr_fexp prec emax m e l).
Proof.
  intros Hm He. unfold shr_fexp, shr.
  destruct m as [|q|q]; try lia. cbn [Zdigits2].
  pose proof (digits2_pos_bounds q) as [Hlo _].
  set (d := Zpos (digits2_pos q)) in *.
  destruct (fexp prec emax (d + e) - e) as [|p|p] eqn:Hn; cbn [fst snd].
  - rewrite shr_m_record_of_loc. lia.
  - rewrite iter_shr_1 by (rewrite shr_m_record_of_loc; lia).
    rewrite shr_m_record_of_loc.
    unfold fexp, SpecFloat.emin, prec, emax in Hn.
    assert (Hp : Zpos p = d - 53) by lia.
    split; [|lia].
    apply Z.div_str_pos. split; [apply Z.pow_pos_nonneg; lia|].
    apply Z.le_trans with (2 ^ (d - 1)); [|assumption].
    apply Z.pow_le_mono_r; lia.
  - rewrite shr_m_record_of_loc. lia.
Qed.

Lemma round_nearest_even_pos m l : 0 < m -> 0 < round_nearest_even m l.
Proof.
  intros Hm. unfold round_nearest_even.
  destruct l as [|[| |]]; try lia. destruct (Z.even m); lia.
Qed.

Lemma binary_round_aux_sign (s : bool) (m e : Z) (l : location) :
  0 < m -> -1074 <= e ->
  (exists p e', binary_round_aux prec emax s m e l = S754_finite s p e')
  \/ binary_round_aux prec emax s m e l = S754_infinity s.
Proof.
  intros Hm He. unfold binary_round_aux.
  pose proof (shr_fexp_pos m e l Hm He) as [H1 H2].
  destruct (shr_fexp prec emax m e l) as [mrs' e']. cbn [fst snd] in H1, H2.
  pose proof (round_nearest_even_pos _ (loc_of_shr_record mrs') H1) as H3.
  pose proof (shr_fexp_pos _ e' loc_Exact H3 H2) as [H4 _].
  destruct (shr_fexp prec emax _ e' loc_Exact) as [mrs'' e'']. cbn [fst] in H4.
  destruct (shr_m mrs'') as [|p|p]; try lia.
  destruct (e'' <=? emax - prec); eauto.
Qed.

Lemma iter_xO_pow2 (m d : positive) :
  Zpos (Pos.iter xO m d) = Zpos m * 2 ^ Zpos d.
Proof.
  induction d as [|d IH] using Pos.peano_ind.
  - cbn. lia.
  - rewrite Pos.iter_succ, Pos2Z.inj_xO, IH, Pos2Z.inj_succ, Z.pow_succ_r by lia.
    lia.
Qed.

Lemma shl_align_value (m : positive) (e ez : Z) :
  ez <= e ->
  Zpos (fst (shl_align m e ez)) = Zpos m * 2 ^ (e - ez)
  /\ snd (shl_align m e ez) = ez.
Proof.
  intros Hle. unfold shl_align.
  destruct (ez - e) as [|d|d] eqn:Hd; cbn [fst snd]; try lia.
  - replace (e - ez) with 0 by lia. cbn. lia.
  - rewrite iter_xO_pow2. replace (e - ez) with (Zpos d) by lia. lia.
Qed.

Lemma binary_round_sign (s : bool) (m : positive) (e : Z) :
  -1074 <= e ->
  (exists p e', binary_round prec emax s m e = S754_finite s p e')
  \/ binary_round prec emax s m e = S754_infinity s.
Proof.
  intros He. unfold binary_round.
  destruct (shl_align m e (fexp prec emax (Zpos (digits2_pos m) + e)))
    as [mz ez] eqn:Hal.
  apply binary_round_aux_sign; [lia|].
  unfold shl_align in Hal.
  destruct (fexp prec emax (Zpos (digits2_pos m) + e) - e) eqn:Hd;
    inversion Hal; subst; try lia.
  unfold fexp, SpecFloat.emin, prec, emax. lia.
Qed.


Lemma bounded_canonical (m : positive) (e : Z) :
  bounded prec emax m e = true ->
  -1074 <= e /\ Zpos (digits2_pos m) <= 53
  /\ (-1074 < e -> Zpos (digits2_pos m) = 53).
Proof.
  unfold bounded, canonical_mantissa, fexp, SpecFloat.emin, prec, emax.
  intros H. apply andb_true_iff in H as [H _]. apply Z.eqb_eq in H. lia.
Qed.

(** Once aligned on the smaller exponent, the mantissas of two canonical
    numbers compare as the pairs (exponent, mantissa) do. *)
Lemma aligned_order (mx : positive) (ex : Z) (my : positive) (ey : Z) :
  bounded prec emax mx ex = true -> bounded prec emax my ey = true ->
  let X := Zpos (fst (shl_align mx ex (Z.min ex ey))) in
  let Y := Zpos (fst (shl_align my ey (Z.min ex ey))) in
  (X < Y <-> ex < ey \/ (ex = ey /\ Zpos mx < Zpos my))
  /\ (Y < X <-> ey < ex \/ (ex = ey /\ Zpos my < Zpos mx)).
Proof.
  intros Bx By X Y.
  apply bounded_canonical in Bx as [Hex [Hdx Hnx]].
  apply bounded_canonical in By as [Hey [Hdy Hny]].
  pose proof (digits2_pos_bounds mx) as [Hlx Hux].
  pose proof (digits2_pos_bounds my) as [Hly Huy].
  assert (HX : X = Zpos mx * 2 ^ (ex - Z.min ex ey))
    by (apply shl_align_value; lia).
  assert (HY : Y = Zpos my * 2 ^ (ey - Z.min ex ey))
    by (apply shl_align_value; lia).
  assert (H53 : 2 ^ 53 = 2 * 2 ^ 52) by reflexivity.
  destruct (Z.lt_trichotomy ex ey) as [Hlt|[Heq|Hgt]].
  - rewrite Z.min_l in HX, HY by lia. rewrite Z.sub_diag in HX.
    change (2 ^ 0) with 1 in HX.
    assert (Hp : 2 ^ 1 <= 2 ^ (ey - ex)) by (apply Z.pow_le_mono_r; lia).
    change (2 ^ 1) with 2 in Hp.
    rewrite (Hny ltac:(lia)) in Hly. change (2 ^ (53 - 1)) with (2 ^ 52) in Hly.
    assert (Hmx : Zpos mx < 2 ^ 53).
    { apply Z.lt_le_trans with (2 ^ Zpos (digits2_pos mx)); [assumption|].
      apply Z.pow_le_mono_r; lia. }
    assert (X < Y) by nia. split; split; intros; lia.
  - subst ey. rewrite Z.min_id, Z.sub_diag in HX, HY.
    change (2 ^ 0) with 1 in HX, HY. split; split; intros; lia.
  - rewrite Z.min_r in HX, HY by lia. rewrite Z.sub_diag in HY.
    change (2 ^ 0) with 1 in HY.
    assert (Hp : 2 ^ 1 <= 2 ^ (ex - ey)) by (apply Z.pow_le_mono_r; lia).
    change (2 ^ 1) with 2 in Hp.
    rewrite (Hnx ltac:(lia)) in Hlx. change (2 ^ (53 - 1)) with (2 ^ 52) in Hlx.
    assert (Hmy : Zpos my < 2 ^ 53).
    { apply Z.lt_le_trans with (2 ^ Zpos (digits2_pos my)); [assumption|].
      apply Z.pow_le_mono_r; lia. }
    assert (Y < X) by nia. split; split; intros; lia.
Qed.

Lemma binary_normalize_sign (M e : Z) :
  -1074 <= e ->
  SFltb (S754_zero false) (binary_normalize prec emax M e false) = (0 <? M).
Proof.
  intros He. destruct M as [|m|m]; cbn [binary_normalize].
  - reflexivity.
  - destruct (binary_round_sign false m e He) as [[p [e' ->]] | ->]; reflexivity.
  - destruct (binary_round_sign true m e He) as [[p [e' ->]] | ->]; reflexivity.
Qed.

(** The sign of a difference: [0 < y - x] exactly when [x < y]. *)
Lemma SFsub_sign (x y : spec_float) :
  valid_binary x = true -> valid_binary y = true ->
  x <> S754_nan -> y <> S754_nan ->
  SFltb (S754_zero false) (SFsub prec emax y x) = SFltb x y.
Proof.
  intros Vx Vy Nx Ny.
  destruct x as [sx|sx| |sx mx ex]; try congruence;
  destruct y as [sy|sy| |sy my ey]; try congruence.
  all: try (destruct sx; destruct sy; reflexivity).
  all: try (destruct sx; reflexivity).
  all: try (destruct sy; reflexivity).
  cbn [valid_binary SpecFloat.valid_binary] in Vx, Vy.
  cbn [SFsub]. 
  pose proof (aligned_order mx ex my ey Vx Vy) as Hal. cbn zeta in Hal.
  rewrite (Z.min_comm ey ex).
  pose proof (bounded_canonical _ _ Vx) as [Hex _].
  pose proof (bounded_canonical _ _ Vy) as [Hey _].
  rewrite binary_normalize_sign by lia.
  set (X := Zpos (fst (shl_align mx ex (Z.min ex ey)))) in *.
  set (Y := Zpos (fst (shl_align my ey (Z.min ex ey)))) in *.
  destruct Hal as [H1 H2].
  destruct (SFcompare_place (S754_finite sx mx ex) (S754_finite sy my ey))
    as [c [Hc [Hlt _]]]; try discriminate.
  unfold SFltb. rewrite Hc.
  assert (HX : 0 < X) by (unfold X; lia).
  assert (HY : 0 < Y) by (unfold Y; lia).
  apply eq_true_iff_eq. rewrite Z.ltb_lt.
  transitivity (c = Lt); [|destruct c; split; congruence].
  rewrite Hlt. unfold cond_Zopp.
  destruct sx, sy; cbn [place before]; lia.
Qed.



Lemma digits2_pos_iter_xO (m d : positive) :
  Zpos (digits2_pos (Pos.iter xO m d)) = Zpos (digits2_pos m) + Zpos d.
Proof.
  induction d as [|d IH] using Pos.peano_ind.
  - cbn [Pos.iter digits2_pos]. lia.
  - rewrite Pos.iter_succ. cbn [digits2_pos]. rewrite Pos2Z.inj_succ, IH. lia.
Qed.

(** Rounding a mantissa: the result is finite unless the value is out of
    range, and is off the value by at most one part in 2^52. *)
Lemma nearestEven_bounds (s g : Z) :
  s / 2 ^ g <= nearestEven s g <= s / 2 ^ g + 1.
Proof.
  unfold nearestEven.
  destruct (2 * (s mod 2 ^ g) <? 2 ^ g); [lia|].
  destruct (2 ^ g <? 2 * (s mod 2 ^ g)); [lia|].
  destruct (Z.even (s / 2 ^ g)); lia.
Qed.

Lemma nearestEven_mono (s1 s2 g : Z) :
  0 <= g -> s1 <= s2 -> nearestEven s1 g <= nearestEven s2 g.
Proof.
  intros Hg Hs.
  assert (HP : 0 < 2 ^ g) by (apply Z.pow_pos_nonneg; lia).
  pose proof (Z.div_le_mono s1 s2 (2 ^ g) HP Hs) as Hq.
  destruct (Z.eq_dec (s1 / 2 ^ g) (s2 / 2 ^ g)) as [E|N].
  - pose proof (Z.div_mod s1 (2 ^ g) ltac:(lia)) as D1.
    pose proof (Z.div_mod s2 (2 ^ g) ltac:(lia)) as D2.
    assert (Hr : s1 mod 2 ^ g <= s2 mod 2 ^ g) by (rewrite E in D1; lia).
    unfold nearestEven. rewrite E.
    destruct (Z.ltb_spec (2 * (s1 mod 2 ^ g)) (2 ^ g));
      destruct (Z.ltb_spec (2 * (s2 mod 2 ^ g)) (2 ^ g));
      destruct (Z.ltb_spec (2 ^ g) (2 * (s1 mod 2 ^ g)));
      destruct (Z.ltb_spec (2 ^ g) (2 * (s2 mod 2 ^ g)));
      destruct (Z.even (s2 / 2 ^ g)); lia.
  - pose proof (nearestEven_bounds s1 g). pose proof (nearestEven_bounds s2 g).
    lia.
Qed.

Lemma nearestEven_scale (m n w : Z) :
  0 <= n -> 0 <= w ->
  nearestEven (m * 2 ^ w) (n + w) = nearestEven m n.
Proof.
  intros Hn Hw. unfold nearestEven.
  assert (HW : 0 < 2 ^ w) by (apply Z.pow_pos_nonneg; lia).
  assert (HP : 0 < 2 ^ n) by (apply Z.pow_pos_nonneg; lia).
  rewrite Z.pow_add_r by lia.
  rewrite Z.div_mul_cancel_r by lia.
  rewrite Z.mul_mod_distr_r by lia.
  set (r := m mod 2 ^ n). set (P := 2 ^ n). set (W := 2 ^ w) in *.
  replace (2 * (r * W) <? P * W) with (2 * r <? P)
    by (destruct (Z.ltb_spec (2 * r) P), (Z.ltb_spec (2 * (r * W)) (P * W));
        try reflexivity; nia).
  replace (P * W <? 2 * (r * W)) with (P <? 2 * r)
    by (destruct (Z.ltb_spec P (2 * r)), (Z.ltb_spec (P * W) (2 * (r * W)));
        try reflexivity; nia).
  reflexivity.
Qed.

Lemma nearestEven_exact (m g : Z) :
  0 <= g -> nearestEven (m * 2 ^ g) g = m.
Proof.
  intros Hg. unfold nearestEven.
  assert (HP : 0 < 2 ^ g) by (apply Z.pow_pos_nonneg; lia).
  rewrite Z.div_mul, Z.mod_mul by lia.
  destruct (Z.ltb_spec (2 * 0) (2 ^ g)); [reflexivity | lia].
Qed.

Lemma roundsTo_mono (s1 s2 r1 r2 : Z) :
  0 < s1 -> s1 <= s2 -> roundsTo s1 r1 -> roundsTo s2 r2 -> r1 <= r2.
Proof.
  intros Hpos Hle [g1 [Hg1 [Hu1 [Hl1 ->]]]] [g2 [Hg2 [Hu2 [Hl2 ->]]]].
  assert (Hg : g1 <= g2).
  { destruct (Z.le_gt_cases g1 g2) as [|Hgt]; [assumption|exfalso].
    specialize (Hl1 ltac:(lia)).
    assert (2 ^ (53 + g2) <= 2 ^ (52 + g1)) by (apply Z.pow_le_mono_r; lia).
    lia. }
  assert (HP1 : 0 < 2 ^ g1) by (apply Z.pow_pos_nonneg; lia).
  assert (HP2 : 0 < 2 ^ g2) by (apply Z.pow_pos_nonneg; lia).
  destruct (Z.eq_dec g1 g2) as [<-|Hne].
  - apply Z.mul_le_mono_nonneg_r; [lia|]. now apply nearestEven_mono.
  - pose proof (nearestEven_bounds s1 g1) as [_ B1].
    pose proof (nearestEven_bounds s2 g2) as [B2 _].
    specialize (Hl2 ltac:(lia)).
    assert (Hq1 : s1 / 2 ^ g1 < 2 ^ 53).
    { apply Z.div_lt_upper_bound; [lia|].
      rewrite <- Z.pow_add_r by lia. now rewrite Z.add_comm. }
    assert (Hq2 : 2 ^ 52 <= s2 / 2 ^ g2).
    { apply Z.div_le_lower_bound; [lia|].
      rewrite <- Z.pow_add_r by lia. now rewrite Z.add_comm. }
    assert (H1 : nearestEven s1 g1 * 2 ^ g1 <= 2 ^ 53 * 2 ^ g1)
      by (apply Z.mul_le_mono_nonneg_r; lia).
    assert (H2 : 2 ^ 52 * 2 ^ g2 <= nearestEven s2 g2 * 2 ^ g2)
      by (apply Z.mul_le_mono_nonneg_r; lia).
    assert (H3 : 2 ^ 53 * 2 ^ g1 <= 2 ^ 52 * 2 ^ g2).
    { rewrite <- !Z.pow_add_r by lia. apply Z.pow_le_mono_r; lia. }
    lia.
Qed.

Lemma roundsTo_nonneg (s r : Z) : 0 <= s -> roundsTo s r -> 0 <= r.
Proof.
  intros Hs [g [Hg [_ [_ ->]]]].
  assert (HP : 0 < 2 ^ g) by (apply Z.pow_pos_nonneg; lia).
  pose proof (nearestEven_bounds s g) as [B _].
  pose proof (Z.div_pos s (2 ^ g) Hs HP). nia.
Qed.

Lemma iter_pos_nat {A : Type} (f : A -> A) (p : positive) : forall x,
  iter_pos f p x = Nat.iter (Pos.to_nat p) f x.
Proof.
  induction p as [p IH|p IH|]; intros x; cbn [iter_pos].
  - rewrite !IH. rewrite Pos2Nat.inj_xI.
    replace (S (2 * Pos.to_nat p)) with (Pos.to_nat p + (Pos.to_nat p + 1))%nat by lia.
    rewrite !Nat.iter_add. cbn [Nat.iter]. reflexivity.
  - rewrite !IH. rewrite Pos2Nat.inj_xO.
    replace (2 * Pos.to_nat p)%nat with (Pos.to_nat p + Pos.to_nat p)%nat by lia.
    rewrite Nat.iter_add. reflexivity.
  - reflexivity.
Qed.

Lemma shr_1_locates (n j : Z) (mrs : shr_record) :
  0 <= n -> 0 <= j -> locates n j mrs -> locates n (j + 1) (shr_1 mrs).
Proof.
  intros Hn Hj [Hm [Hr Hs]].
  assert (HP : 0 < 2 ^ j) by (apply Z.pow_pos_nonneg; lia).
  pose proof (Z.div_mod n (2 ^ j) ltac:(lia)) as Dn.
  pose proof (Z.mod_pos_bound n (2 ^ j) HP) as Bn.
  set (q := n / 2 ^ j) in *. set (r := n mod 2 ^ j) in *.
  assert (Hq0 : 0 <= q) by (apply Z.div_pos; lia).
  assert (Hpow : 2 ^ (j + 1) = 2 ^ j * 2)
    by (rewrite Z.pow_add_r by lia; reflexivity).
  unfold locates. rewrite Hpow.
  pose proof (Z.div_mod q 2 ltac:(lia)) as Dq.
  pose proof (Z.mod_pos_bound q 2 ltac:(lia)) as Bq.
  assert (Hdiv : n / (2 ^ j * 2) = q / 2).
  { symmetry. apply (Z.div_unique n (2 ^ j * 2) (q / 2) (q mod 2 * 2 ^ j + r)); nia. }
  assert (Hmod : n mod (2 ^ j * 2) = q mod 2 * 2 ^ j + r).
  { symmetry. apply (Z.mod_unique n (2 ^ j * 2) (q / 2) (q mod 2 * 2 ^ j + r)); nia. }
  rewrite Hdiv, Hmod.
  assert (Hrs : orb (shr_r mrs) (shr_s mrs) = true <-> r <> 0).
  { rewrite orb_true_iff, Hr, Hs. lia. }
  destruct mrs as [m rb sb]. cbn [shr_m shr_r shr_s] in *. subst m.
  unfold shr_1.
  destruct q as [|[p|p|]|p]; cbn [shr_m shr_r shr_s]; try lia.
  - (* 0 *)
    change (0 mod 2) with 0 in *. change (0 / 2) with 0.
    split; [reflexivity|]. split; [split; [discriminate | lia]|].
    rewrite Hrs. lia.
  - (* xI *)
    assert (E : Zpos p~1 = 2 * Zpos p + 1) by lia.
    assert (Hd : Zpos p~1 / 2 = Zpos p)
      by (symmetry; apply (Z.div_unique _ 2 _ 1); lia).
    assert (Hm : Zpos p~1 mod 2 = 1)
      by (symmetry; apply (Z.mod_unique _ 2 (Zpos p) 1); lia).
    rewrite Hd, Hm.
    split; [reflexivity|]. split; [split; [lia | reflexivity]|].
    rewrite Hrs. lia.
  - (* xO *)
    assert (Hd : Zpos p~0 / 2 = Zpos p)
      by (symmetry; apply (Z.div_unique _ 2 _ 0); lia).
    assert (Hm : Zpos p~0 mod 2 = 0)
      by (symmetry; apply (Z.mod_unique _ 2 (Zpos p) 0); lia).
    rewrite Hd, Hm.
    split; [reflexivity|]. split; [split; [discriminate | lia]|].
    rewrite Hrs. lia.
  - (* 1 *)
    change (1 / 2) with 0. change (1 mod 2) with 1.
    split; [reflexivity|]. split; [split; [lia | reflexivity]|].
    rewrite Hrs. lia.
Qed.

Lemma iter_shr_1_locates (n : Z) (k : nat) :
  0 <= n ->
  locates n (Z.of_nat k)
    (Nat.iter k shr_1 {| shr_m := n; shr_r := false; shr_s := false |}).
Proof.
  intros Hn. induction k as [|k IH].
  - cbn [Nat.iter Z.of_nat]. unfold locates. cbn [shr_m shr_r shr_s].
    change (2 ^ 0) with 1. rewrite Z.div_1_r, Z.mod_1_r.
    repeat split; try discriminate; lia.
  - rewrite Nat2Z.inj_succ. unfold Z.succ. cbn [Nat.iter].
    apply shr_1_locates; [assumption | lia | exact IH].
Qed.

Lemma locates_nearestEven (n j : Z) (mrs : shr_record) :
  locates n j mrs ->
  round_nearest_even (shr_m mrs) (loc_of_shr_record mrs) = nearestEven n j.
Proof.
  intros [Hm [Hr Hs]]. unfold nearestEven. rewrite <- Hm.
  destruct mrs as [m [|] [|]]; cbn [shr_m shr_r shr_s loc_of_shr_record
                                     round_nearest_even] in *.
  - destruct (Z.ltb_spec (2 * (n mod 2 ^ j)) (2 ^ j)); [lia|].
    destruct (Z.ltb_spec (2 ^ j) (2 * (n mod 2 ^ j))); [reflexivity|].
    assert (2 * (n mod 2 ^ j) <> 2 ^ j) by (apply Hs; reflexivity). lia.
  - destruct (Z.ltb_spec (2 * (n mod 2 ^ j)) (2 ^ j)); [lia|].
    destruct (Z.ltb_spec (2 ^ j) (2 * (n mod 2 ^ j))); [|reflexivity].
    exfalso.
    assert (Hf : false = true); [|discriminate].
    apply Hs. split; lia.
  - destruct (Z.ltb_spec (2 * (n mod 2 ^ j)) (2 ^ j)); [reflexivity|].
    exfalso. assert (Hf : false = true) by (apply Hr; lia). discriminate.
  - destruct (Z.ltb_spec (2 * (n mod 2 ^ j)) (2 ^ j)); [reflexivity|].
    exfalso. assert (Hf : false = true) by (apply Hr; lia). discriminate.
Qed.

(** What [binary_round] gives for a positive mantissa in range: the double
    whose value in units is the value of the argument, rounded. *)
Lemma binary_round_nearest (s : bool) (m : positive) (e : Z) :
  -1074 <= e ->
  Zpos m * 2 ^ (e + 1074) < 2 ^ 2097 ->
  exists p e',
    binary_round prec emax s m e = S754_finite s p e'
    /\ -1074 <= e'
    /\ roundsTo (Zpos m * 2 ^ (e + 1074)) (Zpos p * 2 ^ (e' + 1074)).
Proof.
  intros He Hrange. unfold binary_round.
  set (d := Zpos (digits2_pos m)).
  (* alignment *)
  assert (Hal : exists mz ez,
             shl_align m e (fexp prec emax (d + e)) = (mz, ez)
             /\ Zpos mz * 2 ^ (ez + 1074) = Zpos m * 2 ^ (e + 1074)
             /\ -1074 <= ez
             /\ ez <= fexp prec emax (Zpos (digits2_pos mz) + ez)).
  { unfold shl_align.
    destruct (fexp prec emax (d + e) - e) as [|k|k] eqn:Hk.
    - exists m, e. repeat split; try lia. fold d. lia.
    - exists m, e. repeat split; try lia. fold d. lia.
    - exists (Pos.iter xO m k), (fexp prec emax (d + e)).
      assert (Hf : -1074 <= fexp prec emax (d + e))
        by (unfold fexp, SpecFloat.emin, prec, emax; lia).
      repeat split; try lia.
      + rewrite iter_xO_pow2.
        replace (e + 1074) with (Zpos k + (fexp prec emax (d + e) + 1074)) by lia.
        rewrite (Z.pow_add_r 2 (Zpos k)) by lia. ring.
      + rewrite digits2_pos_iter_xO. fold d.
        replace (d + Zpos k + fexp prec emax (d + e)) with (d + e) by lia. lia. }
  destruct Hal as [mz [ez [-> [Hval [Hez Hcan]]]]].
  rewrite <- Hval in *. clear Hval m d He.
  pose proof (digits2_pos_bounds mz) as [Hlo Hhi].
  set (dz := Zpos (digits2_pos mz)) in *.
  set (W := 2 ^ (ez + 1074)) in *.
  assert (HW : 0 < W) by (apply Z.pow_pos_nonneg; lia).
  unfold binary_round_aux.
  (* first shift *)
  assert (H1 : exists mrs n,
             shr_fexp prec emax (Zpos mz) ez loc_Exact = (mrs, ez + n)
             /\ 0 <= n /\ locates (Zpos mz) n mrs
             /\ Zpos mz < 2 ^ (53 + n)
             /\ (-1074 < ez + n -> 2 ^ (52 + n) <= Zpos mz)).
  { unfold shr_fexp, shr. cbn [Zdigits2 shr_record_of_loc]. fold dz.
    destruct (fexp prec emax (dz + ez) - ez) as [|k|k] eqn:Hk;
      unfold fexp, SpecFloat.emin, prec, emax in Hcan, Hk; try lia.
    - exists {| shr_m := Zpos mz; shr_r := false; shr_s := false |}, 0.
      rewrite Z.add_0_r. split; [reflexivity|]. split; [lia|].
      split; [exact (iter_shr_1_locates (Zpos mz) 0 ltac:(lia))|].
      split.
      + apply Z.lt_le_trans with (2 ^ dz); [assumption|].
        apply Z.pow_le_mono_r; lia.
      + intros Hn. apply Z.le_trans with (2 ^ (dz - 1)); [|assumption].
        apply Z.pow_le_mono_r; lia.
    - assert (Hkd : Zpos k = dz - 53) by lia.
      exists (iter_pos shr_1 k {| shr_m := Zpos mz; shr_r := false; shr_s := false |}),
             (Zpos k).
      split; [reflexivity|]. split; [lia|]. split.
      + rewrite iter_pos_nat.
        pose proof (iter_shr_1_locates (Zpos mz) (Pos.to_nat k) ltac:(lia)) as H.
        now rewrite positive_nat_Z in H.
      + split.
        * apply Z.lt_le_trans with (2 ^ dz); [assumption|].
          apply Z.pow_le_mono_r; lia.
        * intros _. apply Z.le_trans with (2 ^ (dz - 1)); [|assumption].
          apply Z.pow_le_mono_r; lia. }
  destruct H1 as [mrs [n [-> [Hn [Hloc [Hup Hnorm]]]]]].
  rewrite (locates_nearestEven _ _ _ Hloc).
  set (m2 := nearestEven (Zpos mz) n).
  set (P := 2 ^ n) in *.
  assert (HP : 0 < P) by (apply Z.pow_pos_nonneg; lia).
  pose proof (nearestEven_bounds (Zpos mz) n) as Hb. fold m2 P in Hb.
  assert (Hq1 : Zpos mz / P < 2 ^ 53).
  { apply Z.div_lt_upper_bound; [lia|]. unfold P.
    rewrite <- Z.pow_add_r by lia. now rewrite Z.add_comm. }
  assert (Hq0 : 0 <= Zpos mz / P) by (apply Z.div_pos; lia).
  assert (Hm2e : n = 0 -> m2 = Zpos mz).
  { intros ->. unfold m2. rewrite <- (Z.mul_1_r (Zpos mz)) at 1.
    change 1 with (2 ^ 0) at 1. now apply nearestEven_exact. }
  assert (Hm2p : 0 < m2).
  { destruct (Z.eq_dec n 0) as [Hn0|Hn0]; [rewrite (Hm2e Hn0); lia|].
    assert (Hnz : -1074 < ez + n) by lia. specialize (Hnorm Hnz).
    assert (2 ^ 52 <= Zpos mz / P).
    { apply Z.div_le_lower_bound; [lia|]. unfold P.
      rewrite <- Z.pow_add_r by lia. now rewrite Z.add_comm. }
    assert (0 < 2 ^ 52) by reflexivity. lia. }
  assert (Hm2u : m2 <= 2 ^ 53) by lia.
  assert (Hm2n : -1074 < ez + n -> 2 ^ 52 <= m2).
  { intros Hnz. specialize (Hnorm Hnz).
    assert (2 ^ 52 <= Zpos mz / P).
    { apply Z.div_le_lower_bound; [lia|]. unfold P.
      rewrite <- Z.pow_add_r by lia. now rewrite Z.add_comm. }
    lia. }
  (* second shift *)
  assert (H2 : exists p e3,
             shr_fexp prec emax m2 (ez + n) loc_Exact
             = ({| shr_m := Zpos p; shr_r := false; shr_s := false |}, e3)
             /\ Zpos p * 2 ^ (e3 - (ez + n)) = m2 /\ ez + n <= e3 <= ez + n + 1
             /\ (e3 = ez + n + 1 -> m2 = 2 ^ 53)).
  { unfold shr_fexp, shr.
    destruct m2 as [|q|q] eqn:Hq; try lia. cbn [Zdigits2].
    pose proof (digits2_pos_bounds q) as [Hql Hqh].
    set (dq := Zpos (digits2_pos q)) in *.
    assert (Hdq : dq <= 54).
    { destruct (Z.le_gt_cases dq 54) as [|Hgt]; [assumption|exfalso].
      assert (2 ^ 54 <= 2 ^ (dq - 1)) by (apply Z.pow_le_mono_r; lia).
      assert (2 ^ 53 < 2 ^ 54) by reflexivity. lia. }
    assert (Hdl : -1074 < ez + n -> 53 <= dq).
    { intros Hnz. specialize (Hm2n Hnz).
      destruct (Z.le_gt_cases 53 dq) as [|Hlt]; [assumption|exfalso].
      assert (2 ^ dq <= 2 ^ 52) by (apply Z.pow_le_mono_r; lia). lia. }
    assert (Hds : ez + n = -1074 -> dq <= 53 \/ Zpos q = 2 ^ 53).
    { intros _. destruct (Z.le_gt_cases dq 53) as [|Hgt]; [now left|right].
      assert (2 ^ 53 <= 2 ^ (dq - 1)) by (apply Z.pow_le_mono_r; lia). lia. }
    destruct (fexp prec emax (dq + (ez + n)) - (ez + n)) as [|k|k] eqn:Hk;
      unfold fexp, SpecFloat.emin, prec, emax in Hk.
    - exists q, (ez + n). cbn [shr_record_of_loc].
      rewrite Z.sub_diag. change (2 ^ 0) with 1. repeat split; lia.
    - assert (Hk1 : Zpos k = 1) by lia.
      assert (k = 1%positive) as -> by lia.
      assert (Hd54 : dq = 54) by lia.
      assert (Hq2 : Zpos q = 2 ^ 53).
      { rewrite Hd54 in Hql. change (2 ^ (54 - 1)) with (2 ^ 53) in Hql. lia. }
      exists (Pos.iter xO 1 52)%positive, (ez + n + 1).
      assert (q = Pos.iter xO 1 53)%positive as ->.
      { apply Pos2Z.inj. rewrite Hq2. reflexivity. }
      cbn [iter_pos shr_record_of_loc].
      replace (ez + n + 1 - (ez + n)) with 1 by lia.
      repeat split; try lia; try reflexivity.
    - exists q, (ez + n). cbn [shr_record_of_loc].
      rewrite Z.sub_diag. change (2 ^ 0) with 1. repeat split; lia. }
  destruct H2 as [p [e3 [-> [Hp [He3 He3m]]]]]. cbn [shr_m].
  (* the value *)
  assert (Hval : Zpos p * 2 ^ (e3 + 1074) = m2 * P * W).
  { unfold W, P. rewrite <- Hp.
    replace (e3 + 1074) with (e3 - (ez + n) + (n + (ez + 1074))) by lia.
    rewrite !Z.pow_add_r by lia. ring. }
  assert (Hfin : e3 <= 971).
  { destruct (Z.le_gt_cases e3 971) as [|Hgt]; [assumption|exfalso].
    assert (Hnz : -1074 < ez + n) by lia.
    specialize (Hnorm Hnz).
    assert (HPW : P * W = 2 ^ (ez + n + 1074)).
    { unfold P, W. rewrite <- Z.pow_add_r by lia. f_equal. lia. }
    assert (HQ : 2 ^ (971 + 1074) <= P * W)
      by (rewrite HPW; apply Z.pow_le_mono_r; lia).
    assert (H2 : 2 ^ 52 * P * W <= Zpos mz * W).
    { apply Z.mul_le_mono_nonneg_r; [lia|]. unfold P.
      rewrite <- Z.pow_add_r by lia. exact Hnorm. }
    assert (H3 : 2 ^ 52 * 2 ^ (971 + 1074) <= 2 ^ 52 * (P * W))
      by (apply Z.mul_le_mono_nonneg_l; [lia | exact HQ]).
    change (2 ^ 52 * 2 ^ (971 + 1074)) with (2 ^ 2097) in H3.
    rewrite Z.mul_assoc in H3.
    apply (Z.lt_irrefl (2 ^ 2097)).
    eapply Z.le_lt_trans; [exact H3|]. eapply Z.le_lt_trans; [exact H2|].
    exact Hrange. }
  exists p, e3. replace (e3 <=? emax - prec) with true
    by (symmetry; apply Z.leb_le; unfold emax, prec; lia).
  split; [reflexivity|]. split; [lia|].
  exists (n + (ez + 1074)). split; [lia|]. split; [|split].
  - replace (53 + (n + (ez + 1074))) with (53 + n + (ez + 1074)) by lia.
    rewrite (Z.pow_add_r 2 (53 + n)) by lia. fold W.
    apply Z.mul_lt_mono_pos_r; assumption.
  - intros Hg. specialize (Hnorm ltac:(lia)).
    replace (52 + (n + (ez + 1074))) with (52 + n + (ez + 1074)) by lia.
    rewrite (Z.pow_add_r 2 (52 + n)) by lia. fold W.
    apply Z.mul_le_mono_nonneg_r; [lia | assumption].
  - rewrite Hval.
    replace (nearestEven (Zpos mz * W) (n + (ez + 1074))) with m2
      by (unfold W, m2; now rewrite nearestEven_scale by lia).
    rewrite Z.pow_add_r by lia. fold P W. ring.
Qed.

Lemma binary_round_value (s : bool) (m : positive) (e : Z) :
  -1074 <= e ->
  Zpos m * 2 ^ (e + 1074) < 2 ^ 2097 ->
  exists p e',
    binary_round prec emax s m e = S754_finite s p e'
    /\ -1074 <= e'
    /\ 2 ^ 52 * Z.abs (Zpos p * 2 ^ (e' + 1074) - Zpos m * 2 ^ (e + 1074))
       <= Zpos m * 2 ^ (e + 1074).
Proof.
  intros He Hrange.
  destruct (binary_round_nearest s m e He Hrange)
    as [p [e' [E [He' [g [Hg [Hu [Hl Hr]]]]]]]].
  exists p, e'. split; [exact E|]. split; [exact He'|].
  assert (Hpos : 0 < Zpos m * 2 ^ (e + 1074))
    by (apply Z.mul_pos_pos; [lia | apply Z.pow_pos_nonneg; lia]).
  clear Hrange E. set (v := Zpos m * 2 ^ (e + 1074)) in *. rewrite Hr.
  assert (HP : 0 < 2 ^ g) by (apply Z.pow_pos_nonneg; lia).
  destruct (Z.eq_dec g 0) as [->|Hne].
  - replace (nearestEven v 0) with v.
    + change (2 ^ 0) with 1. rewrite Z.mul_1_r, Z.sub_diag.
      change (Z.abs 0) with 0. rewrite Z.mul_0_r. lia.
    + pose proof (nearestEven_exact v 0 ltac:(lia)) as H0.
      change (2 ^ 0) with 1 in H0. rewrite Z.mul_1_r in H0. now rewrite H0.
  - specialize (Hl ltac:(lia)). rewrite Z.pow_add_r in Hl by lia.
    pose proof (nearestEven_bounds v g) as Hb.
    pose proof (Z.div_mod v (2 ^ g) ltac:(lia)) as Dv.
    pose proof (Z.mod_pos_bound v (2 ^ g) HP) as Bv.
    set (P := 2 ^ g) in *. set (q := v / P) in *. set (N := nearestEven v g) in *.
    assert (Hnear : Z.abs (N * P - v) <= P) by nia.
    assert (H252 : 0 < 2 ^ 52) by reflexivity.
    nia.
Qed.

Lemma units_aligned (m : positive) (e ez : Z) :
  ez <= e -> -1074 <= ez ->
  Zpos m * 2 ^ (e + 1074) = Zpos (fst (shl_align m e ez)) * 2 ^ (ez + 1074).
Proof.
  intros Hle Hez. destruct (shl_align_value m e ez Hle) as [-> _].
  replace (e + 1074) with (e - ez + (ez + 1074)) by lia.
  rewrite Z.pow_add_r by lia. ring.
Qed.

(** On the finite doubles, the order of the places is the order of the
    values. *)
Lemma units_place (x y : spec_float) :
  valid_binary x = true -> valid_binary y = true ->
  finite x = true -> finite y = true ->
  (before (place x) (place y) <-> units x < units y)
  /\ (level (place x) (place y) <-> units x = units y).
Proof.
  intros Vx Vy Fx Fy.
  destruct x as [sx|sx| |sx mx ex]; try discriminate;
  destruct y as [sy|sy| |sy my ey]; try discriminate;
  cbn [place units before level valid_binary SpecFloat.valid_binary] in *.
  - split; split; lia.
  - pose proof (bounded_canonical _ _ Vy) as [Hey _].
    assert (0 < Zpos my * 2 ^ (ey + 1074))
      by (apply Z.mul_pos_pos; [lia | apply Z.pow_pos_nonneg; lia]).
    destruct sy; cbn [before level]; split; split; lia.
  - pose proof (bounded_canonical _ _ Vx) as [Hex _].
    assert (0 < Zpos mx * 2 ^ (ex + 1074))
      by (apply Z.mul_pos_pos; [lia | apply Z.pow_pos_nonneg; lia]).
    destruct sx; cbn [before level]; split; split; lia.
  - pose proof (bounded_canonical _ _ Vx) as [Hex _].
    pose proof (bounded_canonical _ _ Vy) as [Hey _].
    pose proof (aligned_order mx ex my ey Vx Vy) as [H1 H2]. cbn zeta in H1, H2.
    rewrite (units_aligned mx ex (Z.min ex ey)) by lia.
    rewrite (units_aligned my ey (Z.min ex ey)) by lia.
    set (X := Zpos (fst (shl_align mx ex (Z.min ex ey)))) in *.
    set (Y := Zpos (fst (shl_align my ey (Z.min ex ey)))) in *.
    set (W := 2 ^ (Z.min ex ey + 1074)).
    assert (HW : 0 < W) by (apply Z.pow_pos_nonneg; lia).
    assert (HX : 0 < X) by (unfold X; lia).
    assert (HY : 0 < Y) by (unfold Y; lia).
    assert (Hlt : X * W < Y * W <-> X < Y) by (split; nia).
    assert (Hgt : Y * W < X * W <-> Y < X) by (split; nia).
    assert (Heq : X * W = Y * W <-> ~ X < Y /\ ~ Y < X) by (split; nia).
    destruct sx, sy; cbn [before level]; split; split; intros; nia.
Qed.

Lemma SFadd_units (x y : spec_float) :
  valid_binary x = true -> valid_binary y = true ->
  finite x = true -> finite y = true ->
  Z.abs (units x + units y) < 2 ^ 2097 ->
  finite (SFadd prec emax x y) = true
  /\ 2 ^ 52 * Z.abs (units (SFadd prec emax x y) - (units x + units y))
     <= Z.abs (units x + units y).
Proof.
  intros Vx Vy Fx Fy Hr.
  destruct x as [sx|sx| |sx mx ex]; try discriminate;
  destruct y as [sy|sy| |sy my ey]; try discriminate.
  - destruct sx, sy; cbn; split; (reflexivity || lia).
  - cbn [SFadd finite units] in *. split; [reflexivity|].
    rewrite Z.add_0_l, Z.sub_diag. cbn. lia.
  - cbn [SFadd finite units] in *. split; [reflexivity|].
    rewrite Z.add_0_r, Z.sub_diag. cbn. lia.
  - cbn [valid_binary SpecFloat.valid_binary] in Vx, Vy.
    pose proof (bounded_canonical _ _ Vx) as [Hex _].
    pose proof (bounded_canonical _ _ Vy) as [Hey _].
    cbn [SFadd units] in *.
    rewrite (units_aligned mx ex (Z.min ex ey)) in * by lia.
    rewrite (units_aligned my ey (Z.min ex ey)) in * by lia.
    set (X := Zpos (fst (shl_align mx ex (Z.min ex ey)))) in *.
    set (Y := Zpos (fst (shl_align my ey (Z.min ex ey)))) in *.
    set (ez := Z.min ex ey) in *.
    set (W := 2 ^ (ez + 1074)) in *.
    assert (HW : 0 < W) by (apply Z.pow_pos_nonneg; lia).
    set (M := cond_Zopp sx X + cond_Zopp sy Y).
    assert (HM : (if sx then -1 else 1) * (X * W) + (if sy then -1 else 1) * (Y * W)
                 = M * W)
      by (unfold M, cond_Zopp; destruct sx, sy; ring).
    rewrite HM in *. rewrite Z.abs_mul, (Z.abs_eq W) in Hr by lia.
    destruct M as [|m|m]; cbn [binary_normalize].
    + cbn. split; [reflexivity|lia].
    + destruct (binary_round_value false m ez) as [p [e' [-> [He' Hb]]]];
        [lia | fold W; cbn [Z.abs] in Hr; lia |].
      cbn [finite units]. fold W in Hb. split; [reflexivity|].
      rewrite Z.mul_1_l, (Z.abs_eq (Zpos m * W)) by lia. exact Hb.
    + destruct (binary_round_value true m ez) as [p [e' [-> [He' Hb]]]];
        [lia | fold W; cbn [Z.abs] in Hr; lia |].
      cbn [finite units]. fold W in Hb. split; [reflexivity|].
      replace (-1 * (Zpos p * 2 ^ (e' + 1074)) - Zneg m * W)
        with (- (Zpos p * 2 ^ (e' + 1074) - Zpos m * W)) by lia.
      rewrite Z.abs_opp.
      replace (Z.abs (Zneg m * W)) with (Zpos m * W) by lia. exact Hb.
Qed.

Lemma rounded_mono (s1 s2 r1 r2 : Z) :
  s1 <= s2 -> rounded s1 r1 -> rounded s2 r2 -> r1 <= r2.
Proof.
  intros Hle [Z1 [P1 N1]] [Z2 [P2 N2]].
  assert (A1 : s1 < 0 -> r1 <= 0).
  { intros H. pose proof (roundsTo_nonneg (- s1) (- r1) ltac:(lia) (N1 H)). lia. }
  assert (A2 : 0 < s2 -> 0 <= r2).
  { intros H. exact (roundsTo_nonneg s2 r2 ltac:(lia) (P2 H)). }
  assert (A3 : s2 < 0 -> r1 <= r2).
  { intros H.
    pose proof (roundsTo_mono (- s2) (- s1) (- r2) (- r1) ltac:(lia) ltac:(lia)
                  (N2 H) (N1 ltac:(lia))). lia. }
  assert (A4 : 0 < s1 -> r1 <= r2).
  { intros H.
    exact (roundsTo_mono s1 s2 r1 r2 H Hle (P1 H) (P2 ltac:(lia))). }
  destruct (Z.lt_trichotomy s1 0) as [H1|[H1|H1]];
    destruct (Z.lt_trichotomy s2 0) as [H2|[H2|H2]]; lia.
Qed.

(** A double is its own value rounded. *)
Lemma roundsTo_double (m : positive) (e : Z) :
  bounded prec emax m e = true ->
  roundsTo (Zpos m * 2 ^ (e + 1074)) (Zpos m * 2 ^ (e + 1074)).
Proof.
  intros Hb. pose proof (bounded_canonical _ _ Hb) as [He [Hd Hn]].
  pose proof (digits2_pos_bounds m) as [Hlo Hhi].
  set (d := Zpos (digits2_pos m)) in *.
  set (W := 2 ^ (e + 1074)).
  assert (HW : 0 < W) by (apply Z.pow_pos_nonneg; lia).
  exists (e + 1074). split; [lia|]. split; [|split].
  - rewrite Z.pow_add_r by lia. fold W.
    apply Z.mul_lt_mono_pos_r; [assumption|].
    apply Z.lt_le_trans with (2 ^ d); [assumption|].
    apply Z.pow_le_mono_r; lia.
  - intros Hg. rewrite Z.pow_add_r by lia. fold W.
    apply Z.mul_le_mono_nonneg_r; [lia|].
    rewrite (Hn ltac:(lia)) in Hlo. exact Hlo.
  - unfold W. now rewrite nearestEven_exact by lia.
Qed.

Lemma rounded_units (x : spec_float) :
  valid_binary x = true -> finite x = true -> rounded (units x) (units x).
Proof.
  intros Vx Fx. destruct x as [s|s| |s m e]; try discriminate;
    cbn [units].
  - repeat split; lia.
  - cbn [valid_binary SpecFloat.valid_binary] in Vx.
    pose proof (roundsTo_double m e Vx) as H.
    pose proof (bounded_canonical _ _ Vx) as [He _].
    assert (0 < Zpos m * 2 ^ (e + 1074))
      by (apply Z.mul_pos_pos; [lia | apply Z.pow_pos_nonneg; lia]).
    destruct s; repeat split; intros; try lia.
    + replace (- (-1 * (Zpos m * 2 ^ (e + 1074))))
        with (Zpos m * 2 ^ (e + 1074)) by lia. exact H.
    + rewrite Z.mul_1_l. exact H.
Qed.

(** The sum of two finite doubles is the sum of their values, rounded. *)
Lemma SFadd_rounded (x y : spec_float) :
  valid_binary x = true -> valid_binary y = true ->
  finite x = true -> finite y = true ->
  Z.abs (units x + units y) < 2 ^ 2097 ->
  rounded (units x + units y) (units (SFadd prec emax x y)).
Proof.
  intros Vx Vy Fx Fy Hr.
  destruct x as [sx|sx| |sx mx ex]; try discriminate;
  destruct y as [sy|sy| |sy my ey]; try discriminate.
  - destruct sx, sy; cbn; repeat split; lia.
  - cbn [SFadd]. change (units (S754_zero sx)) with 0. rewrite Z.add_0_l.
    now apply rounded_units.
  - cbn [SFadd]. change (units (S754_zero sy)) with 0. rewrite Z.add_0_r.
    now apply rounded_units.
  - cbn [valid_binary SpecFloat.valid_binary] in Vx, Vy.
    pose proof (bounded_canonical _ _ Vx) as [Hex _].
    pose proof (bounded_canonical _ _ Vy) as [Hey _].
    cbn [SFadd units] in *.
    rewrite (units_aligned mx ex (Z.min ex ey)) in * by lia.
    rewrite (units_aligned my ey (Z.min ex ey)) in * by lia.
    set (X := Zpos (fst (shl_align mx ex (Z.min ex ey)))) in *.
    set (Y := Zpos (fst (shl_align my ey (Z.min ex ey)))) in *.
    set (ez := Z.min ex ey) in *.
    set (W := 2 ^ (ez + 1074)) in *.
    assert (HW : 0 < W) by (apply Z.pow_pos_nonneg; lia).
    set (M := cond_Zopp sx X + cond_Zopp sy Y).
    assert (HM : (if sx then -1 else 1) * (X * W) + (if sy then -1 else 1) * (Y * W)
                 = M * W)
      by (unfold M, cond_Zopp; destruct sx, sy; ring).
    rewrite HM in *. rewrite Z.abs_mul, (Z.abs_eq W) in Hr by lia.
    destruct M as [|m|m]; cbn [binary_normalize].
    + cbn. repeat split; lia.
    + destruct (binary_round_nearest false m ez) as [p [e' [-> [He' Hb]]]];
        [lia | fold W; cbn [Z.abs] in Hr; lia |].
      cbn [units]. fold W in Hb. rewrite Z.mul_1_l.
      assert (0 < Zpos m * W) by lia.
      repeat split; intros; try lia. exact Hb.
    + destruct (binary_round_nearest true m ez) as [p [e' [-> [He' Hb]]]];
        [lia | fold W; cbn [Z.abs] in Hr; lia |].
      cbn [units]. fold W in Hb.
      assert (Zneg m * W < 0) by lia.
      repeat split; intros; try lia.
      replace (- (Zneg m * W)) with (Zpos m * W) by lia.
      replace (- (-1 * (Zpos p * 2 ^ (e' + 1074))))
        with (Zpos p * 2 ^ (e' + 1074)) by lia.
      exact Hb.
Qed.

Open Scope float_scope.

Lemma is_nan_Prim2SF (x : float) :
  is_nan x = false <-> Prim2SF x <> S754_nan.
Proof.
  unfold is_nan. rewrite eqb_spec, negb_false_iff. unfold SFeqb. split.
  - intros H E. rewrite E in H. discriminate.
  - intros H. destruct (SFcompare_place _ _ H H) as [c [-> [_ Heq]]].
    assert (c = Eq) as ->; [|reflexivity].
    apply Heq. unfold level. destruct (place (Prim2SF x)) as [[a b] d]. auto.
Qed.

Lemma ltb_before (x y : float) :
  is_nan x = false -> is_nan y = false ->
  (x <? y) = true <-> before (placeOf x) (placeOf y).
Proof.
  intros Hx Hy. apply is_nan_Prim2SF in Hx, Hy.
  rewrite ltb_spec. unfold SFltb.
  destruct (SFcompare_place _ _ Hx Hy) as [c [-> [Hlt _]]].
  rewrite <- Hlt. destruct c; split; congruence.
Qed.

Lemma eqb_level (x y : float) :
  is_nan x = false -> is_nan y = false ->
  (x =? y) = true <-> level (placeOf x) (placeOf y).
Proof.
  intros Hx Hy. apply is_nan_Prim2SF in Hx, Hy.
  rewrite eqb_spec. unfold SFeqb.
  destruct (SFcompare_place _ _ Hx Hy) as [c [-> [_ Heq]]].
  rewrite <- Heq. destruct c; split; congruence.
Qed.


(** [0 < y - x] exactly when [x < y]. *)
Lemma sub_pos (x y : float) :
  is_nan x = false -> is_nan y = false ->
  (0 <? y - x) = (x <? y).
Proof.
  intros Hx Hy. apply is_nan_Prim2SF in Hx, Hy.
  rewrite !ltb_spec, sub_spec.
  change (Prim2SF 0) with (S754_zero false).
  apply SFsub_sign; auto using Prim2SF_valid.
Qed.

Ltac places :=
  repeat match goal with
         | |- context [placeOf ?x] =>
             let a := fresh "a" in let b := fresh "b" in let c := fresh "c" in
             destruct (placeOf x) as [[a b] c]
         | H : context [placeOf ?x] |- _ =>
             let a := fresh "a" in let b := fresh "b" in let c := fresh "c" in
             destruct (placeOf x) as [[a b] c]
         end;
  unfold before, level in *.

Lemma ltb_asym (x y : float) :
  is_nan x = false -> is_nan y = false ->
  (x <? y) = true -> (y <? x) = false.
Proof.
  intros Hx Hy H. apply not_true_iff_false. intros H'.
  apply ltb_before in H, H'; try assumption. places. lia.
Qed.

Lemma ltb_false_trans (x y z : float) :
  is_nan x = false -> is_nan y = false -> is_nan z = false ->
  (x <? y) = false -> (y <? z) = false -> (x <? z) = false.
Proof.
  intros Hx Hy Hz H1 H2. apply not_true_iff_false. intros H3.
  apply not_true_iff_false in H1, H2.
  rewrite ltb_before in H1, H2, H3 by assumption. places. lia.
Qed.


Lemma eqb_ltb_compat (x x' y y' : float) :
  is_nan x = false -> is_nan x' = false ->
  is_nan y = false -> is_nan y' = false ->
  (x =? x') = true -> (y =? y') = true -> (x <? y) = (x' <? y').
Proof.
  intros Hx Hx' Hy Hy' E1 E2. apply eq_true_iff_eq.
  rewrite !ltb_before by assumption.
  rewrite eqb_level in E1, E2 by assumption. places. lia.
Qed.


Lemma isFinite_number (x : float) : isFinite x = true -> is_nan x = false.
Proof.
  unfold isFinite. intros H. apply is_nan_Prim2SF. intros E.
  rewrite E in H. discriminate.
Qed.

Lemma ltb_units (x y : float) :
  isFinite x = true -> isFinite y = true ->
  (x <? y) = true <-> (unitsOf x < unitsOf y)%Z.
Proof.
  intros Fx Fy. rewrite ltb_before by now apply isFinite_number.
  apply units_place; auto using Prim2SF_valid.
Qed.

Lemma leb_units (x y : float) :
  isFinite x = true -> isFinite y = true ->
  (x <=? y) = true <-> (unitsOf x <= unitsOf y)%Z.
Proof.
  intros Fx Fy. rewrite leb_spec. unfold SFleb.
  pose proof (isFinite_number x Fx) as Nx. pose proof (isFinite_number y Fy) as Ny.
  apply is_nan_Prim2SF in Nx, Ny.
  destruct (SFcompare_place _ _ Nx Ny) as [c [-> [Hlt Heq]]].
  destruct (units_place (Prim2SF x) (Prim2SF y)) as [H1 H2];
    auto using Prim2SF_valid.
  unfold unitsOf. rewrite Z.le_lteq, <- H1, <- H2, <- Hlt, <- Heq.
  destruct c; split; intros H; try reflexivity; try discriminate; auto;
    destruct H; discriminate.
Qed.

Lemma small_units (t : float) :
  small t -> isFinite t = true /\ (Z.abs (unitsOf t) <= 2 ^ 32 * one)%Z.
Proof.
  unfold small, isFinite, unitsOf. rewrite leb_spec, abs_spec.
  change (Prim2SF 4294967296) with (S754_finite false 4503599627370496 (-20)).
  pose proof (Prim2SF_valid t) as Vt.
  destruct (Prim2SF t) as [s|s| |s m e]; cbn [SFabs finite units];
    try discriminate.
  - intros _. split; [reflexivity|]. cbn. lia.
  - intros H. split; [reflexivity|].
    assert (Hle : (units (S754_finite false m e)
                   <= units (S754_finite false 4503599627370496 (-20)))%Z).
    { destruct (SFcompare_place (S754_finite false m e)
                  (S754_finite false 4503599627370496 (-20)))
        as [c [Hc [Hlt Heq]]]; try discriminate.
      destruct (units_place (S754_finite false m e)
                  (S754_finite false 4503599627370496 (-20)))
        as [H1 H2]; auto.
      unfold SFleb in H. rewrite Hc in H.
      rewrite Z.le_lteq, <- H1, <- H2, <- Hlt, <- Heq.
      destruct c; auto; discriminate. }
    cbn [valid_binary SpecFloat.valid_binary] in Vt.
    pose proof (bounded_canonical _ _ Vt) as [He _].
    assert (0 < Zpos m * 2 ^ (e + 1074))%Z
      by (apply Z.mul_pos_pos; [lia | apply Z.pow_pos_nonneg; lia]).
    change (units (S754_finite false 4503599627370496 (-20)))
      with (2 ^ 32 * one)%Z in Hle.
    cbn [units] in Hle. destruct s; lia.
Qed.

Lemma one_pos : (0 < one)%Z.
Proof. reflexivity. Qed.

Lemma one_limit : (2 ^ 40 * one < limit)%Z.
Proof. reflexivity. Qed.

Lemma add_units (x y : float) :
  isFinite x = true -> isFinite y = true ->
  (Z.abs (unitsOf x + unitsOf y) < limit)%Z ->
  isFinite (x + y) = true
  /\ (2 ^ 52 * Z.abs (unitsOf (x + y) - (unitsOf x + unitsOf y))
      <= Z.abs (unitsOf x + unitsOf y))%Z.
Proof.
  unfold isFinite, unitsOf. rewrite add_spec. intros Fx Fy Hr.
  apply SFadd_units; auto using Prim2SF_valid.
Qed.

Lemma within_units (bound t : float) :
  isFinite bound = true -> within bound t ->
  isFinite t = true /\ (Z.abs (unitsOf t) <= unitsOf bound)%Z.
Proof.
  unfold within. intros Fb H.
  assert (Ft : isFinite t = true).
  { unfold isFinite in *. rewrite leb_spec, abs_spec in H.
    destruct (Prim2SF t) as [s|s| |s m e]; cbn [SFabs finite] in *;
      try reflexivity.
    - destruct (Prim2SF bound) as [sb|sb| |sb mb eb]; discriminate.
    - discriminate. }
  split; [exact Ft|].
  assert (Fa : isFinite (abs t) = true).
  { unfold isFinite in *. rewrite abs_spec.
    destruct (Prim2SF t); cbn [SFabs finite] in *; congruence. }
  apply (leb_units (abs t) bound Fa Fb) in H.
  assert (Ha : (unitsOf (abs t) = Z.abs (unitsOf t))%Z).
  { unfold unitsOf. rewrite abs_spec.
    pose proof (Prim2SF_valid t) as Vt.
    destruct (Prim2SF t) as [s|s| |s m e]; cbn [SFabs units]; try reflexivity.
    cbn [valid_binary SpecFloat.valid_binary] in Vt.
    pose proof (bounded_canonical _ _ Vt) as [He _].
    assert (0 < Zpos m * 2 ^ (e + 1074))%Z
      by (apply Z.mul_pos_pos; [lia | apply Z.pow_pos_nonneg; lia]).
    destruct s; lia. }
  lia.
Qed.

(** Adding numbers of size at most [ub] units to each of two numbers, one
    after the other, keeps them apart: [j] additions were made, at most 10
    are made in all, and an addition at sums of size [s] loses [s / 2^52] at
    most. *)
Lemma fold_add_far (ub : Z) (ts : list float) : forall (j : nat) (a b : float),
  (0 < ub <= 2 ^ 32 * one)%Z ->
  (j + List.length ts <= 10)%nat ->
  Forall (fun t => isFinite t = true /\ (Z.abs (unitsOf t) <= ub)%Z) ts ->
  isFinite a = true -> isFinite b = true ->
  (Z.abs (unitsOf a) <= (2 * Z.of_nat j + 1) * ub)%Z ->
  (Z.abs (unitsOf b) <= (2 * Z.of_nat j + 1) * ub)%Z ->
  ((221 - 2 * Z.of_nat j * (Z.of_nat j + 1)) * ub
   <= 2 ^ 52 * (unitsOf b - unitsOf a))%Z ->
  (fold_left PrimFloat.add ts a <? fold_left PrimFloat.add ts b) = true.
Proof.
  pose proof one_pos as Hone. pose proof one_limit as Hlim.
  induction ts as [|t ts IH]; intros j a b Hub Hj Hts Fa Fb Ba Bb Hgap;
    cbn [fold_left List.length] in *.
  - apply ltb_units; auto.
    set (J := Z.of_nat j) in *.
    assert (HJ : (0 <= J <= 10)%Z) by (unfold J; lia).
    assert (Hc : (2 * J * (J + 1) <= 220)%Z) by nia.
    assert (Hu : (1 * ub <= (221 - 2 * J * (J + 1)) * ub)%Z)
      by (apply Z.mul_le_mono_nonneg_r; lia).
    assert (H252 : (0 < 2 ^ 52)%Z) by reflexivity.
    nia.
  - inversion Hts as [|? ? [Ft Bt] Hts']; subst.
    set (J := Z.of_nat j) in *.
    assert (HJ : (0 <= J <= 9)%Z) by (unfold J; lia).
    assert (HJu : (0 <= J * ub <= 9 * ub)%Z) by nia.
    destruct (add_units a t Fa Ft) as [Fa' Ea]; [lia|].
    destruct (add_units b t Fb Ft) as [Fb' Eb]; [lia|].
    assert (HS : Z.of_nat (S j) = (J + 1)%Z) by (unfold J; lia).
    apply (IH (S j)); auto; rewrite ?HS; lia.
Qed.

(** Two numbers of size at most [bound] of which one is at least [gap]
    above the other, the gap being 2^-44 of the bound, are far enough
    apart. *)
Lemma gap_far (bound gap a b : float) :
  isFinite bound = true -> isFinite gap = true ->
  (0 < unitsOf bound <= 2 ^ 32 * one)%Z ->
  (2 ^ 44 * unitsOf gap = unitsOf bound)%Z ->
  within bound a -> within bound b -> (a + gap <=? b) = true ->
  (221 * unitsOf bound <= 2 ^ 52 * (unitsOf b - unitsOf a))%Z.
Proof.
  intros Fbd Fg Hb Hg Wa Wb Hab.
  apply within_units in Wa as [Fa Ba]; [|assumption].
  apply within_units in Wb as [Fb Bb]; [|assumption].
  pose proof one_pos as Hone. pose proof one_limit as Hlim.
  destruct (add_units a gap Fa Fg) as [Fag Ea]; [lia|].
  apply (leb_units (a + gap) b Fag Fb) in Hab. lia.
Qed.

(** Adding one number to two numbers keeps their order. *)
Lemma add_mono (a b t : float) :
  isFinite a = true -> isFinite b = true -> isFinite t = true ->
  (Z.abs (unitsOf a + unitsOf t) < limit)%Z ->
  (Z.abs (unitsOf b + unitsOf t) < limit)%Z ->
  (unitsOf a <= unitsOf b)%Z ->
  (unitsOf (a + t) <= unitsOf (b + t))%Z.
Proof.
  unfold isFinite, unitsOf. rewrite !add_spec. intros Fa Fb Ft Ra Rb Hle.
  apply (rounded_mono (units (Prim2SF a) + units (Prim2SF t))
           (units (Prim2SF b) + units (Prim2SF t))); [lia| |];
    apply SFadd_rounded; auto using Prim2SF_valid.
Qed.

(** Adding small numbers to each of two ordered numbers, one after the
    other, keeps their order: [j] additions were made, at most 16 are made in
    all. *)
Lemma fold_add_mono (ts : list float) : forall (j : nat) (a b : float),
  (j + List.length ts <= 16)%nat -> Forall small ts ->
  isFinite a = true -> isFinite b = true ->
  (Z.abs (unitsOf a) <= (2 * Z.of_nat j + 1) * (2 ^ 32 * one))%Z ->
  (Z.abs (unitsOf b) <= (2 * Z.of_nat j + 1) * (2 ^ 32 * one))%Z ->
  (unitsOf a <= unitsOf b)%Z ->
  (fold_left PrimFloat.add ts a <=? fold_left PrimFloat.add ts b) = true.
Proof.
  pose proof one_pos as Hone. pose proof one_limit as Hlim.
  induction ts as [|t ts IH]; intros j a b Hj Hts Fa Fb Ba Bb Hle;
    cbn [fold_left List.length] in *.
  - now apply leb_units.
  - inversion Hts as [|? ? Ht Hts']; subst.
    apply small_units in Ht as [Ft Bt].
    assert (Hju : (Z.of_nat j * one <= 15 * one)%Z) by nia.
    assert (Hju0 : (0 <= Z.of_nat j * one)%Z) by nia.
    destruct (add_units a t Fa Ft) as [Fa' Ea]; [lia|].
    destruct (add_units b t Fb Ft) as [Fb' Eb]; [lia|].
    apply (IH (S j)); auto; try lia.
    apply add_mono; auto; lia.
Qed.

End F64Facts.

(** *** [Array.prototype.sort] with a comparison function [key b - key a] *)

Section Sorting.

Import F64Facts.

Open Scope float_scope.

Context {A : Type}.
Variable key : A -> float.
Variable comparefn : A -> A -> float.
Hypothesis key_number : forall a, is_nan (key a) = false.
Hypothesis comparefn_key : forall a b, comparefn a b = key b - key a.

Lemma sort_insert_test (a b : A) : (0 <? comparefn a b) = (key a <? key b).
Proof. rewrite comparefn_key. apply sub_pos; apply key_number. Qed.

Lemma sort_insert_Permutation (x : A) (l : list A) :
  Permutation (x :: l) (Js.sort_insert comparefn x l).
Proof.
  induction l as [|y l IH]; cbn [Js.sort_insert].
  - apply Permutation_refl.
  - destruct (0 <? comparefn x y).
    + eapply perm_trans; [apply perm_swap | now apply perm_skip].
    + apply Permutation_refl.
Qed.

Lemma Array_sort_Permutation (l : list A) :
  Permutation l (Js.Array_sort comparefn l).
Proof.
  unfold Js.Array_sort. induction l as [|x l IH]; cbn [fold_right].
  - constructor.
  - eapply perm_trans; [apply perm_skip, IH | apply sort_insert_Permutation].
Qed.

Lemma sort_insert_sorted (x : A) (l : list A) :
  StronglySorted (noLater key) l ->
  StronglySorted (noLater key) (Js.sort_insert comparefn x l).
Proof.
  induction 1 as [|y l Hl IH Hy]; cbn [Js.sort_insert].
  - repeat constructor.
  - rewrite sort_insert_test. destruct (key x <? key y) eqn:Hxy.
    + constructor; [exact IH|].
      apply (Permutation_Forall (sort_insert_Permutation x l)).
      constructor; [|exact Hy].
      apply ltb_asym; auto.
    + constructor; [now constructor|].
      constructor; [exact Hxy|].
      revert Hy. apply Forall_impl. intros r Hr.
      apply (ltb_false_trans _ (key y)); auto.
Qed.

Lemma Array_sort_sorted (l : list A) :
  StronglySorted (noLater key) (Js.Array_sort comparefn l).
Proof.
  unfold Js.Array_sort. induction l as [|x l IH]; cbn [fold_right].
  - constructor.
  - now apply sort_insert_sorted.
Qed.



End Sorting.

(** *** rank: the order *)

Section Ranking.

Import F64Facts.

Open Scope float_scope.

Context {rt : Runtime}.


Lemma is_nan_true (x : float) : is_nan x = true -> Prim2SF x = S754_nan.
Proof.
  intros H. destruct (Prim2SF x) eqn:E; try reflexivity; exfalso;
    assert (is_nan x = false) by (apply is_nan_Prim2SF; rewrite E; discriminate);
    congruence.
Qed.

Lemma ltb_nan_l (x y : float) : is_nan x = true -> (x <? y) = false.
Proof.
  intros H. rewrite ltb_spec, (is_nan_true x H). reflexivity.
Qed.

Lemma ltb_nan_r (x y : float) : is_nan y = true -> (x <? y) = false.
Proof.
  intros H. rewrite ltb_spec, (is_nan_true y H). unfold SFltb.
  destruct (Prim2SF x); reflexivity.
Qed.


Lemma or_num_number (x : float) : is_nan (Js.or_num x 0) = false.
Proof.
  unfold Js.or_num, Js.truthy.
  destruct (x =? 0); cbn [negb andb]; [reflexivity|].
  destruct (is_nan x) eqn:E; cbn [negb]; [reflexivity | exact E].
Qed.

Lemma scoreKey_number (a : NormalizedItem) : is_nan (scoreKey a) = false.
Proof.
  unfold scoreKey, Js.or_opt. destruct (score a); [apply or_num_number | reflexivity].
Qed.

(** A number and the key read off it are equal numbers. *)
Lemma or_num_eqb (x : float) : is_nan x = false -> (Js.or_num x 0 =? x) = true.
Proof.
  intros Hx. unfold Js.or_num, Js.truthy. rewrite Hx. cbn [negb].
  rewrite andb_true_r. destruct (x =? 0) eqn:E; cbn [negb].
  - rewrite eqb_level in E |- * by (assumption || reflexivity).
    places. lia.
  - unfold is_nan in Hx. now apply negb_false_iff in Hx.
Qed.

Lemma noLater_scoreKey (a b : NormalizedItem) :
  noLater scoreKey a b -> (num (score a) <? num (score b)) = false.
Proof.
  unfold noLater, scoreKey, Js.or_opt. intros H.
  destruct (score a) as [x|]; cbn [num]; [|now apply ltb_nan_l].
  destruct (is_nan x) eqn:Hx; [now apply ltb_nan_l|].
  destruct (score b) as [y|]; cbn [num]; [|now apply ltb_nan_r].
  destruct (is_nan y) eqn:Hy; [now apply ltb_nan_r|].
  rewrite <- H. symmetry.
  apply eqb_ltb_compat; auto using or_num_number, or_num_eqb.
Qed.



Lemma StronglySorted_impl {A : Type} (R R' : A -> A -> Prop) (l : list A) :
  (forall a b, R a b -> R' a b) -> StronglySorted R l -> StronglySorted R' l.
Proof.
  intros HR. induction 1 as [|x l Hl IH Hx]; constructor; [assumption|].
  revert Hx. apply Forall_impl. intros b. apply HR.
Qed.

Lemma Array_map_scoreItem center sortBy items : forall tick,
  fst (Js.Array_map (scoreItem center sortBy) items tick)
  = scoredFrom center sortBy tick items.
Proof.
  induction items as [|item items IH]; intros tick; [reflexivity|].
  rewrite Array_map_cons. cbn [scoredFrom]. unfold scoreItem at 1 3.
  destruct (itemScore center sortBy item tick) as [s tick'].
  cbn [fst snd]. now rewrite IH.
Qed.

Lemma rank_scoredFrom items params :
  rank items params
  = Js.Array_sort byScoreDesc
      (scoredFrom (center params)
         (match sortBy params with
          | Some s => s
          | None => recommended
          end) 0 items).
Proof. unfold rank. now rewrite Array_map_scoreItem. Qed.



End Ranking.

(** *** rank: 'closest' without a center *)

Section Fallthrough.

Open Scope float_scope.

Context {rt : Runtime}.

Lemma fold_left_add_if (c : bool) (t s : float) :
  fold_left PrimFloat.add (if c then [t] else []) s = if c then s + t else s.
Proof. destruct c; reflexivity. Qed.

(** The recommended score is the popularity term plus the other terms, one
    after the other, the recency and the urgency being counted from the
    readings of the clock that are made for the item. *)
Lemma recommendedScore_terms center item tick :
  fst (recommendedScore center item tick)
  = fold_left PrimFloat.add (otherTermsAt center item tick) (popularityTerm item).
Proof.
  unfold recommendedScore, otherTermsAt, otherTerms, popularityTerm, urgencyTick.
  cbv zeta.
  rewrite !fold_left_app, !fold_left_add_if. cbn [fold_left].
  destruct (Js.truthy_str (lastUpdated item)); cbn [fold_left];
    destruct center as [c|], (priceMin item) as [pm|];
    rewrite ?fold_left_add_if; cbn [fold_left];
    destruct (Js.truthy_str (startTime item)); cbn [fst]; try reflexivity;
    repeat match goal with
           | |- context [if ?b then _ else _] =>
               match b with
               | (_ <? _) => destruct b; cbn [fold_left]; try reflexivity
               end
           end.
Qed.

Lemma recommendedScore_reads center item tick :
  snd (recommendedScore center item tick) = (tick + recommendedReads item)%nat.
Proof.
  unfold recommendedScore, recommendedReads.
  destruct (Js.truthy_str (lastUpdated item)), (Js.truthy_str (startTime item));
    cbn [fst snd]; lia.
Qed.

Lemma Array_map_recommended center items : forall tick,
  fst (Js.Array_map
         (fun item tick =>
            let '(score, tick) := recommendedScore center item tick in
            (with_score item score, tick)) items tick)
  = recommendedFrom center tick items.
Proof.
  induction items as [|item items IH]; intros tick; [reflexivity|].
  rewrite Array_map_cons. cbn [fst recommendedFrom].
  pose proof (recommendedScore_reads center item tick) as Hreads.
  destruct (recommendedScore center item tick) as [s tick'].
  cbn [fst snd] in *. subst tick'. now rewrite IH.
Qed.

Lemma recommendedFrom_In center items (n : NormalizedItem) : forall tick,
  In n (recommendedFrom center tick items) ->
  exists item tick',
    In item items
    /\ n = with_score item (fst (recommendedScore center item tick')).
Proof.
  induction items as [|item items IH]; intros tick; [intros []|].
  cbn [recommendedFrom]. intros [<-|Hin].
  - exists item, tick. split; [now left | reflexivity].
  - destruct (IH _ Hin) as [item' [tick' [Hi ->]]].
    exists item', tick'. split; [now right | reflexivity].
Qed.

(** C10.  With the strategy 'closest' and no center, every item gets the
    recommended score, and makes the readings of the clock that the
    recommended score makes; the items that rank returns are the items of
    the input with their recommended scores, each item scored after the
    items before it, in the order of the sort; every item that rank returns
    carries a recommended score of its own fields, which is the sum of its
    popularity term and of its other terms (attendee count, recency,
    completeness, category boost, urgency; without a center there is no
    term for the distance); and rank returns what it returns for the
    strategy 'recommended' (or for no strategy at all) without a center. *)
Theorem closest_without_center_is_recommended :
  (forall item tick,
      itemScore None closest item tick = recommendedScore None item tick)
  /\ (forall items,
        rank items {| center := None; sortBy := Some closest |}
        = Js.Array_sort byScoreDesc (recommendedFrom None 0 items)
        /\ Permutation (recommendedFrom None 0 items)
             (rank items {| center := None; sortBy := Some closest |}))
  /\ (forall items (n : NormalizedItem),
        In n (rank items {| center := None; sortBy := Some closest |}) ->
        exists item tick,
          In item items
          /\ n = with_score item (fst (recommendedScore None item tick))
          /\ score n = Some (fst (recommendedScore None n tick))
          /\ score n
             = Some (fold_left PrimFloat.add (otherTermsAt None n tick)
                       (popularityTerm n)))
  /\ (forall items,
        rank items {| center := None; sortBy := Some closest |}
        = rank items {| center := None; sortBy := Some recommended |})
  /\ (forall items,
        rank items {| center := None; sortBy := Some closest |}
        = rank items noParams).
Proof.
  assert (H : forall item tick,
             itemScore None closest item tick = recommendedScore None item tick).
  { intros item tick. unfold itemScore. reflexivity. }
  assert (Hrank : forall items,
             rank items {| center := None; sortBy := Some closest |}
             = Js.Array_sort byScoreDesc (recommendedFrom None 0 items)).
  { intros items. unfold rank. cbn [center sortBy]. f_equal.
    apply Array_map_recommended. }
  split; [exact H | split; [|split; [|split]]].
  - intros items. split; [apply Hrank|].
    rewrite Hrank. apply Array_sort_Permutation.
  - intros items n Hin. rewrite Hrank in Hin.
    apply (Permutation_in _
             (Permutation_sym (Array_sort_Permutation byScoreDesc _))) in Hin.
    apply recommendedFrom_In in Hin as [item [tick [Hi ->]]].
    exists item, tick. split; [assumption | split; [reflexivity | split]].
    + reflexivity.
    + cbn [with_score score]. f_equal.
      apply (recommendedScore_terms None item tick).
  - intros items. unfold rank. cbn [center sortBy]. reflexivity.
  - intros items. unfold rank. cbn [center sortBy noParams]. reflexivity.
Qed.

End Fallthrough.

(** *** rank: the recommended score and the popularity *)

Section Popularity.

Import F64 F64Facts.

Open Scope float_scope.

Context {rt : Runtime}.

Lemma otherTerms_length center item updateNow startNow :
  (List.length (otherTerms center item updateNow startNow) <= 10)%nat.
Proof.
  unfold otherTerms. rewrite !length_app.
  repeat match goal with
         | |- context [List.length (if ?b then _ else _)] =>
             destruct b; cbn [List.length]
         | |- context [List.length (match ?o with Some _ => _ | None => _ end)] =>
             destruct o; cbn [List.length]
         end; lia.
Qed.

Lemma otherTermsAt_withPopularity center item p tick :
  otherTermsAt center (withPopularity item p) tick = otherTermsAt center item tick.
Proof. reflexivity. Qed.

(** The readings that are made for an item are the reading number [tick]
    and the next one, at most. *)
Lemma otherTermsAt_readings center item tick1 tick2 :
  Date_now tick1 = Date_now tick2 ->
  Date_now (S tick1) = Date_now (S tick2) ->
  otherTermsAt center item tick1 = otherTermsAt center item tick2.
Proof.
  intros H0 H1. unfold otherTermsAt, urgencyTick.
  destruct (Js.truthy_str (lastUpdated item)); now rewrite H0, ?H1.
Qed.

(** C9, as amended.  Take two items identical in every field except
    popularity, scored at readings of the clock at which no other term
    differs (as at equal readings), whose popularity terms (popularity times
    30) and other score terms are numbers of size at most 2^32.  The item
    whose popularity term is the higher one never scores lower, and it
    scores strictly higher when the popularity terms are at least 2^-12
    apart.  Where the terms are of size at most 32, it scores strictly
    higher when the popularity terms are at least 2^-39 apart.  So it does
    in particular for the popularities 0.2 and 0.8, whose terms are 6 and
    24. *)
Theorem recommended_popularity_strict :
  (forall center item p1 p2 tick1 tick2,
      otherTermsAt center item tick1 = otherTermsAt center item tick2 ->
      small (popularityTerm (withPopularity item p1)) ->
      small (popularityTerm (withPopularity item p2)) ->
      Forall small (otherTermsAt center item tick1) ->
      (popularityTerm (withPopularity item p1)
       <=? popularityTerm (withPopularity item p2)) = true ->
      (fst (recommendedScore center (withPopularity item p1) tick1)
       <=? fst (recommendedScore center (withPopularity item p2) tick2)) = true
      /\ ((popularityTerm (withPopularity item p1) + 0x1p-12
           <=? popularityTerm (withPopularity item p2)) = true ->
          (fst (recommendedScore center (withPopularity item p1) tick1)
           <? fst (recommendedScore center (withPopularity item p2) tick2))
          = true))
  /\ (forall center item p1 p2 tick1 tick2,
        otherTermsAt center item tick1 = otherTermsAt center item tick2 ->
        within 32 (popularityTerm (withPopularity item p1)) ->
        within 32 (popularityTerm (withPopularity item p2)) ->
        Forall (within 32) (otherTermsAt center item tick1) ->
        (popularityTerm (withPopularity item p1) + 0x1p-39
         <=? popularityTerm (withPopularity item p2)) = true ->
        (fst (recommendedScore center (withPopularity item p1) tick1)
         <? fst (recommendedScore center (withPopularity item p2) tick2))
        = true)
  /\ (forall center item tick1 tick2,
        Date_now tick1 = Date_now tick2 ->
        Date_now (S tick1) = Date_now (S tick2) ->
        otherTermsAt center item tick1 = otherTermsAt center item tick2)
  /\ (forall center item tick1 tick2,
        otherTermsAt center item tick1 = otherTermsAt center item tick2 ->
        Forall small (otherTermsAt center item tick1) ->
        popularityTerm (withPopularity item (Some 0.2)) = 6
        /\ popularityTerm (withPopularity item (Some 0.8)) = 24
        /\ (fst (recommendedScore center (withPopularity item (Some 0.2)) tick1)
            <? fst (recommendedScore center (withPopularity item (Some 0.8)) tick2))
           = true).
Proof.
  assert (Hfar : forall bound gap center item p1 p2 tick1 tick2,
             isFinite bound = true -> isFinite gap = true ->
             (0 < unitsOf bound <= 2 ^ 32 * one)%Z ->
             (2 ^ 44 * unitsOf gap = unitsOf bound)%Z ->
             otherTermsAt center item tick1 = otherTermsAt center item tick2 ->
             within bound (popularityTerm (withPopularity item p1)) ->
             within bound (popularityTerm (withPopularity item p2)) ->
             Forall (within bound) (otherTermsAt center item tick1) ->
             (popularityTerm (withPopularity item p1) + gap
              <=? popularityTerm (withPopularity item p2)) = true ->
             (fst (recommendedScore center (withPopularity item p1) tick1)
              <? fst (recommendedScore center (withPopularity item p2) tick2))
             = true).
  { intros bound gap center item p1 p2 tick1 tick2 Fb Fg Hb Hg Hsame W1 W2
      Hts Hgap.
    rewrite !recommendedScore_terms, !otherTermsAt_withPopularity, <- Hsame.
    pose proof (otherTerms_length center item (Date_now tick1)
                  (Date_now (urgencyTick item tick1))) as Hlen.
    fold (otherTermsAt center item tick1) in Hlen.
    pose proof (gap_far bound gap _ _ Fb Fg Hb Hg W1 W2 Hgap) as Hapart.
    destruct (within_units _ _ Fb W1) as [F1 B1].
    destruct (within_units _ _ Fb W2) as [F2 B2].
    apply (fold_add_far (unitsOf bound) _ 0); auto; cbn [Z.of_nat]; try lia.
    revert Hts. apply Forall_impl. intros t. now apply within_units. }
  assert (Hgen : forall center item p1 p2 tick1 tick2,
             otherTermsAt center item tick1 = otherTermsAt center item tick2 ->
             small (popularityTerm (withPopularity item p1)) ->
             small (popularityTerm (withPopularity item p2)) ->
             Forall small (otherTermsAt center item tick1) ->
             (popularityTerm (withPopularity item p1)
              <=? popularityTerm (withPopularity item p2)) = true ->
             (fst (recommendedScore center (withPopularity item p1) tick1)
              <=? fst (recommendedScore center (withPopularity item p2) tick2))
             = true
             /\ ((popularityTerm (withPopularity item p1) + 0x1p-12
                  <=? popularityTerm (withPopularity item p2)) = true ->
                 (fst (recommendedScore center (withPopularity item p1) tick1)
                  <? fst (recommendedScore center (withPopularity item p2) tick2))
                 = true)).
  { intros center item p1 p2 tick1 tick2 Hsame S1 S2 Hts Hle. split.
    - rewrite !recommendedScore_terms, !otherTermsAt_withPopularity, <- Hsame.
      pose proof (otherTerms_length center item (Date_now tick1)
                    (Date_now (urgencyTick item tick1))) as Hlen.
      fold (otherTermsAt center item tick1) in Hlen.
      destruct (small_units _ S1) as [F1 B1].
      destruct (small_units _ S2) as [F2 B2].
      apply (fold_add_mono _ 0); auto; cbn [Z.of_nat]; try lia.
      now apply leb_units.
    - apply (Hfar 4294967296 0x1p-12); auto; try reflexivity.
      split; [reflexivity | discriminate]. }
  split; [exact Hgen | split; [|split; [exact otherTermsAt_readings|]]].
  - intros center item p1 p2 tick1 tick2.
    apply (Hfar 32 0x1p-39); try reflexivity.
    split; [reflexivity | discriminate].
  - intros center item tick1 tick2 Hsame Hts.
    split; [reflexivity | split; [reflexivity|]].
    apply Hgen; auto; reflexivity.
Qed.

End Popularity.

(** The popularities 0.25 and 0.5, and the popularities 0.5 and 0.52, on an
    item updated the day before, the one scored after the other. *)
Lemma recommended_popularity_strict_witness :
  (fst (recommendedScore (rt := exampleRuntime) None
          (withPopularity (reviewed "2025-06-09T10:00:00Z") (Some 0.25%float)) 0)
   <? fst (recommendedScore (rt := exampleRuntime) None
             (withPopularity (reviewed "2025-06-09T10:00:00Z") (Some 0.5%float))
             1))%float
  = true
  /\ (fst (recommendedScore (rt := exampleRuntime) None
             (withPopularity (reviewed "2025-06-09T10:00:00Z") (Some 0.5%float))
             0)
      <? fst (recommendedScore (rt := exampleRuntime) None
                (withPopularity (reviewed "2025-06-09T10:00:00Z")
                   (Some 0.52%float)) 1))%float
     = true.
Proof.
  split.
  - apply (proj1 (recommended_popularity_strict (rt := exampleRuntime))
             None (reviewed "2025-06-09T10:00:00Z") (Some 0.25%float)
             (Some 0.5%float) 0%nat 1%nat);
      try (vm_compute; reflexivity).
    repeat constructor; vm_compute; reflexivity.
  - apply (proj1 (proj2 (recommended_popularity_strict (rt := exampleRuntime)))
             None (reviewed "2025-06-09T10:00:00Z") (Some 0.5%float)
             (Some 0.52%float) 0%nat 1%nat);
      try (vm_compute; reflexivity).
    repeat constructor; vm_compute; reflexivity.
Defined.

(** C9 as stated fails in three ways.  The popularity 0.30000000000000004 is
    higher than 0.3, and both items are scored 33: the difference of the
    popularity terms is lost when the recency term is added.  With a date of
    last update that [Date] cannot read, both scores are NaN, for the
    popularities 0.2 and 0.8 as for any others.  And the clock is read anew
    for every item: of two events that start a day after the first reading,
    the one of popularity 0.8 is scored 29 at the first reading and the one
    of popularity 0.75 is scored 29.5 a millisecond later, when the start is
    less than a day away, and is ranked first. *)
Lemma recommended_popularity_ties :
  ((0.3 <? 0.30000000000000004)%float = true
   /\ fst (recommendedScore (rt := exampleRuntime) None
             (withPopularity (reviewed "2025-06-09T10:00:00Z") (Some 0.3%float))
             0)
      = 33%float
   /\ fst (recommendedScore (rt := exampleRuntime) None
             (withPopularity (reviewed "2025-06-09T10:00:00Z")
                (Some 0.30000000000000004%float)) 1)
      = 33%float)
  /\ (fst (recommendedScore (rt := exampleRuntime) None
             (withPopularity (reviewed "yesterday") (Some 0.2%float)) 0)
      <? fst (recommendedScore (rt := exampleRuntime) None
                (withPopularity (reviewed "yesterday") (Some 0.8%float)) 1))%float
     = false
  /\ (fst (recommendedScore (rt := tickingRuntime) None
             (withPopularity tomorrowWalk (Some 0.8%float)) 0)
      = 29%float
      /\ fst (recommendedScore (rt := tickingRuntime) None
                (withPopularity tomorrowWalk (Some 0.75%float)) 1)
         = 29.5%float
      /\ rank (rt := tickingRuntime)
           [withPopularity tomorrowWalk (Some 0.8%float);
            withPopularity tomorrowWalk (Some 0.75%float)] noParams
         = [with_score (withPopularity tomorrowWalk (Some 0.75%float)) 29.5%float;
            with_score (withPopularity tomorrowWalk (Some 0.8%float)) 29%float]).
Proof. repeat split; vm_compute; reflexivity. Qed.

(** ** Further properties *)

(** *** levenshteinDistance: the matrix and the edit distance *)

Lemma editDistance_nil_r s : editDistance s [] = List.length s.
Proof. destruct s; reflexivity. Qed.

Lemma editDistance_nil_l t : editDistance [] t = List.length t.
Proof. destruct t; reflexivity. Qed.

Lemma editDistance_cons a s b t :
  editDistance (a :: s) (b :: t)
  = if Ascii.eqb a b then editDistance s t
    else S (Nat.min (editDistance s t)
              (Nat.min (editDistance (a :: s) t) (editDistance s (b :: t)))).
Proof. reflexivity. Qed.

(** One turn of the loop on [i] fills the row of the word that is one
    character longer. *)
Lemma fill_row_rowCells c u s : forall p,
  fill_row c s (rowCells u p s) (editDistance u p) (editDistance (c :: u) p)
  = rowCells (c :: u) p s.
Proof.
  induction s as [|a s IH]; intros p; cbn [rowCells fill_row]; [reflexivity|].
  rewrite editDistance_cons.
  destruct (Ascii.eqb c a) eqn:E.
  - f_equal. rewrite <- (IH (a :: p)). f_equal.
    rewrite editDistance_cons, E. reflexivity.
  - replace (Nat.min (editDistance u p + 1)
               (Nat.min (editDistance (c :: u) p + 1) (editDistance u (a :: p) + 1)))
      with (S (Nat.min (editDistance u p)
                 (Nat.min (editDistance (c :: u) p) (editDistance u (a :: p)))))
      by lia.
    f_equal. rewrite <- (IH (a :: p)). f_equal.
    rewrite editDistance_cons, E. reflexivity.
Qed.

Lemma fill_rows_rowCells str1 str2 : forall u,
  fill_rows str1 str2 (List.length u) (editDistance u [] :: rowCells u [] str1)
  = editDistance (reversed str2 ++ u) []
      :: rowCells (reversed str2 ++ u) [] str1.
Proof.
  unfold reversed.
  induction str2 as [|c str2 IH]; intros u; cbn [fill_rows list_ascii_of_string rev].
  - reflexivity.
  - cbn [tl hd].
    replace (S (List.length u)) with (editDistance (c :: u) []) at 2
      by (rewrite editDistance_nil_r; reflexivity).
    rewrite fill_row_rowCells.
    change (S (List.length u)) with (List.length (c :: u)).
    rewrite IH. rewrite <- app_assoc. reflexivity.
Qed.

Lemma last_rowCells u s : forall p,
  last (editDistance u p :: rowCells u p s) 0%nat
  = editDistance u (reversed s ++ p).
Proof.
  unfold reversed. induction s as [|a s IH]; intros p.
  - reflexivity.
  - cbn [rowCells list_ascii_of_string rev].
    rewrite <- app_assoc. cbn [app]. rewrite <- IH.
    reflexivity.
Qed.

Lemma seq_rowCells s : forall p,
  seq (S (List.length p)) (String.length s) = rowCells [] p s.
Proof.
  induction s as [|a s IH]; intros p; cbn [String.length seq rowCells]; [reflexivity|].
  f_equal. apply (IH (a :: p)).
Qed.

(** The last cell of the matrix is the edit distance of the two strings,
    read from their ends. *)
Lemma levenshteinDistance_editDistance str1 str2 :
  levenshteinDistance str1 str2 = editDistance (reversed str2) (reversed str1).
Proof.
  unfold levenshteinDistance.
  cbn [seq]. pose proof (seq_rowCells str1 []) as Hrow.
  cbn [List.length] in Hrow. rewrite Hrow.
  pose proof (fill_rows_rowCells str1 str2 []) as Hfill.
  change (editDistance [] []) with 0%nat in Hfill.
  cbn [List.length] in Hfill. rewrite Hfill, last_rowCells.
  rewrite !app_nil_r. reflexivity.
Qed.

Lemma editDistance_sym s : forall t, editDistance s t = editDistance t s.
Proof.
  induction s as [|a s IHs]; intros t.
  - rewrite editDistance_nil_r. apply editDistance_nil_l.
  - induction t as [|b t IHt].
    + reflexivity.
    + rewrite !editDistance_cons.
      rewrite (Ascii.eqb_sym b a).
      destruct (Ascii.eqb a b); [apply IHs|].
      rewrite IHt, (IHs t), (IHs (b :: t)). lia.
Qed.

Lemma editDistance_zero s : forall t, editDistance s t = 0%nat <-> s = t.
Proof.
  induction s as [|a s IH]; intros [|b t].
  - split; reflexivity.
  - split; discriminate.
  - split; discriminate.
  - rewrite editDistance_cons.
    destruct (Ascii.eqb a b) eqn:E.
    + apply Ascii.eqb_eq in E. subst b. rewrite IH.
      split; [intros ->; reflexivity | intros H; now inversion H].
    + apply Ascii.eqb_neq in E. split; [discriminate|].
      intros H. inversion H. contradiction.
Qed.

Lemma editDistance_upper s : forall t,
  (editDistance s t <= Nat.max (List.length s) (List.length t))%nat.
Proof.
  induction s as [|a s IH]; intros [|b t];
    rewrite ?editDistance_nil_l, ?editDistance_nil_r; cbn [List.length]; try lia.
  rewrite editDistance_cons.
  pose proof (IH t). destruct (Ascii.eqb a b); lia.
Qed.

Lemma editDistance_lower s : forall t,
  (List.length s - List.length t <= editDistance s t
   /\ List.length t - List.length s <= editDistance s t)%nat.
Proof.
  induction s as [|a s IHs]; intros t.
  - rewrite editDistance_nil_l. cbn [List.length]. lia.
  - induction t as [|b t IHt].
    + rewrite editDistance_nil_r. cbn [List.length]. lia.
    + rewrite editDistance_cons. cbn [List.length].
      pose proof (IHs t). pose proof (IHs (b :: t)) as H2. cbn [List.length] in *.
      destruct (Ascii.eqb a b); lia.
Qed.

(** Dropping the first character of a word changes the distance by one at
    most. *)
Lemma editDistance_step n : forall s t a,
  (List.length s + List.length t <= n)%nat ->
  (editDistance (a :: s) t <= S (editDistance s t)
   /\ editDistance s t <= S (editDistance (a :: s) t))%nat.
Proof.
  induction n as [|n IH]; intros s t a Hn.
  - destruct s, t; cbn [List.length] in Hn; try lia. cbn; lia.
  - destruct t as [|b t].
    + rewrite !editDistance_nil_r. cbn [List.length]. lia.
    + cbn [List.length] in Hn.
      destruct (IH t s b ltac:(lia)) as [HA HB].
      rewrite (editDistance_sym (b :: t) s), (editDistance_sym t s) in HA, HB.
      destruct (IH s t a ltac:(lia)) as [_ HB'].
      rewrite editDistance_cons.
      destruct (Ascii.eqb a b); lia.
Qed.

Lemma editDistance_drop_l a s t :
  (editDistance (a :: s) t <= S (editDistance s t)
   /\ editDistance s t <= S (editDistance (a :: s) t))%nat.
Proof. now apply (editDistance_step (List.length s + List.length t)). Qed.

Lemma editDistance_drop_r b s t :
  (editDistance s (b :: t) <= S (editDistance s t)
   /\ editDistance s t <= S (editDistance s (b :: t)))%nat.
Proof.
  rewrite (editDistance_sym s (b :: t)), (editDistance_sym s t).
  apply editDistance_drop_l.
Qed.

Lemma editDistance_triangle n : forall s t u,
  (List.length s + List.length t + List.length u <= n)%nat ->
  (editDistance s u <= editDistance s t + editDistance t u)%nat.
Proof.
  induction n as [|n IH]; intros s t u Hn.
  - destruct s, t, u; cbn [List.length] in Hn; cbn; lia.
  - destruct s as [|a s].
    { rewrite !editDistance_nil_l.
      pose proof (editDistance_lower t u). lia. }
    destruct u as [|c u].
    { rewrite !editDistance_nil_r.
      pose proof (editDistance_lower (a :: s) t). lia. }
    destruct t as [|b t].
    { rewrite editDistance_nil_r, editDistance_nil_l.
      pose proof (editDistance_upper (a :: s) (c :: u)). lia. }
    cbn [List.length] in Hn.
    pose proof (IH s t u ltac:(lia)) as T1.
    pose proof (IH (a :: s) (b :: t) u ltac:(cbn [List.length]; lia)) as T2.
    pose proof (IH s t (c :: u) ltac:(cbn [List.length]; lia)) as T3.
    pose proof (IH s (b :: t) (c :: u) ltac:(cbn [List.length]; lia)) as T4.
    pose proof (IH (a :: s) t (c :: u) ltac:(cbn [List.length]; lia)) as T5.
    pose proof (editDistance_drop_l a s (c :: u)) as L1.
    pose proof (editDistance_drop_r c (a :: s) u) as L2.
    pose proof (editDistance_drop_l b t (c :: u)) as L3.
    pose proof (editDistance_drop_l a s u) as L4.
    pose proof (editDistance_drop_r c s u) as L5.
    pose proof (editDistance_cons a s b t) as E1.
    pose proof (editDistance_cons b t c u) as E2.
    pose proof (editDistance_cons a s c u) as E3.
    destruct (Ascii.eqb a b) eqn:Eab, (Ascii.eqb b c) eqn:Ebc,
      (Ascii.eqb a c) eqn:Eac;
      rewrite ?Ascii.eqb_eq, ?Ascii.eqb_neq in *; try congruence; lia.
Qed.

Lemma list_ascii_of_string_length s :
  List.length (list_ascii_of_string s) = String.length s.
Proof. induction s as [|c s IH]; cbn; congruence. Qed.

Lemma list_ascii_of_string_app s t :
  list_ascii_of_string (s ++ t)
  = (list_ascii_of_string s ++ list_ascii_of_string t)%list.
Proof. induction s as [|c s IH]; cbn; congruence. Qed.

Lemma list_ascii_of_string_inj s t :
  list_ascii_of_string s = list_ascii_of_string t -> s = t.
Proof.
  intros H. rewrite <- (string_of_list_ascii_of_string s),
    <- (string_of_list_ascii_of_string t). now rewrite H.
Qed.

Lemma reversed_length s : List.length (reversed s) = String.length s.
Proof. unfold reversed. now rewrite length_rev, list_ascii_of_string_length. Qed.

Lemma reversed_snoc s a : reversed (s ++ String a EmptyString) = a :: reversed s.
Proof.
  unfold reversed. rewrite list_ascii_of_string_app, rev_app_distr. reflexivity.
Qed.

Lemma reversed_inj s t : reversed s = reversed t -> s = t.
Proof.
  unfold reversed. intros H. apply list_ascii_of_string_inj.
  rewrite <- (rev_involutive (list_ascii_of_string s)), H.
  apply rev_involutive.
Qed.

(** X1.  levenshteinDistance computes the edit distance by its recurrence:
    against the empty string the distance is the length of the other string;
    two strings that end in the same character are as far apart as the
    strings without it; and two strings that end in different characters are
    one step further apart than the nearest of the three pairs in which one
    of them or both have lost their last character. *)
Theorem levenshteinDistance_recurrence :
  (forall str, levenshteinDistance str EmptyString = String.length str)
  /\ (forall str, levenshteinDistance EmptyString str = String.length str)
  /\ (forall str1 str2 a c,
        levenshteinDistance (str1 ++ String a EmptyString)
          (str2 ++ String c EmptyString)
        = if Ascii.eqb c a then levenshteinDistance str1 str2
          else S (Nat.min (levenshteinDistance str1 str2)
                    (Nat.min
                       (levenshteinDistance str1 (str2 ++ String c EmptyString))
                       (levenshteinDistance (str1 ++ String a EmptyString) str2)))).
Proof.
  split; [|split]; intros.
  - rewrite levenshteinDistance_editDistance.
    change (reversed EmptyString) with (@nil ascii).
    rewrite editDistance_nil_l. apply reversed_length.
  - rewrite levenshteinDistance_editDistance.
    change (reversed EmptyString) with (@nil ascii).
    rewrite editDistance_nil_r. apply reversed_length.
  - rewrite !levenshteinDistance_editDistance.
    rewrite !reversed_snoc. apply editDistance_cons.
Qed.

(** X2.  levenshteinDistance is symmetric. *)
Theorem levenshteinDistance_symmetric :
  forall str1 str2,
    levenshteinDistance str1 str2 = levenshteinDistance str2 str1.
Proof.
  intros. rewrite !levenshteinDistance_editDistance. apply editDistance_sym.
Qed.

(** X3.  The distance of two strings is 0 exactly when they are the same
    string. *)
Theorem levenshteinDistance_zero :
  forall str1 str2, levenshteinDistance str1 str2 = 0%nat <-> str1 = str2.
Proof.
  intros. rewrite levenshteinDistance_editDistance, editDistance_zero.
  split.
  - intros H. symmetry. now apply reversed_inj.
  - now intros ->.
Qed.

(** X4.  The distance of two strings is at least the difference of their
    lengths and at most the greater of their lengths. *)
Theorem levenshteinDistance_bounds :
  forall str1 str2,
    (String.length str1 - String.length str2 <= levenshteinDistance str1 str2
     /\ String.length str2 - String.length str1 <= levenshteinDistance str1 str2
     /\ levenshteinDistance str1 str2
        <= Nat.max (String.length str1) (String.length str2))%nat.
Proof.
  intros. rewrite levenshteinDistance_editDistance.
  pose proof (editDistance_lower (reversed str2) (reversed str1)) as Hl.
  pose proof (editDistance_upper (reversed str2) (reversed str1)) as Hu.
  rewrite !reversed_length in *. lia.
Qed.

(** X5.  levenshteinDistance satisfies the triangle inequality. *)
Theorem levenshteinDistance_triangle :
  forall str1 str2 str3,
    (levenshteinDistance str1 str3
     <= levenshteinDistance str1 str2 + levenshteinDistance str2 str3)%nat.
Proof.
  intros. rewrite !levenshteinDistance_editDistance.
  rewrite Nat.add_comm. eapply editDistance_triangle. apply Nat.le_refl.
Qed.

(** X6.  stringSimilarity does not depend on the order of its arguments, and
    a string is as similar to itself as can be. *)
Theorem stringSimilarity_symmetric :
  forall str1 str2,
    stringSimilarity str1 str2 = stringSimilarity str2 str1
    /\ stringSimilarity str1 str1 = 1%float.
Proof.
  intros str1 str2. unfold stringSimilarity. split.
  - rewrite (String.eqb_sym (Js.trim (Js.toLowerCase str2))).
    rewrite (orb_comm (String.length (Js.trim (Js.toLowerCase str2)) =? 0)%nat).
    rewrite (Nat.max_comm (String.length (Js.trim (Js.toLowerCase str2)))).
    rewrite (levenshteinDistance_editDistance (Js.trim (Js.toLowerCase str2))).
    rewrite (levenshteinDistance_editDistance (Js.trim (Js.toLowerCase str1))).
    rewrite (editDistance_sym (reversed (Js.trim (Js.toLowerCase str1)))).
    reflexivity.
  - now rewrite String.eqb_refl.
Qed.

(** *** normalize: the titles and the times *)

Lemma lower_char_not_upper c :
  ((65 <=? nat_of_ascii (Js.lower_char c))
   && (nat_of_ascii (Js.lower_char c) <=? 90))%nat = false.
Proof.
  unfold Js.lower_char, Js.code.
  pose proof (nat_ascii_bounded c) as Hb.
  destruct ((65 <=? nat_of_ascii c) && (nat_of_ascii c <=? 90)
            || (192 <=? nat_of_ascii c) && (nat_of_ascii c <=? 222)
               && negb (nat_of_ascii c =? 215))%nat eqn:E.
  - rewrite nat_ascii_embedding.
    + apply andb_false_iff.
      rewrite orb_true_iff, !andb_true_iff, !Nat.leb_le in E.
      rewrite !Nat.leb_gt. lia.
    + rewrite orb_true_iff, !andb_true_iff, !Nat.leb_le in E. lia.
  - apply orb_false_iff in E as [E _]. exact E.
Qed.

Lemma toLowerCase_noUpperCase s : noUpperCase (Js.toLowerCase s) = true.
Proof.
  induction s as [|c s IH]; cbn [Js.toLowerCase noUpperCase]; [reflexivity|].
  now rewrite lower_char_not_upper, IH.
Qed.

Lemma trimStart_noUpperCase s :
  noUpperCase s = true -> noUpperCase (Js.trimStart s) = true.
Proof.
  induction s as [|c s IH]; cbn [Js.trimStart noUpperCase]; [reflexivity|].
  intros H. apply andb_true_iff in H as [H1 H2].
  destruct (Js.is_space c); [now apply IH|].
  cbn [noUpperCase]. now rewrite H1, H2.
Qed.

Lemma trimEnd_noUpperCase s :
  noUpperCase s = true -> noUpperCase (Js.trimEnd s) = true.
Proof.
  induction s as [|c s IH]; cbn [Js.trimEnd noUpperCase]; [reflexivity|].
  intros H. apply andb_true_iff in H as [H1 H2]. specialize (IH H2).
  destruct (Js.trimEnd s) as [|d t].
  - destruct (Js.is_space c); [reflexivity|].
    cbn [noUpperCase]. now rewrite H1.
  - cbn [noUpperCase] in *. now rewrite H1, IH.
Qed.

Lemma isTitleChar_word c :
  ((65 <=? nat_of_ascii c) && (nat_of_ascii c <=? 90))%nat = false ->
  Js.is_word c = true -> isTitleChar c = true.
Proof.
  unfold Js.is_word, isTitleChar, Js.code.
  rewrite andb_false_iff, !orb_true_iff, !andb_true_iff, !Nat.leb_le,
    !Nat.leb_gt, !Nat.eqb_eq.
  lia.
Qed.

Lemma strip_punctuation_chars s :
  noUpperCase s = true ->
  forall in_run,
    allTitleChars (Js.collapse_spaces_from in_run (Js.strip_punctuation s)) = true.
Proof.
  induction s as [|c s IH]; cbn [Js.strip_punctuation noUpperCase];
    intros H in_run; [reflexivity|].
  apply andb_true_iff in H as [H1 H2]. apply negb_true_iff in H1.
  destruct (Js.is_word c) eqn:Hw; cbn [orb].
  - cbn [Js.collapse_spaces_from].
    destruct (Js.is_space c) eqn:Hs.
    + destruct in_run; cbn [allTitleChars]; rewrite ?IH; auto.
    + cbn [allTitleChars]. rewrite isTitleChar_word, IH; auto.
  - destruct (Js.is_space c) eqn:Hs; [|now apply IH].
    cbn [Js.collapse_spaces_from]. rewrite Hs.
    destruct in_run; cbn [allTitleChars]; rewrite ?IH; auto.
Qed.

Lemma collapse_singleSpaced s : forall in_run,
  singleSpacedFrom in_run (Js.collapse_spaces_from in_run s) = true.
Proof.
  induction s as [|c s IH]; intros in_run; cbn [Js.collapse_spaces_from].
  - reflexivity.
  - destruct (Js.is_space c) eqn:Hs.
    + destruct in_run; [apply IH|].
      cbn [singleSpacedFrom]. rewrite Ascii.eqb_refl. apply IH.
    + cbn [singleSpacedFrom].
      destruct (Ascii.eqb c " ") eqn:Ec; [|apply IH].
      apply Ascii.eqb_eq in Ec. subst c. discriminate.
Qed.

(** X7.  A normalized title is made of lower-case letters, digits,
    underscores and spaces, and has no two spaces in a row. *)
Theorem normalizeTitle_alphabet :
  forall t,
    allTitleChars (normalizeTitle t) = true
    /\ singleSpaced (normalizeTitle t) = true.
Proof.
  intros t. unfold normalizeTitle, Js.collapse_spaces, Js.trim. split.
  - apply strip_punctuation_chars.
    apply trimEnd_noUpperCase, trimStart_noUpperCase, toLowerCase_noUpperCase.
  - apply collapse_singleSpaced.
Qed.

Section NormalizeTimes.

Context {rt : Runtime}.

Lemma convertTime_truthy time zone target :
  Js.truthy_str (convertTime time zone target) = Js.truthy_str time.
Proof.
  unfold convertTime.
  destruct time as [t|]; [|reflexivity].
  destruct zone as [z|]; [|reflexivity].
  destruct (Js.truthy_str (Some t) && Js.truthy_str (Some z)
            && negb (String.eqb z target)) eqn:E; [|reflexivity].
  apply andb_true_iff in E as [E _]. apply andb_true_iff in E as [E _].
  destruct (setZone t z target) as [t'|]; [|reflexivity].
  destruct (String.eqb t' EmptyString) eqn:Et; [reflexivity|].
  rewrite E. cbn [Js.truthy_str]. now rewrite Et.
Qed.

Lemma convertTime_same_zone time zone target :
  zone = None \/ zone = Some EmptyString \/ zone = Some target ->
  convertTime time zone target = time.
Proof.
  unfold convertTime. destruct time as [t|]; [|reflexivity].
  intros [->|[->| ->]]; [reflexivity| |].
  - cbn [Js.truthy_str String.eqb negb andb]. now rewrite andb_false_r.
  - rewrite String.eqb_refl. cbn [negb]. now rewrite andb_false_r.
Qed.

(** X8.  normalize neither drops nor invents a start time or an end time,
    whatever the zone conversion gives; it leaves the two times as they are
    when the item names no zone or names the target zone; and every item it
    returns has a date of last update, the reading of the clock that is made
    for it (a date, not the empty string) where the source gave none. *)
Theorem normalizeItem_times :
  forall target item tick,
    Js.truthy_str (startTime (fst (normalizeItem target item tick)))
    = Js.truthy_str (startTime item)
    /\ Js.truthy_str (endTime (fst (normalizeItem target item tick)))
       = Js.truthy_str (endTime item)
    /\ (timezone item = None \/ timezone item = Some EmptyString
        \/ timezone item = Some target ->
        startTime (fst (normalizeItem target item tick)) = startTime item
        /\ endTime (fst (normalizeItem target item tick)) = endTime item)
    /\ (now_iso tick <> EmptyString ->
        Js.truthy_str (lastUpdated (fst (normalizeItem target item tick)))
        = true).
Proof.
  intros target item tick. unfold normalizeItem.
  cbn [fst base startTime endTime timezone lastUpdated].
  repeat split.
  - apply convertTime_truthy.
  - apply convertTime_truthy.
  - now apply convertTime_same_zone.
  - now apply convertTime_same_zone.
  - intros Hnow. destruct (Js.truthy_str (lastUpdated item)) eqn:E; [exact E|].
    cbn [Js.truthy_str]. apply negb_true_iff. now apply String.eqb_neq.
Qed.

End NormalizeTimes.

(** The first item of the merge example names no zone: its start time is
    kept, and it gets the date of the clock as its date of last update. *)
Lemma normalizeItem_times_witness :
  startTime (fst (normalizeItem (rt := exampleRuntime) "Europe/Lisbon" jazzA 0))
  = startTime jazzA
  /\ Js.truthy_str
       (lastUpdated
          (fst (normalizeItem (rt := exampleRuntime) "Europe/Lisbon" jazzA 0)))
     = true.
Proof.
  destruct (normalizeItem_times (rt := exampleRuntime) "Europe/Lisbon" jazzA
              0%nat)
    as [_ [_ [Hzone Hupdated]]].
  split.
  - apply Hzone. left. reflexivity.
  - apply Hupdated. discriminate.
Defined.

(** *** dedupe: what the scan keeps *)

Lemma Subseq_length {A : Type} (kept l : list A) :
  Subseq kept l -> (List.length kept <= List.length l)%nat.
Proof. induction 1; cbn [List.length]; lia. Qed.

Lemma Subseq_In {A : Type} (kept l : list A) (x : A) :
  Subseq kept l -> In x kept -> In x l.
Proof.
  induction 1; cbn [In]; intros H'; auto.
  destruct H'; auto.
Qed.

Lemma Subseq_NoDup {A : Type} (kept l : list A) :
  Subseq kept l -> NoDup l -> NoDup kept.
Proof.
  induction 1 as [|x kept l H IH|x kept l H IH]; intros Hl.
  - constructor.
  - inversion Hl; auto.
  - inversion Hl as [|? ? Hx Hl']; subst. constructor; auto.
    intros Hin. apply Hx. now apply (Subseq_In kept l).
Qed.

Section DedupeInvariants.

Context {rt : Runtime}.

(** A match rewrites one representative and leaves the identifiers as they
    are; what it writes is the item, under the identifier that was there;
    and the item and the representative have start times. *)
Lemma scanUnique_Some item : forall uniqueItems updated,
  scanUnique item uniqueItems = Some updated ->
  map id updated = map id uniqueItems
  /\ (forall u, In u updated ->
        In u uniqueItems \/ u = with_id item (id u))
  /\ filter untimed updated = filter untimed uniqueItems
  /\ Js.truthy_str (startTime item) = true.
Proof.
  induction uniqueItems as [|r rest IH]; intros updated H; cbn [scanUnique] in H.
  - discriminate.
  - destruct (isDuplicateOf item r) eqn:Hdup.
    + assert (Ht : Js.truthy_str (startTime item) = true
                  /\ Js.truthy_str (startTime r) = true).
      { unfold isDuplicateOf, timeSimilar in Hdup.
        destruct (Js.truthy_str (startTime item)), (Js.truthy_str (startTime r));
          cbn [andb] in Hdup; rewrite ?andb_false_r in Hdup;
          cbn [orb] in Hdup; try discriminate. auto. }
      destruct Ht as [Hti Htr].
      destruct (hasMoreInformation item r); inversion H; subst; clear H.
      * repeat split; auto.
        -- intros u [<-|Hu]; [right; reflexivity | left; now right].
        -- cbn [filter].
           replace (untimed (with_id item (id r))) with false
             by (unfold untimed; cbn [with_id base]; now rewrite Hti).
           replace (untimed r) with false
             by (unfold untimed; now rewrite Htr).
           reflexivity.
      * repeat split; auto.
    + destruct (scanUnique item rest) as [updated'|] eqn:Hscan; [|discriminate].
      inversion H; subst; clear H.
      destruct (IH updated' eq_refl) as [Hids [Hin [Hf Hti]]].
      repeat split; auto.
      * cbn [map]. now rewrite Hids.
      * intros u [<-|Hu]; [left; now left|].
        destruct (Hin u Hu); [left; now right | now right].
      * cbn [filter]. now rewrite Hf.
Qed.

Lemma scanUnique_None item : forall uniqueItems,
  scanUnique item uniqueItems = None <->
  Forall (fun r => isDuplicateOf item r = false) uniqueItems.
Proof.
  induction uniqueItems as [|r rest IH]; cbn [scanUnique].
  - split; [constructor | reflexivity].
  - destruct (isDuplicateOf item r) eqn:Hdup.
    + split.
      * destruct (hasMoreInformation item r); discriminate.
      * intros H. inversion H; congruence.
    + destruct (scanUnique item rest).
      * split; [discriminate|]. intros H. inversion H; subst.
        apply IH in H3. discriminate.
      * split; [|reflexivity]. intros _. constructor; [assumption|].
        now apply IH.
Qed.

(** The loop of dedupe, started from the representatives [kept]. *)
Lemma dedupe_from items : forall kept,
  (exists ids, map id (fold_left dedupeStep items kept) = map id kept ++ ids
               /\ Subseq ids (map id items))
  /\ (forall u, In u (fold_left dedupeStep items kept) ->
        In u kept \/ exists item, In item items /\ u = with_id item (id u))
  /\ filter untimed (fold_left dedupeStep items kept)
     = filter untimed kept ++ filter untimed items.
Proof.
  induction items as [|item items IH]; intros kept; cbn [fold_left].
  - split; [|split].
    + exists []. split; [now rewrite app_nil_r | constructor].
    + auto.
    + now rewrite app_nil_r.
  - destruct (IH (dedupeStep kept item)) as [[ids [Hids Hsub]] [Hin Hf]].
    clear IH.
    assert (Hstep : dedupeStep kept item
                    = match scanUnique item kept with
                      | Some updated => updated
                      | None => kept ++ [item]
                      end) by reflexivity.
    destruct (scanUnique item kept) as [updated|] eqn:Hscan;
      rewrite Hstep in *; clear Hstep.
    + destruct (scanUnique_Some _ _ _ Hscan) as [Hids' [Hin' [Hf' Hti]]].
      split; [|split].
      * exists ids. split; [now rewrite Hids, Hids'|]. now constructor.
      * intros u Hu. destruct (Hin u Hu) as [Hk|[it [Hit Hu']]].
        -- destruct (Hin' u Hk); [now left|].
           right. exists item. split; [now left | assumption].
        -- right. exists it. split; [now right | assumption].
      * rewrite Hf, Hf'. cbn [filter].
        replace (untimed item) with false
          by (unfold untimed; now rewrite Hti).
        reflexivity.
    + split; [|split].
      * exists (id item :: ids). split.
        -- rewrite Hids, map_app, <- app_assoc. reflexivity.
        -- now constructor.
      * intros u Hu. destruct (Hin u Hu) as [Hk|[it [Hit Hu']]].
        -- apply in_app_or in Hk as [Hk|[<-|[]]]; [now left|].
           right. exists item. split; [now left|]. now destruct item.
        -- right. exists it. split; [now right | assumption].
      * rewrite Hf, filter_app, <- app_assoc. f_equal.
        cbn [filter]. destruct (untimed item); reflexivity.
Qed.

Lemma dedupe_Subseq items : Subseq (map id (dedupe items)) (map id items).
Proof.
  unfold dedupe. destruct (dedupe_from items []) as [[ids [Hids Hsub]] _].
  cbn [map app] in Hids. now rewrite Hids.
Qed.

Lemma dedupe_In items u :
  In u (dedupe items) -> exists item, In item items /\ u = with_id item (id u).
Proof.
  intros Hu. unfold dedupe in Hu.
  destruct (dedupe_from items []) as [_ [Hin _]].
  destruct (Hin u Hu) as [[]|H]. exact H.
Qed.

Lemma dedupe_filter_untimed items :
  filter untimed (dedupe items) = filter untimed items.
Proof.
  unfold dedupe. destruct (dedupe_from items []) as [_ [_ Hf]]. exact Hf.
Qed.

(** X9.  dedupe keeps identifiers of its input, in the order of the input:
    it invents no identifier, a group goes under the identifier of its first
    item, the result is no longer than the input, the identifier of the
    first item heads the result, and identifiers that are distinct in the
    input are distinct in the result. *)
Theorem dedupe_identifiers :
  forall items,
    Subseq (map id (dedupe items)) (map id items)
    /\ (List.length (dedupe items) <= List.length items)%nat
    /\ hd_error (map id (dedupe items)) = hd_error (map id items)
    /\ (NoDup (map id items) -> NoDup (map id (dedupe items))).
Proof.
  intros items. pose proof (dedupe_Subseq items) as Hsub.
  split; [exact Hsub | split; [|split]].
  - apply Subseq_length in Hsub. now rewrite !length_map in Hsub.
  - unfold dedupe. destruct items as [|item items]; [reflexivity|].
    cbn [fold_left]. unfold dedupeStep at 2. cbn [scanUnique app].
    destruct (dedupe_from items [item]) as [[ids [Hids _]] _].
    rewrite Hids. reflexivity.
  - now apply Subseq_NoDup.
Qed.

(** X10.  Every item of the result of dedupe is an item of the input, under
    its own identifier or under the identifier of the representative it
    replaced: dedupe merges no fields. *)
Theorem dedupe_content :
  forall items u,
    In u (dedupe items) ->
    exists item, In item items /\ u = with_id item (id u).
Proof. intros items u. apply dedupe_In. Qed.

(** X11.  dedupe never merges an item without a start time, and never
    replaces one: the items without a start time go through as they are, in
    their order, identical records included. *)
Theorem dedupe_untimed :
  forall items, filter untimed (dedupe items) = filter untimed items.
Proof.
  intros items. rewrite dedupe_filter_untimed. reflexivity.
Qed.

Lemma dedupe_duplicateFree_from items : forall kept,
  duplicateFree (kept ++ items) ->
  fold_left dedupeStep items kept = kept ++ items.
Proof.
  induction items as [|item items IH]; intros kept H; cbn [fold_left].
  - now rewrite app_nil_r.
  - assert (Hnone : scanUnique item kept = None).
    { apply scanUnique_None. unfold duplicateFree in H.
      clear IH. induction kept as [|r kept IHk]; [constructor|].
      cbn [app] in H. inversion H as [|? ? Hr Hrest]; subst.
      constructor.
      - rewrite Forall_forall in Hr. apply Hr. apply in_or_app. right. now left.
      - now apply IHk. }
    unfold dedupeStep. rewrite Hnone.
    rewrite IH; rewrite <- app_assoc; [reflexivity | exact H].
Qed.

(** X12.  dedupe returns its input as it is when no item is a duplicate of
    an item before it. *)
Theorem dedupe_duplicateFree :
  forall items, duplicateFree items -> dedupe items = items.
Proof.
  intros items H. unfold dedupe.
  now rewrite (dedupe_duplicateFree_from items []).
Qed.

End DedupeInvariants.

(** The two items of the merge example have distinct identifiers, and so has
    what dedupe makes of them. *)
Lemma dedupe_identifiers_witness :
  NoDup (map id (dedupe (rt := exampleRuntime) [normalizedJazzA; normalizedJazzB])).
Proof.
  apply (proj2 (proj2 (proj2
           (dedupe_identifiers (rt := exampleRuntime)
              [normalizedJazzA; normalizedJazzB])))).
  vm_compute. constructor.
  - intros [H|[]]. discriminate.
  - constructor; [intros [] | constructor].
Defined.

(** The one item that is left of the merge example is its second item, under
    the identifier of the first. *)
Lemma dedupe_content_witness :
  exists item,
    In item [normalizedJazzA; normalizedJazzB]
    /\ with_id normalizedJazzB (id normalizedJazzA)
       = with_id item (id (with_id normalizedJazzB (id normalizedJazzA))).
Proof.
  apply (dedupe_content (rt := exampleRuntime)
           [normalizedJazzA; normalizedJazzB]
           (with_id normalizedJazzB (id normalizedJazzA))).
  vm_compute. left. reflexivity.
Defined.

(** Two walks of one title, two hours apart, are both kept. *)
Lemma dedupe_duplicateFree_witness :
  dedupe (rt := exampleRuntime) [morningWalk; laterWalk]
  = [morningWalk; laterWalk].
Proof.
  apply (dedupe_duplicateFree (rt := exampleRuntime)).
  constructor.
  - constructor; [vm_compute; reflexivity | constructor].
  - constructor; [constructor | constructor].
Defined.

(** *** filterByDateRange: the window *)

Section Window.

Import F64 F64Facts.

Open Scope float_scope.

Context {rt : Runtime}.

Lemma leb_nan_l (x y : float) : is_nan x = true -> (x <=? y) = false.
Proof.
  intros H. rewrite leb_spec, (is_nan_true x H). reflexivity.
Qed.

Lemma leb_nan_r (x y : float) : is_nan y = true -> (x <=? y) = false.
Proof.
  intros H. rewrite leb_spec, (is_nan_true y H). unfold SFleb.
  destruct (Prim2SF x); reflexivity.
Qed.

Lemma leb_place (x y : float) :
  is_nan x = false -> is_nan y = false ->
  (x <=? y) = true
  <-> before (placeOf x) (placeOf y) \/ level (placeOf x) (placeOf y).
Proof.
  intros Hx Hy. apply is_nan_Prim2SF in Hx, Hy.
  rewrite leb_spec. unfold SFleb.
  destruct (SFcompare_place _ _ Hx Hy) as [c [-> [Hlt Heq]]].
  unfold placeOf. rewrite <- Hlt, <- Heq.
  destruct c; split; intros H; auto; try discriminate;
    destruct H; discriminate.
Qed.

Lemma leb_number (x y : float) :
  (x <=? y) = true -> is_nan x = false /\ is_nan y = false.
Proof.
  intros H. split.
  - destruct (is_nan x) eqn:E; [|reflexivity]. now rewrite leb_nan_l in H.
  - destruct (is_nan y) eqn:E; [|reflexivity]. now rewrite leb_nan_r in H.
Qed.

Lemma leb_trans (x y z : float) :
  (x <=? y) = true -> (y <=? z) = true -> (x <=? z) = true.
Proof.
  intros H1 H2.
  destruct (leb_number _ _ H1) as [Hx Hy].
  destruct (leb_number _ _ H2) as [_ Hz].
  rewrite leb_place in H1, H2 |- * by assumption.
  places. lia.
Qed.

Lemma filter_Subseq_impl {A : Type} (P Q : A -> bool) (l : list A) :
  (forall a, P a = true -> Q a = true) ->
  Subseq (filter P l) (filter Q l).
Proof.
  intros HPQ. induction l as [|x l IH]; cbn [filter]; [constructor|].
  destruct (P x) eqn:HP.
  - rewrite (HPQ x HP). now constructor.
  - destruct (Q x); [now constructor | assumption].
Qed.

(** X13.  A wider window loses no item: what filterByDateRange keeps for a
    window it keeps, in the same order, for every window that starts no
    later and ends no earlier. *)
Theorem filterByDateRange_widen :
  forall items start1 end1 start2 end2,
    (Date_getTime start2 <=? Date_getTime start1) = true ->
    (Date_getTime end1 <=? Date_getTime end2) = true ->
    Subseq (filterByDateRange items start1 end1)
           (filterByDateRange items start2 end2).
Proof.
  intros items start1 end1 start2 end2 Hs He. unfold filterByDateRange.
  apply filter_Subseq_impl. intros item. unfold inDateRange.
  destruct (negb (Js.truthy_str (startTime item))
            && includes (category item) attraction); [reflexivity|].
  destruct (Js.truthy_str (startTime item)); [|discriminate].
  rewrite !andb_true_iff. intros [H1 H2]. split.
  - now apply (leb_trans _ (Date_getTime end1)).
  - now apply (leb_trans _ (Date_getTime start1)).
Qed.

(** X14.  With a window bound that [Date] cannot read, filterByDateRange
    keeps the items without a start time that are tagged as attractions and
    drops every other item; and an item whose start time cannot be read is
    dropped under every window. *)
Theorem filterByDateRange_unreadable :
  (forall items startISO endISO,
      is_nan (Date_getTime startISO) = true
      \/ is_nan (Date_getTime endISO) = true ->
      filterByDateRange items startISO endISO
      = filter (fun item => untimed item && includes (category item) attraction)
          items)
  /\ (forall items startISO endISO (item : NormalizedItem),
        Js.truthy_str (startTime item) = true ->
        is_nan (time_of (startTime item)) = true ->
        ~ In item (filterByDateRange items startISO endISO)).
Proof.
  split.
  - intros items startISO endISO H. unfold filterByDateRange.
    apply filter_ext. intros item. unfold inDateRange, untimed.
    destruct (Js.truthy_str (startTime item)); cbn [negb andb]; [|
      destruct (includes (category item) attraction); reflexivity].
    destruct H as [H|H].
    + rewrite (leb_nan_l _ _ H). apply andb_false_r.
    + rewrite (leb_nan_r _ _ H). reflexivity.
  - intros items startISO endISO item Ht Hn Hin.
    unfold filterByDateRange in Hin. apply filter_In in Hin as [_ Hin].
    unfold inDateRange in Hin. rewrite Ht in Hin. cbn [negb andb] in Hin.
    rewrite (leb_nan_l _ _ Hn) in Hin. discriminate.
Qed.

End Window.

(** The walk of the morning of 2025-06-10 is kept for that day, and for the
    three days around it. *)
Lemma filterByDateRange_widen_witness :
  Subseq
    (filterByDateRange (rt := exampleRuntime) [morningWalk]
       "2025-06-10T00:00:00Z" "2025-06-10T23:59:59Z")
    (filterByDateRange (rt := exampleRuntime) [morningWalk]
       "2025-06-09T00:00:00Z" "2025-06-12T00:00:00Z").
Proof.
  apply (filterByDateRange_widen (rt := exampleRuntime));
    vm_compute; reflexivity.
Defined.

(** A window that starts [tomorrow] keeps the monument, which has no start
    time, and drops the walk; a walk that starts [soon] is dropped. *)
Lemma filterByDateRange_unreadable_witness :
  filterByDateRange (rt := exampleRuntime)
    [morningWalk; happeningAt None None] "tomorrow" "2025-06-12T00:00:00Z"
  = [happeningAt None None]
  /\ ~ In (happening (Some "soon") None [event])
         (filterByDateRange (rt := exampleRuntime)
            [happening (Some "soon") None [event]]
            "2025-06-09T00:00:00Z" "2025-06-12T00:00:00Z").
Proof.
  split.
  - rewrite (proj1 (filterByDateRange_unreadable (rt := exampleRuntime)));
      [reflexivity|].
    left. vm_compute. reflexivity.
  - apply (proj2 (filterByDateRange_unreadable (rt := exampleRuntime)));
      vm_compute; reflexivity.
Defined.

(** *** rank: ranking again *)

Section SortedAlready.

Import F64Facts.

Open Scope float_scope.

Context {A : Type}.
Variable key : A -> float.
Variable comparefn : A -> A -> float.
Hypothesis key_number : forall a, is_nan (key a) = false.
Hypothesis comparefn_key : forall a b, comparefn a b = key b - key a.

(** Sorting a sorted array changes nothing. *)
Lemma Array_sort_sorted_id (l : list A) :
  StronglySorted (noLater key) l -> Js.Array_sort comparefn l = l.
Proof.
  unfold Js.Array_sort. induction 1 as [|x l Hl IH Hx]; cbn [fold_right].
  - reflexivity.
  - rewrite IH. destruct l as [|y l']; [reflexivity|].
    cbn [Js.sort_insert].
    rewrite (sort_insert_test key comparefn key_number comparefn_key).
    inversion Hx as [|? ? Hxy _]; subst. unfold noLater in Hxy.
    now rewrite Hxy.
Qed.

End SortedAlready.

Section RankAgain.

Import F64Facts.

Open Scope float_scope.

Context {rt : Runtime}.

Lemma map_id_on {A : Type} (f : A -> A) (l : list A) :
  (forall x, In x l -> f x = x) -> map f l = l.
Proof.
  induction l as [|x l IH]; intros H; cbn [map]; [reflexivity|].
  rewrite H by now left. rewrite IH; [reflexivity|].
  intros y Hy. apply H. now right.
Qed.

Lemma rank_Permutation items params :
  Permutation
    (scoredFrom (center params)
       (match sortBy params with
        | Some s => s
        | None => recommended
        end) 0 items)
    (rank items params).
Proof. rewrite rank_scoredFrom. apply Array_sort_Permutation. Qed.

Lemma rank_descending items params : descending (rank items params).
Proof.
  assert (Hcmp : forall a b, byScoreDesc a b = scoreKey b - scoreKey a)
    by reflexivity.
  unfold descending. rewrite rank_scoredFrom.
  apply StronglySorted_impl with (R := noLater scoreKey);
    [exact noLater_scoreKey|].
  apply (Array_sort_sorted scoreKey byScoreDesc scoreKey_number Hcmp).
Qed.

Lemma scoredFrom_In center sortBy items (u : NormalizedItem) : forall tick,
  In u (scoredFrom center sortBy tick items) ->
  exists item tick',
    In item items
    /\ u = with_score item (fst (itemScore center sortBy item tick')).
Proof.
  induction items as [|item items IH]; intros tick; [intros []|].
  cbn [scoredFrom]. intros [<-|Hin].
  - exists item, tick. split; [now left | reflexivity].
  - destruct (IH _ Hin) as [item' [tick' [Hi ->]]].
    exists item', tick'. split; [now right | reflexivity].
Qed.

Lemma In_scoredFrom center sortBy items (item : NormalizedItem) : forall tick,
  In item items ->
  exists s, In (with_score item s) (scoredFrom center sortBy tick items).
Proof.
  induction items as [|item' items IH]; intros tick; [intros []|].
  cbn [scoredFrom]. intros [->|Hin].
  - eexists. left. reflexivity.
  - destruct (IH (snd (itemScore center sortBy item' tick)) Hin) as [s H].
    exists s. now right.
Qed.

Lemma scoredFrom_length center sortBy items : forall tick,
  List.length (scoredFrom center sortBy tick items) = List.length items.
Proof.
  induction items as [|item items IH]; intros tick; [reflexivity|].
  cbn [scoredFrom List.length]. now rewrite IH.
Qed.

(** What rank returns is an item of its input, with a score. *)
Lemma rank_In items params u :
  In u (rank items params) ->
  exists item s, In item items /\ u = with_score item s.
Proof.
  intros Hu.
  apply (Permutation_in u (Permutation_sym (rank_Permutation items params))) in Hu.
  apply scoredFrom_In in Hu as [item [tick [Hitem ->]]]. eauto.
Qed.

Lemma In_rank items params item :
  In item items -> exists s, In (with_score item s) (rank items params).
Proof.
  intros Hitem.
  destruct (In_scoredFrom (center params)
              (match sortBy params with
               | Some s => s
               | None => recommended
               end) items item 0 Hitem) as [s Hs].
  exists s. exact (Permutation_in _ (rank_Permutation items params) Hs).
Qed.

Lemma rank_length items params :
  List.length (rank items params) = List.length items.
Proof.
  rewrite <- (Permutation_length (rank_Permutation items params)).
  apply scoredFrom_length.
Qed.

End RankAgain.

Section ClockFree.

Import F64Facts.

Open Scope float_scope.

(** The score of an item under a strategy that does not read the clock. *)
Lemma itemScore_clockFree (rt : Runtime) params :
  clockFree params = true ->
  exists score : NormalizedItem -> float,
    (forall item s, score (with_score item s) = score item)
    /\ forall readings item tick,
         itemScore (rt := rt) (center params)
           (match sortBy params with
            | Some s => s
            | None => recommended
            end) item tick
         = (score item, tick)
         /\ itemScore (rt := atClock rt readings) (center params)
              (match sortBy params with
               | Some s => s
               | None => recommended
               end) item tick
            = (score item, tick).
Proof.
  unfold clockFree. destruct (sortBy params) as [[| | |]|];
    try discriminate; destruct (center params) as [c|]; try discriminate;
    intros _.
  - exists (closestScore (rt := rt) c). split; [reflexivity|].
    intros readings item tick. split; reflexivity.
  - exists priceScore. split; [reflexivity|].
    intros readings item tick. split; reflexivity.
  - exists priceScore. split; [reflexivity|].
    intros readings item tick. split; reflexivity.
Qed.

Lemma scoredFrom_clockFree (rt : Runtime) center sortBy
  (score : NormalizedItem -> float) items :
  (forall item tick, itemScore center sortBy item tick = (score item, tick)) ->
  forall tick,
    scoredFrom center sortBy tick items
    = map (fun item => with_score item (score item)) items.
Proof.
  intros H. induction items as [|item items IH]; intros tick; [reflexivity|].
  cbn [scoredFrom map]. rewrite H. cbn [fst snd]. now rewrite IH.
Qed.

(** X15.  Under a strategy that does not read the clock ('price', or
    'closest' with a center), ranking a ranked list again, at whatever time,
    returns it as it is: the scores are computed anew from the other fields,
    whatever score an item comes with, and the order stands.  It is not so
    under the strategies that read the clock: the event that starts in a
    day, ranked after the standing offer, is ranked before it when the list
    is ranked again a millisecond later. *)
Theorem rank_idempotent :
  (forall (rt : Runtime) readings items params,
      clockFree params = true ->
      rank (rt := atClock rt readings) (rank (rt := rt) items params) params
      = rank (rt := rt) items params)
  /\ (rank (rt := exampleRuntime)
        [withPopularity tomorrowWalk (Some 0.8);
         withPopularity standingOffer (Some 0.95)] noParams
      = [with_score (withPopularity standingOffer (Some 0.95)) 30.5;
         with_score (withPopularity tomorrowWalk (Some 0.8)) 29]
      /\ rank (rt := atClock exampleRuntime (fun _ => 1749549600001))
           (rank (rt := exampleRuntime)
              [withPopularity tomorrowWalk (Some 0.8);
               withPopularity standingOffer (Some 0.95)] noParams) noParams
         = [with_score (withPopularity tomorrowWalk (Some 0.8)) 31;
            with_score (withPopularity standingOffer (Some 0.95)) 30.5]).
Proof.
  split; [|split; vm_compute; reflexivity].
  intros rt readings items params Hfree.
  assert (Hcmp : forall a b, byScoreDesc a b = scoreKey b - scoreKey a)
    by reflexivity.
  destruct (itemScore_clockFree rt params Hfree) as [score [Hscore Hitem]].
  rewrite (rank_scoredFrom (rt := atClock rt readings)).
  rewrite (rank_scoredFrom (rt := rt)).
  cbn [center sortBy].
  rewrite (scoredFrom_clockFree rt _ _ score)
    by (intros item tick; apply (Hitem readings)).
  rewrite (scoredFrom_clockFree (atClock rt readings) _ _ score)
    by (intros item tick; apply (Hitem readings)).
  set (ranked := Js.Array_sort byScoreDesc
                   (map (fun item => with_score item (score item)) items)).
  rewrite map_id_on.
  - apply (Array_sort_sorted_id scoreKey byScoreDesc scoreKey_number Hcmp).
    apply (Array_sort_sorted scoreKey byScoreDesc scoreKey_number Hcmp).
  - intros x Hx.
    apply (Permutation_in x
             (Permutation_sym (Array_sort_Permutation byScoreDesc _))) in Hx.
    apply in_map_iff in Hx as [item [<- _]].
    rewrite Hscore. reflexivity.
Qed.

End ClockFree.

(** The prices of a ranked list stand when it is ranked again a day
    later. *)
Lemma rank_idempotent_witness :
  rank (rt := atClock exampleRuntime (fun _ => 1749636000000%float))
    (rank (rt := exampleRuntime) [morningWalk; laterWalk]
       {| center := None; sortBy := Some price |})
    {| center := None; sortBy := Some price |}
  = rank (rt := exampleRuntime) [morningWalk; laterWalk]
      {| center := None; sortBy := Some price |}.
Proof.
  apply (proj1 rank_idempotent). reflexivity.
Defined.


(** *** Maps *)

Lemma Map_get_set {V : Type} (m : list (string * V)) (key : string) (value : V) :
  Map_get (Map_set m key value) key = Some value.
Proof.
  induction m as [|[k v] m IH]; cbn [Map_set Map_get].
  - now rewrite String.eqb_refl.
  - destruct (String.eqb k key) eqn:E; cbn [Map_get].
    + now rewrite String.eqb_refl.
    + now rewrite E.
Qed.

Lemma Map_get_set_other {V : Type} (m : list (string * V)) (key other : string)
  (value : V) :
  other <> key -> Map_get (Map_set m key value) other = Map_get m other.
Proof.
  intros Hne. induction m as [|[k v] m IH]; cbn [Map_set Map_get].
  - apply String.eqb_neq in Hne. rewrite String.eqb_sym. now rewrite Hne.
  - destruct (String.eqb k key) eqn:E; cbn [Map_get].
    + apply String.eqb_eq in E. subst k.
      apply String.eqb_neq in Hne. rewrite String.eqb_sym in Hne.
      now rewrite Hne.
    + destruct (String.eqb k other); [reflexivity | exact IH].
Qed.

Lemma Map_get_In {V : Type} (m : list (string * V)) (key : string) (value : V) :
  Map_get m key = Some value -> In (key, value) m.
Proof.
  induction m as [|[k v] m IH]; cbn [Map_get]; [discriminate|].
  destruct (String.eqb k key) eqn:E.
  - apply String.eqb_eq in E. intros [= <-]. subst. now left.
  - intros H. right. now apply IH.
Qed.

Lemma Map_set_In {V : Type} (m : list (string * V)) (key : string) (value : V)
  (k : string) (v : V) :
  In (k, v) (Map_set m key value) -> (k, v) = (key, value) \/ In (k, v) m.
Proof.
  induction m as [|[k' v'] m IH]; cbn [Map_set].
  - intros [H|[]]. now left.
  - destruct (String.eqb k' key).
    + intros [H|H]; [now left | right; now right].
    + intros [H|H]; [right; now left|].
      destruct (IH H); [now left | right; now right].
Qed.

Lemma Map_set_keys {V : Type} (m : list (string * V)) (key : string) (value : V) :
  map fst (Map_set m key value)
  = match Map_get m key with
    | Some _ => map fst m
    | None => map fst m ++ [key]
    end.
Proof.
  induction m as [|[k v] m IH]; cbn [Map_set Map_get map]; [reflexivity|].
  destruct (String.eqb k key) eqn:E.
  - apply String.eqb_eq in E. now subst.
  - cbn [map fst]. rewrite IH. now destruct (Map_get m key).
Qed.

Lemma Map_get_None {V : Type} (m : list (string * V)) (key : string) :
  Map_get m key = None -> ~ In key (map fst m).
Proof.
  induction m as [|[k v] m IH]; cbn [Map_get map fst]; [tauto|].
  destruct (String.eqb k key) eqn:E; [discriminate|].
  apply String.eqb_neq in E. intros H [H'|H']; [contradiction|].
  now apply IH.
Qed.

(** *** The search route *)

Section SearchFacts.

Import Exn.

Context {rt : Runtime} {cal : Search.Calendar}.

Lemma firstn_In {A : Type} (n : nat) (l : list A) (x : A) :
  In x (firstn n l) -> In x l.
Proof.
  revert l. induction n as [|n IH]; intros [|y l]; cbn [firstn In];
    try tauto.
  intros [H|H]; auto.
Qed.

Lemma firstn_StronglySorted {A : Type} (R : A -> A -> Prop) (n : nat) (l : list A) :
  StronglySorted R l -> StronglySorted R (firstn n l).
Proof.
  intros H. revert n. induction H as [|x l Hl IH Hx]; intros [|n];
    cbn [firstn]; try constructor.
  - apply IH.
  - rewrite Forall_forall in *. intros y Hy. apply Hx.
    now apply (firstn_In n).
Qed.

(** The search succeeded: its parameters were valid, the city was found, and
    the items that went into the pipeline are at hand. *)
Lemma search_Ok parsed geocodeCity fetchItems providerNames r :
  Search.search parsed geocodeCity fetchItems providerNames = Ok r ->
  exists validated geo allItems,
    parsed = Ok validated
    /\ geocodeCity (Validation.city validated) = Ok geo
    /\ Search.withMockItems validated
         (flat_map Route.itemsOf
            (map (fun p => match p with
                           | Route.returns v => Route.fulfilled v
                           | Route.throws e => Route.rejected e
                           end) (fetchItems validated geo)))
       = Ok allItems
    /\ Search.count r = List.length (Search.aggregate validated geo allItems)
    /\ Search.items r = firstn 200 (Search.aggregate validated geo allItems).
Proof.
  unfold Search.search. intros H.
  destruct parsed as [validated|e]; cbn [andThen] in H; [|discriminate].
  destruct (geocodeCity (Validation.city validated)) as [geo|e] eqn:Hgeo;
    cbn [andThen] in H; [|discriminate].
  unfold Route.collectItems, Route.Promise_allSettled in H.
  cbn [Route.bind andThen] in H.
  destruct (Search.withMockItems validated _) as [allItems|e] eqn:Hall;
    cbn [andThen] in H; [|discriminate].
  inversion H; subst; clear H. cbn [Search.count Search.items].
  exists validated, geo, allItems. auto.
Qed.

(** An answer with results is the answer of a search that succeeded. *)
Lemma GET_results parsed geocodeCity fetchItems providerNames r :
  Search.body (Search.GET parsed geocodeCity fetchItems providerNames)
  = Search.results r ->
  Search.search parsed geocodeCity fetchItems providerNames = Ok r.
Proof.
  unfold Search.GET.
  destruct (Search.search parsed geocodeCity fetchItems providerNames)
    as [r'|e]; cbn [Search.body].
  - now intros [= ->].
  - destruct e as [issues|message|]; cbn [Search.body]; try discriminate.
    destruct (String_includes message "City not found"); discriminate.
Qed.

(** X16.  The count of the answer of a search is the number of all the
    items that the pipeline returns for the items that were collected (the
    mock items, when nothing was collected), and the items of the answer are
    the first 200 of them in the order of rank: the answer holds 200 items
    at most, the best first, and counts the ones it leaves out. *)
Theorem GET_items :
  forall parsed geocodeCity fetchItems providerNames r,
    Search.body (Search.GET parsed geocodeCity fetchItems providerNames)
    = Search.results r ->
    exists validated geo collected allItems,
      parsed = Ok validated
      /\ geocodeCity (Validation.city validated) = Ok geo
      /\ Route.collectItems (fetchItems validated geo) = Route.returns collected
      /\ Search.withMockItems validated collected = Ok allItems
      /\ Search.count r = List.length (Search.aggregate validated geo allItems)
      /\ Search.items r = firstn 200 (Search.aggregate validated geo allItems)
      /\ List.length (Search.items r) = Nat.min 200 (Search.count r)
      /\ descending (Search.items r).
Proof.
  intros parsed geocodeCity fetchItems providerNames r H.
  apply GET_results in H.
  destruct (search_Ok _ _ _ _ _ H)
    as [validated [geo [allItems [Hp [Hg [Hall [Hc Hi]]]]]]].
  exists validated, geo,
    (flat_map Route.itemsOf
       (map (fun p => match p with
                      | Route.returns v => Route.fulfilled v
                      | Route.throws e => Route.rejected e
                      end) (fetchItems validated geo))),
    allItems.
  split; [exact Hp | split; [exact Hg | split; [reflexivity|]]].
  split; [exact Hall | split; [exact Hc | split; [exact Hi|]]].
  rewrite Hc, Hi. split.
  - apply length_firstn.
  - apply firstn_StronglySorted. unfold Search.aggregate.
    apply rank_descending.
Qed.

Lemma flat_map_itemsOf_In fetches p :
  In p (flat_map Route.itemsOf
          (map (fun o => match o with
                         | Route.returns v => Route.fulfilled v
                         | Route.throws e => Route.rejected e
                         end) fetches))
  <-> fetched fetches p.
Proof.
  unfold fetched. rewrite in_flat_map. split.
  - intros [x [Hx Hp]]. apply in_map_iff in Hx as [o [<- Ho]].
    destruct o as [l|e]; cbn [Route.itemsOf] in Hp; [|contradiction].
    now exists l.
  - intros [l [Hl Hp]]. exists (Route.fulfilled l). split; [|exact Hp].
    apply in_map_iff. now exists (Route.returns l).
Qed.

Lemma withMockItems_In validated collected allItems p :
  Search.withMockItems validated collected = Ok allItems ->
  In p allItems ->
  In p collected
  \/ (collected = []
      /\ exists mockItems,
           Search.getMockItems (Validation.city validated)
             (Validation.start validated) (Validation.end_ validated)
           = Ok mockItems
           /\ In p mockItems).
Proof.
  unfold Search.withMockItems. intros H Hp.
  destruct collected as [|c collected]; cbn [List.length Nat.eqb] in H.
  - destruct (Search.getMockItems _ _ _) as [mockItems|e];
      cbn [andThen] in H; [|discriminate].
    injection H as <-. cbn [app] in Hp. right. split; [reflexivity|].
    exists mockItems. auto.
  - inversion H; subst. now left.
Qed.

(** An item of the pipeline's result goes under the identifier of an item
    that went in, and has the fields of an item that got through the window
    filter. *)
Lemma aggregate_In validated geo allItems u :
  In u (Search.aggregate validated geo allItems) ->
  exists p item,
    In p allItems
    /\ passesCategoryFilter (Validation.categories validated) p = true
    /\ id u = itemId p
    /\ In item (filterByDateRange
                  (normalize allItems (Geocoding.timezone geo)
                     (Validation.categories validated))
                  (Validation.start validated) (Validation.end_ validated))
    /\ base u = base item.
Proof.
  unfold Search.aggregate. intros Hu.
  apply rank_In in Hu as [d [s [Hd ->]]]. cbn [with_score id base].
  pose proof (dedupe_Subseq
                (filterByDateRange
                   (normalize allItems (Geocoding.timezone geo)
                      (Validation.categories validated))
                   (Validation.start validated) (Validation.end_ validated)))
    as Hsub.
  assert (Hid : In (id d) (map id (filterByDateRange
                   (normalize allItems (Geocoding.timezone geo)
                      (Validation.categories validated))
                   (Validation.start validated) (Validation.end_ validated)))).
  { apply (Subseq_In _ _ _ Hsub). now apply in_map. }
  apply in_map_iff in Hid as [f [Hf Hfin]].
  unfold filterByDateRange in Hfin. apply filter_In in Hfin as [Hfin _].
  unfold normalize in Hfin. apply Array_map_In in Hfin as [p [tick [Hp ->]]].
  apply filter_In in Hp as [Hp Hpass].
  destruct (dedupe_In _ _ Hd) as [item [Hitem Hc]].
  exists p, item. repeat split; auto.
  rewrite Hc. reflexivity.
Qed.

(** X17.  Every item of the answer goes under the identifier of an item that
    a provider returned, or, when no provider returned an item, under the
    identifier of a mock item. *)
Theorem GET_identifiers :
  forall parsed geocodeCity fetchItems providerNames r (u : NormalizedItem),
    Search.body (Search.GET parsed geocodeCity fetchItems providerNames)
    = Search.results r ->
    In u (Search.items r) ->
    exists validated geo p,
      parsed = Ok validated
      /\ geocodeCity (Validation.city validated) = Ok geo
      /\ id u = itemId p
      /\ (fetched (fetchItems validated geo) p
          \/ ((forall q, ~ fetched (fetchItems validated geo) q)
              /\ exists mockItems,
                   Search.getMockItems (Validation.city validated)
                     (Validation.start validated) (Validation.end_ validated)
                   = Ok mockItems
                   /\ In p mockItems)).
Proof.
  intros parsed geocodeCity fetchItems providerNames r u H Hu.
  apply GET_results in H.
  destruct (search_Ok _ _ _ _ _ H)
    as [validated [geo [allItems [Hp [Hg [Hall [_ Hi]]]]]]].
  rewrite Hi in Hu. apply firstn_In in Hu.
  apply aggregate_In in Hu as [p [_ [Hin [_ [Hid _]]]]].
  exists validated, geo, p. repeat split; auto.
  destruct (withMockItems_In _ _ _ _ Hall Hin) as [Hc|[Hnone Hmock]].
  - left. now apply flat_map_itemsOf_In.
  - right. split; [|exact Hmock].
    intros q Hq. apply flat_map_itemsOf_In in Hq. rewrite Hnone in Hq.
    contradiction.
Qed.

(** X18.  Invalid parameters are answered with the status 400 and the issues
    found; a city that is not geocoded is answered with 404 when the message
    of the error says [City not found] and with 500 when it does not; and
    when one provider returns an item the answer is 200, whatever the other
    providers do. *)
Theorem GET_status :
  (forall issues geocodeCity fetchItems providerNames,
      Search.GET (Throw (ZodError issues)) geocodeCity fetchItems providerNames
      = {| Search.status := 400;
           Search.body := Search.failure "Invalid parameters" (Some issues) |})
  /\ (forall validated geocodeCity fetchItems providerNames message,
        geocodeCity (Validation.city validated) = Throw (Error message) ->
        Search.status
          (Search.GET (Ok validated) geocodeCity fetchItems providerNames)
        = if String_includes message "City not found" then 404%nat else 500%nat)
  /\ (forall validated geocodeCity fetchItems providerNames geo p,
        geocodeCity (Validation.city validated) = Ok geo ->
        fetched (fetchItems validated geo) p ->
        Search.status
          (Search.GET (Ok validated) geocodeCity fetchItems providerNames)
        = 200%nat).
Proof.
  split; [|split].
  - reflexivity.
  - intros validated geocodeCity fetchItems providerNames message Hg.
    unfold Search.GET, Search.search. cbn [andThen]. rewrite Hg. cbn [andThen].
    destruct (String_includes message "City not found"); reflexivity.
  - intros validated geocodeCity fetchItems providerNames geo p Hg Hp.
    unfold Search.GET, Search.search. cbn [andThen]. rewrite Hg. cbn [andThen].
    unfold Route.collectItems, Route.Promise_allSettled.
    cbn [Route.bind andThen].
    apply flat_map_itemsOf_In in Hp.
    unfold Search.withMockItems.
    destruct (flat_map Route.itemsOf _) as [|c collected]; [contradiction|].
    reflexivity.
Qed.

Lemma getMockItems_Ok city startISO endISO mockItems :
  Search.getMockItems city startISO endISO = Ok mockItems ->
  exists m1 m2 m3 m4 m5,
    mockItems = [m1; m2; m3; m4; m5]
    /\ externalId m1 = "mock-1" /\ externalId m2 = "mock-2"
    /\ externalId m3 = "mock-3" /\ externalId m4 = "mock-4"
    /\ externalId m5 = "mock-5"
    /\ startTime m1 = None /\ category m1 = [attraction; exhibition]
    /\ startTime m5 = None /\ category m5 = [exhibition].
Proof.
  unfold Search.getMockItems. intros H.
  destruct (Search.hoursAfter startISO 8) as [end2|]; [|discriminate].
  destruct (Search.hoursAfter startISO 24) as [start3|]; [|discriminate].
  destruct (Search.hoursAfter startISO 26) as [end3|]; [|discriminate].
  destruct (Search.hoursAfter startISO 48) as [start4|]; [|discriminate].
  destruct (Search.hoursAfter startISO 56) as [end4|]; [|discriminate].
  cbn [andThen] in H. injection H as <-.
  do 5 eexists. repeat split.
Qed.

(** An item without a start time that is no attraction does not get through
    normalize and filterByDateRange, whenever the clock is read for it. *)
Lemma untimed_other_dropped l p target filterCategories startISO endISO :
  startTime p = None -> includes (category p) attraction = false ->
  filterByDateRange (normalize (l ++ [p]) target filterCategories)
    startISO endISO
  = filterByDateRange (normalize l target filterCategories) startISO endISO.
Proof.
  intros Hs Hc. unfold normalize, filterByDateRange.
  rewrite filter_app, Array_map_app, filter_app.
  replace (filter _ (fst (Js.Array_map (normalizeItem target)
                            (filter (passesCategoryFilter filterCategories) [p])
                            _)))
    with (@nil NormalizedItem); [apply app_nil_r|].
  cbn [filter]. destruct (passesCategoryFilter filterCategories p);
    [|reflexivity].
  rewrite Array_map_cons. cbn [Js.Array_map fst filter].
  unfold inDateRange, normalizeItem. cbn [fst base startTime category].
  rewrite Hs, Hc. reflexivity.
Qed.

Lemma normalize_length l target filterCategories :
  (List.length (normalize l target filterCategories) <= List.length l)%nat.
Proof. unfold normalize. rewrite Array_map_length. apply filter_length_le. Qed.

Lemma filterByDateRange_length l startISO endISO :
  (List.length (filterByDateRange l startISO endISO) <= List.length l)%nat.
Proof. unfold filterByDateRange. apply filter_length_le. Qed.

(** X19.  When no provider returns an item the answer is made of the mock
    items: four of them at most, never the fifth, an exhibition without a
    start time that is no attraction, and, when no category is asked for,
    the first, the museum, which is an attraction without a start time. *)
Theorem GET_mock_items :
  forall validated geo geocodeCity fetchItems providerNames r,
    geocodeCity (Validation.city validated) = Ok geo ->
    (forall q, ~ fetched (fetchItems validated geo) q) ->
    Search.body (Search.GET (Ok validated) geocodeCity fetchItems providerNames)
    = Search.results r ->
    (Search.count r <= 4)%nat
    /\ (forall u : NormalizedItem,
          In u (Search.items r) -> externalId u <> "mock-5")
    /\ (Validation.categories validated = None ->
        exists u : NormalizedItem,
          In u (Search.items r) /\ externalId u = "mock-1").
Proof.
  intros validated geo geocodeCity fetchItems providerNames r Hgeo Hnone H.
  apply GET_results in H.
  destruct (search_Ok _ _ _ _ _ H)
    as [validated' [geo' [allItems [Hp [Hg [Hall [Hc Hi]]]]]]].
  injection Hp as <-. rewrite Hgeo in Hg. injection Hg as <-.
  assert (Hcollected :
            flat_map Route.itemsOf
              (map (fun p => match p with
                             | Route.returns v => Route.fulfilled v
                             | Route.throws e => Route.rejected e
                             end) (fetchItems validated geo)) = []).
  { destruct (flat_map _ _) as [|q l] eqn:E; [reflexivity|].
    exfalso. apply (Hnone q). apply flat_map_itemsOf_In. rewrite E. now left. }
  rewrite Hcollected in Hall. unfold Search.withMockItems in Hall.
  cbn [List.length Nat.eqb] in Hall.
  destruct (Search.getMockItems _ _ _) as [mockItems|] eqn:Hmock;
    cbn [andThen app] in Hall; [|discriminate].
  injection Hall as <-.
  destruct (getMockItems_Ok _ _ _ _ Hmock)
    as [m1 [m2 [m3 [m4 [m5 [-> [E1 [E2 [E3 [E4 [E5 [S1 [C1 [S5 C5]]]]]]]]]]]]]].
  set (tz := Geocoding.timezone geo) in *.
  set (cats := Validation.categories validated) in *.
  set (s := Validation.start validated) in *.
  set (e := Validation.end_ validated) in *.
  assert (Hfiltered :
            filterByDateRange (normalize [m1; m2; m3; m4; m5] tz cats) s e
            = filterByDateRange (normalize [m1; m2; m3; m4] tz cats) s e).
  { change [m1; m2; m3; m4; m5] with ([m1; m2; m3; m4] ++ [m5]).
    apply untimed_other_dropped; [exact S5 | now rewrite C5]. }
  assert (Hlen : (List.length (Search.aggregate validated geo [m1; m2; m3; m4; m5])
                  <= 4)%nat).
  { unfold Search.aggregate. fold tz cats s e.
    rewrite rank_length, Hfiltered.
    pose proof (Subseq_length _ _
                  (dedupe_Subseq
                     (filterByDateRange (normalize [m1; m2; m3; m4] tz cats) s e)))
      as Hd.
    rewrite !length_map in Hd.
    pose proof (filterByDateRange_length (normalize [m1; m2; m3; m4] tz cats) s e).
    pose proof (normalize_length [m1; m2; m3; m4] tz cats) as Hn.
    cbn [List.length] in Hn. lia. }
  split; [|split].
  - now rewrite Hc.
  - intros u Hu. rewrite Hi in Hu. apply firstn_In in Hu.
    apply aggregate_In in Hu as [_ [item [_ [_ [_ [Hitem Hb]]]]]].
    fold tz cats s e in Hitem. rewrite Hfiltered in Hitem.
    unfold filterByDateRange in Hitem. apply filter_In in Hitem as [Hitem _].
    unfold normalize in Hitem.
    apply Array_map_In in Hitem as [p [tick [Hp ->]]].
    apply filter_In in Hp as [Hp _].
    rewrite Hb. cbn [normalizeItem fst base externalId].
    cbn [In] in Hp.
    destruct Hp as [<-|[<-|[<-|[<-|[]]]]]; rewrite ?E1, ?E2, ?E3, ?E4;
      discriminate.
  - intros Hcats.
    set (n1 := fst (normalizeItem tz m1 0%nat)).
    assert (Hn1 : In n1 (filterByDateRange
                          (normalize [m1; m2; m3; m4; m5] tz cats) s e)).
    { unfold filterByDateRange. apply filter_In. split.
      - unfold normalize. rewrite Hcats. cbn [filter passesCategoryFilter].
        rewrite Array_map_cons. now left.
      - unfold inDateRange, n1, normalizeItem. cbn [fst base startTime category].
        rewrite S1, C1. reflexivity. }
    assert (Hu1 : untimed n1 = true).
    { unfold untimed, n1, normalizeItem. cbn [fst base startTime].
      now rewrite S1. }
    assert (Hd1 : In n1 (dedupe (filterByDateRange
                          (normalize [m1; m2; m3; m4; m5] tz cats) s e))).
    { assert (Hf : In n1 (filter untimed (dedupe (filterByDateRange
                          (normalize [m1; m2; m3; m4; m5] tz cats) s e)))).
      { rewrite dedupe_filter_untimed. apply filter_In. now split. }
      now apply filter_In in Hf. }
    destruct (In_rank _ {| center := Some (Geocoding.lat geo, Geocoding.lng geo);
                           sortBy := None |} _ Hd1) as [sc Hr].
    exists (with_score n1 sc). split.
    + rewrite Hi. rewrite firstn_all2; [exact Hr|]. lia.
    + cbn [with_score base]. unfold n1, normalizeItem.
      cbn [fst base externalId]. exact E1.
Qed.

End SearchFacts.

(** A search in Lisbon with one provider down and the other returning the
    two items of the merge example. *)
Lemma GET_items_witness :
  match Search.body
          (Search.GET (rt := routeRuntime) (cal := routeCalendar)
             (Exn.Ok lisbonSearch) findsLisbon oneProviderDown
             ["Eventbrite"; "Meetup"]) with
  | Search.results r =>
      Search.count r
      = List.length
          (Search.aggregate (rt := routeRuntime) lisbonSearch lisbon
             [jazzA; jazzB])
      /\ Search.items r
         = firstn 200
             (Search.aggregate (rt := routeRuntime) lisbonSearch lisbon
                [jazzA; jazzB])
  | Search.failure _ _ => False
  end.
Proof.
  destruct (Search.body
              (Search.GET (rt := routeRuntime) (cal := routeCalendar)
                 (Exn.Ok lisbonSearch) findsLisbon oneProviderDown
                 ["Eventbrite"; "Meetup"])) as [r|error details] eqn:E.
  - destruct (GET_items (rt := routeRuntime) (cal := routeCalendar) _ _ _ _ r E)
      as [validated [geo [collected [allItems
           [Hp [Hg [Hcol [Hall [Hc [Hi _]]]]]]]]]].
    injection Hp as <-. injection Hg as <-. injection Hcol as <-.
    injection Hall as <-. split; assumption.
  - vm_compute in E. discriminate.
Defined.

(** The item that this search answers goes under the identifier of an item
    of the provider that answered. *)
Lemma GET_identifiers_witness :
  match Search.body
          (Search.GET (rt := routeRuntime) (cal := routeCalendar)
             (Exn.Ok lisbonSearch) findsLisbon oneProviderDown
             ["Eventbrite"; "Meetup"]) with
  | Search.results r =>
      match Search.items r with
      | u :: _ =>
          exists validated geo p,
            Exn.Ok lisbonSearch = Exn.Ok validated
            /\ findsLisbon (Validation.city validated) = Exn.Ok geo
            /\ id u = itemId (rt := routeRuntime) p
            /\ (fetched (oneProviderDown validated geo) p
                \/ ((forall q, ~ fetched (oneProviderDown validated geo) q)
                    /\ exists mockItems,
                         Search.getMockItems (rt := routeRuntime)
                           (cal := routeCalendar)
                           (Validation.city validated)
                           (Validation.start validated)
                           (Validation.end_ validated)
                         = Exn.Ok mockItems
                         /\ In p mockItems))
      | [] => False
      end
  | Search.failure _ _ => False
  end.
Proof.
  destruct (Search.body
              (Search.GET (rt := routeRuntime) (cal := routeCalendar)
                 (Exn.Ok lisbonSearch) findsLisbon oneProviderDown
                 ["Eventbrite"; "Meetup"])) as [r|error details] eqn:E.
  - destruct (Search.items r) as [|u rest] eqn:Ei.
    + vm_compute in E. injection E as <-. discriminate.
    + apply (GET_identifiers (rt := routeRuntime) (cal := routeCalendar)
               _ _ _ _ r u E).
      rewrite Ei. left. reflexivity.
  - vm_compute in E. discriminate.
Defined.

(** A city that the geocoder says it does not find is answered with 404, and
    the search in Lisbon with one provider down with 200. *)
Lemma GET_status_witness :
  Search.status
    (Search.GET (rt := routeRuntime) (cal := routeCalendar)
       (Exn.Ok lisbonSearch) findsNothing oneProviderDown
       ["Eventbrite"; "Meetup"])
  = 404%nat
  /\ Search.status
       (Search.GET (rt := routeRuntime) (cal := routeCalendar)
          (Exn.Ok lisbonSearch) findsLisbon oneProviderDown
          ["Eventbrite"; "Meetup"])
     = 200%nat.
Proof.
  split.
  - exact (proj1 (proj2 (GET_status (rt := routeRuntime) (cal := routeCalendar)))
             lisbonSearch findsNothing oneProviderDown ["Eventbrite"; "Meetup"]
             "City not found: Lisbon" eq_refl).
  - apply (proj2 (proj2 (GET_status (rt := routeRuntime) (cal := routeCalendar)))
             lisbonSearch findsLisbon oneProviderDown ["Eventbrite"; "Meetup"]
             lisbon jazzA eq_refl).
    exists [jazzA; jazzB]. split; [right; left; reflexivity | left; reflexivity].
Defined.

(** The search in Lisbon with no provider returning an item. *)
Lemma GET_mock_items_witness :
  match Search.body
          (Search.GET (rt := routeRuntime) (cal := routeCalendar)
             (Exn.Ok lisbonSearch) findsLisbon allProvidersDown
             ["Eventbrite"; "Meetup"]) with
  | Search.results r =>
      (Search.count r <= 4)%nat
      /\ (forall u : NormalizedItem,
            In u (Search.items r) -> externalId u <> "mock-5")
      /\ exists u : NormalizedItem,
           In u (Search.items r) /\ externalId u = "mock-1"
  | Search.failure _ _ => False
  end.
Proof.
  destruct (Search.body
              (Search.GET (rt := routeRuntime) (cal := routeCalendar)
                 (Exn.Ok lisbonSearch) findsLisbon allProvidersDown
                 ["Eventbrite"; "Meetup"])) as [r|error details] eqn:E.
  - assert (Hnone : forall q,
               ~ fetched (allProvidersDown lisbonSearch lisbon) q).
    { intros q [l [[Hl|[Hl|[]]] Hq]]; [discriminate|].
      injection Hl as <-. contradiction. }
    destruct (GET_mock_items (rt := routeRuntime) (cal := routeCalendar)
                lisbonSearch lisbon findsLisbon allProvidersDown
                ["Eventbrite"; "Meetup"] r eq_refl Hnone E)
      as [Hcount [Hfifth Hfirst]].
    split; [exact Hcount | split; [exact Hfifth | exact (Hfirst eq_refl)]].
  - vm_compute in E. discriminate.
Defined.

(** *** Geocoding *)

Section GeocodingFacts.

Import Exn.

Open Scope float_scope.

(** When Nominatim fails and the cache has no fresh entry, the error of
    Nominatim is dropped: with a key for Google the answer is Google's, and
    without one the error thrown says [Failed to geocode city]; the cache
    stays as it is. *)
Lemma geocodeCity_failed geocodeCache now storedAt city error googleKey google :
  noFreshEntry geocodeCache now (Js.toLowerCase city) ->
  Geocoding.geocodeCity geocodeCache now storedAt city (Throw error)
    googleKey google
  = if Js.truthy_str googleKey then (google, geocodeCache)
    else (Throw (Error ("Failed to geocode city: " ++ city)), geocodeCache).
Proof.
  intros Hmiss. unfold Geocoding.geocodeCity.
  destruct (Map_get geocodeCache (Js.toLowerCase city)) as [entry|] eqn:Hget;
    [|reflexivity].
  now rewrite (Hmiss entry Hget).
Qed.

Lemma String_includes_failed city :
  String_includes ("Failed to geocode city: " ++ city) "City not found"
  = String_includes city "City not found".
Proof. reflexivity. Qed.

Context {rt : Runtime} {cal : Search.Calendar}.

(** X20.  A city that Nominatim does not find is answered with 500 and not
    with 404 when no key for Google is configured: geocodeCity drops the
    error of Nominatim, which says [City not found], and throws one that
    says [Failed to geocode city], leaving its cache as it is.  The answer
    is 404 only when the name of the city itself reads [City not found]. *)
Theorem GET_city_not_found :
  forall validated geocodeCache now storedAt googleKey google fetchItems
         providerNames,
    noFreshEntry geocodeCache now
      (Js.toLowerCase (Validation.city validated)) ->
    Js.truthy_str googleKey = false ->
    Geocoding.geocodeCity geocodeCache now storedAt (Validation.city validated)
      (Throw (Error ("City not found: " ++ Validation.city validated)))
      googleKey google
    = (Throw (Error ("Failed to geocode city: " ++ Validation.city validated)),
       geocodeCache)
    /\ Search.status
         (Search.GET (Ok validated)
            (fun city =>
               fst (Geocoding.geocodeCity geocodeCache now storedAt city
                      (Throw (Error ("City not found: " ++ city)))
                      googleKey google))
            fetchItems providerNames)
       = if String_includes (Validation.city validated) "City not found"
         then 404%nat else 500%nat.
Proof.
  intros validated geocodeCache now storedAt googleKey google fetchItems
    providerNames Hmiss Hkey.
  split.
  - rewrite geocodeCity_failed by assumption. now rewrite Hkey.
  - unfold Search.GET, Search.search. cbn [andThen].
    rewrite geocodeCity_failed by assumption. rewrite Hkey. cbn [fst andThen].
    rewrite String_includes_failed.
    destruct (String_includes (Validation.city validated) "City not found");
      reflexivity.
Qed.

(** X21.  A fresh entry of the cache is the answer of geocodeCity, whatever
    the geocoders would say; and what Nominatim finds is stored, and is the
    answer to the calls of the next hour for the same city, in upper or
    lower case. *)
Theorem geocodeCity_cache :
  (forall geocodeCache now storedAt city nominatim googleKey google entry,
      Map_get geocodeCache (Js.toLowerCase city) = Some entry ->
      (now - Geocoding.timestamp entry <? Geocoding.CACHE_TTL) = true ->
      Geocoding.geocodeCity geocodeCache now storedAt city nominatim googleKey google
      = (Ok (Geocoding.result entry), geocodeCache))
  /\ (forall geocodeCache now storedAt city found googleKey google,
        noFreshEntry geocodeCache now (Js.toLowerCase city) ->
        let answer :=
          Geocoding.geocodeCity geocodeCache now storedAt city (Ok found)
            googleKey google in
        fst answer = Ok found
        /\ forall later storedLater city' nominatim' googleKey' google',
             Js.toLowerCase city' = Js.toLowerCase city ->
             (later - storedAt <? Geocoding.CACHE_TTL) = true ->
             Geocoding.geocodeCity (snd answer) later storedLater city'
               nominatim' googleKey' google'
             = (Ok found, snd answer)).
Proof.
  split.
  - intros geocodeCache now storedAt city nominatim googleKey google entry Hget Hfresh.
    unfold Geocoding.geocodeCity. rewrite Hget, Hfresh. reflexivity.
  - intros geocodeCache now storedAt city found googleKey google Hmiss answer.
    assert (Ha : answer
                 = (Ok found,
                    Map_set geocodeCache (Js.toLowerCase city)
                      {| Geocoding.result := found;
                         Geocoding.timestamp := storedAt |})).
    { unfold answer, Geocoding.geocodeCity.
      destruct (Map_get geocodeCache (Js.toLowerCase city)) as [entry|] eqn:Hget;
        [|reflexivity].
      now rewrite (Hmiss entry Hget). }
    rewrite Ha. cbn [fst snd]. split; [reflexivity|].
    intros later storedLater city' nominatim' googleKey' google' Hkey Hfresh.
    unfold Geocoding.geocodeCity. rewrite Hkey, Map_get_set.
    cbn [Geocoding.timestamp Geocoding.result]. now rewrite Hfresh.
Qed.

End GeocodingFacts.

(** Lisbon is not found, no key for Google is configured and the cache is
    empty: the answer is 500. *)
Lemma GET_city_not_found_witness :
  Search.status
    (Search.GET (rt := routeRuntime) (cal := routeCalendar)
       (Exn.Ok lisbonSearch)
       (fun city =>
          fst (Geocoding.geocodeCity [] 1749549600000%float 1749549600000%float
                 city (Exn.Throw (Exn.Error ("City not found: " ++ city)))
                 None (Exn.Throw Exn.NotAnError)))
       oneProviderDown ["Eventbrite"; "Meetup"])
  = 500%nat.
Proof.
  apply (proj2 (GET_city_not_found (rt := routeRuntime) (cal := routeCalendar)
                  lisbonSearch [] 1749549600000%float 1749549600000%float
                  None (Exn.Throw Exn.NotAnError) oneProviderDown
                  ["Eventbrite"; "Meetup"]
                  ltac:(intros entry H; discriminate) eq_refl)).
Defined.

(** Half an hour after Lisbon was stored, [LISBON] is answered from the
    cache; and an answer of Nominatim for [Lisbon] is the answer for
    [LISBON] half an hour later. *)
Lemma geocodeCity_cache_witness :
  Geocoding.geocodeCity lisbonCached 1749551400000%float 1749551400000%float
    "LISBON" (Exn.Throw Exn.NotAnError) None (Exn.Throw Exn.NotAnError)
  = (Exn.Ok lisbon, lisbonCached)
  /\ Geocoding.geocodeCity
       (snd (Geocoding.geocodeCity [] 1749549600000%float 1749549600000%float
               "Lisbon" (Exn.Ok lisbon) None (Exn.Throw Exn.NotAnError)))
       1749551400000%float 1749551400000%float
       "LISBON" (Exn.Throw Exn.NotAnError) None (Exn.Throw Exn.NotAnError)
     = (Exn.Ok lisbon,
        snd (Geocoding.geocodeCity [] 1749549600000%float 1749549600000%float
               "Lisbon" (Exn.Ok lisbon) None (Exn.Throw Exn.NotAnError))).
Proof.
  split.
  - apply (proj1 geocodeCity_cache lisbonCached 1749551400000%float
             1749551400000%float "LISBON" (Exn.Throw Exn.NotAnError) None
             (Exn.Throw Exn.NotAnError)
             {| Geocoding.result := lisbon;
                Geocoding.timestamp := 1749549600000%float |});
      reflexivity.
  - apply (proj2 (proj2 geocodeCity_cache [] 1749549600000%float
                    1749549600000%float "Lisbon" lisbon None
                    (Exn.Throw Exn.NotAnError)
                    ltac:(intros entry H; discriminate)));
      reflexivity.
Defined.

(** *** The cache of the providers *)

Section ProviderCache.

Import Route.

Open Scope float_scope.

Variable CACHE_TTL : float.

(** X22.  The data that a fetcher returns are stored, and are the answer to
    the calls for the same key as long as they are fresh, whatever the
    fetchers of these calls would give. *)
Theorem fetchWithCache_stored :
  forall providerCache now storedAt cacheKey items,
    noFreshData CACHE_TTL providerCache now cacheKey ->
    let answer :=
      BaseProvider.fetchWithCache CACHE_TTL providerCache now storedAt cacheKey
        (returns items) in
    fst answer = returns items
    /\ forall later storedLater fetcher,
         (later - storedAt <? CACHE_TTL) = true ->
         BaseProvider.fetchWithCache CACHE_TTL (snd answer) later storedLater
           cacheKey fetcher
         = (returns items, snd answer).
Proof.
  intros providerCache now storedAt cacheKey items Hmiss answer.
  assert (Ha : answer
               = (returns items,
                  Map_set providerCache cacheKey
                    {| BaseProvider.key := cacheKey;
                       BaseProvider.data := items;
                       BaseProvider.timestamp := storedAt |})).
  { unfold answer, BaseProvider.fetchWithCache.
    destruct (Map_get providerCache cacheKey) as [entry|] eqn:Hget;
      [|reflexivity].
    now rewrite (Hmiss entry Hget). }
  rewrite Ha. cbn [fst snd]. split; [reflexivity|].
  intros later storedLater fetcher Hfresh.
  unfold BaseProvider.fetchWithCache. rewrite Map_get_set.
  cbn [BaseProvider.timestamp BaseProvider.data]. now rewrite Hfresh.
Qed.

Lemma fetchWithCache_keeps providerCache now storedAt cacheKey fetcher key :
  Map_get providerCache key <> None ->
  Map_get (snd (BaseProvider.fetchWithCache CACHE_TTL providerCache now storedAt
                  cacheKey fetcher)) key <> None.
Proof.
  intros Hkey. unfold BaseProvider.fetchWithCache.
  assert (Hset : forall entry,
             Map_get (Map_set providerCache cacheKey entry) key <> None).
  { intros entry. destruct (String.eqb key cacheKey) eqn:E.
    - apply String.eqb_eq in E. subst. now rewrite Map_get_set.
    - apply String.eqb_neq in E. now rewrite Map_get_set_other. }
  destruct (Map_get providerCache cacheKey) as [entry|];
    [destruct (_ <? _)|]; destruct fetcher; cbn [snd]; auto.
Qed.

Lemma fetchWithCache_answers providerCache now storedAt cacheKey fetcher :
  Map_get providerCache cacheKey <> None ->
  exists answer,
    fst (BaseProvider.fetchWithCache CACHE_TTL providerCache now storedAt
           cacheKey fetcher) = returns answer.
Proof.
  intros Hkey. unfold BaseProvider.fetchWithCache.
  destruct (Map_get providerCache cacheKey) as [entry|]; [|contradiction].
  destruct (_ <? _); [eexists; reflexivity|].
  destruct fetcher; eexists; reflexivity.
Qed.

(** X23.  Once the cache has data for a key, no call for this key throws:
    when the fetcher fails the data of the cache are the answer, fresh or
    not, and no call removes an entry of the cache. *)
Theorem fetchWithCache_never_throws_again :
  forall calls providerCache key,
    Map_get providerCache key <> None ->
    Map_get (snd (BaseProvider.fetchesWithCache CACHE_TTL providerCache calls))
      key <> None
    /\ forall n call,
         nth_error calls n = Some call ->
         BaseProvider.call_cacheKey call = key ->
         exists answer,
           nth_error
             (fst (BaseProvider.fetchesWithCache CACHE_TTL providerCache calls)) n
           = Some (returns answer).
Proof.
  induction calls as [|c calls IH]; intros providerCache key Hkey;
    cbn [BaseProvider.fetchesWithCache].
  - split; [exact Hkey|]. intros [|n] call H; discriminate.
  - pose proof (fetchWithCache_keeps providerCache
                  (BaseProvider.call_now c) (BaseProvider.call_storedAt c)
                  (BaseProvider.call_cacheKey c) (BaseProvider.call_fetcher c)
                  key Hkey) as Hkeep.
    pose proof (fetchWithCache_answers providerCache
                  (BaseProvider.call_now c) (BaseProvider.call_storedAt c)
                  (BaseProvider.call_cacheKey c) (BaseProvider.call_fetcher c))
      as Hans.
    destruct (BaseProvider.fetchWithCache CACHE_TTL providerCache _ _ _ _)
      as [outcome providerCache'].
    cbn [fst snd] in *.
    destruct (IH providerCache' key Hkeep) as [Hfinal Hrest].
    destruct (BaseProvider.fetchesWithCache CACHE_TTL providerCache' calls)
      as [outcomes final].
    cbn [fst snd] in *. split; [exact Hfinal|].
    intros [|n] call Hn Hc; cbn [nth_error] in *.
    + injection Hn as <-. rewrite Hc in Hans.
      destruct (Hans Hkey) as [answer ->]. now exists answer.
    + now apply (Hrest n call).
Qed.

End ProviderCache.

(** With a cache of 30 minutes, what Meetup returns for Lisbon is the answer
    ten minutes later, though the fetcher fails then. *)
Lemma fetchWithCache_stored_witness :
  BaseProvider.fetchWithCache 1800000%float
    (snd (BaseProvider.fetchWithCache 1800000%float [] 1749549600000%float
            1749549600500%float "meetup:Lisbon" (Route.returns [jazzB])))
    1749550200000%float 1749550200000%float "meetup:Lisbon"
    (Route.throws "HTTP 503: Service Unavailable")
  = (Route.returns [jazzB],
     snd (BaseProvider.fetchWithCache 1800000%float [] 1749549600000%float
            1749549600500%float "meetup:Lisbon" (Route.returns [jazzB]))).
Proof.
  apply (proj2 (fetchWithCache_stored 1800000%float [] 1749549600000%float
                  1749549600500%float "meetup:Lisbon" [jazzB]
                  ltac:(intros entry H; discriminate))).
  reflexivity.
Defined.

(** The data of the day before are the answer when the fetcher fails. *)
Lemma fetchWithCache_never_throws_again_witness :
  exists answer,
    nth_error
      (fst (BaseProvider.fetchesWithCache 1800000%float dayOldCache
              [failingCall])) 0
    = Some (Route.returns answer).
Proof.
  apply (proj2 (fetchWithCache_never_throws_again 1800000%float [failingCall]
                  dayOldCache "meetup:Lisbon" ltac:(discriminate))
           0%nat failingCall);
    reflexivity.
Defined.

(** *** fetchWithRetry *)

Section Retry.

Import Route.

Variable fetch : nat -> Outcome BaseProvider.Response.
Variable random : nat -> float.
Variable maxRetries : nat.

Lemma retry_done remaining i lastError :
  triesAgain (fetch i) = false ->
  exists response,
    fetch i = returns response
    /\ BaseProvider.retry fetch random maxRetries (S remaining) i lastError
       = (returns response, []).
Proof.
  intros H. cbn [BaseProvider.retry].
  destruct (fetch i) as [response|error]; cbn [triesAgain] in H; [|discriminate].
  apply orb_false_iff in H as [H1 H2]. rewrite H1, H2. now exists response.
Qed.

Lemma retry_again remaining i lastError :
  triesAgain (fetch i) = true ->
  exists lastError',
    fst (BaseProvider.retry fetch random maxRetries (S remaining) i lastError)
    = fst (BaseProvider.retry fetch random maxRetries remaining (S i) lastError').
Proof.
  intros H. cbn [BaseProvider.retry].
  destruct (fetch i) as [response|error]; cbn [triesAgain] in H.
  - destruct (BaseProvider.status response =? 429)%nat.
    + exists lastError.
      destruct (BaseProvider.retry fetch random maxRetries remaining (S i) lastError).
      reflexivity.
    + cbn [orb] in H. rewrite H.
      exists (Some (BaseProvider.httpError response)).
      destruct (BaseProvider.retry fetch random maxRetries remaining (S i) _).
      destruct (i <? maxRetries - 1)%nat; reflexivity.
  - exists (Some error).
    destruct (BaseProvider.retry fetch random maxRetries remaining (S i) _).
    destruct (i <? maxRetries - 1)%nat; reflexivity.
Qed.

Lemma retry_returns remaining : forall i lastError response,
  fst (BaseProvider.retry fetch random maxRetries remaining i lastError)
  = returns response
  <-> exists n,
        (n < remaining)%nat
        /\ fetch (i + n) = returns response
        /\ triesAgain (fetch (i + n)) = false
        /\ forall k, (k < n)%nat -> triesAgain (fetch (i + k)) = true.
Proof.
  induction remaining as [|remaining IH]; intros i lastError response.
  - cbn [BaseProvider.retry fst]. split; [discriminate|]. intros [n [Hn _]]. lia.
  - destruct (triesAgain (fetch i)) eqn:Ht.
    + destruct (retry_again remaining i lastError Ht) as [lastError' ->].
      rewrite IH. split.
      * intros [n [Hn [Hf [Hd Hk]]]]. exists (S n).
        rewrite Nat.add_succ_r. repeat split; auto; try lia.
        intros [|k] Hlt; [now rewrite Nat.add_0_r|].
        rewrite Nat.add_succ_r. apply Hk. lia.
      * intros [[|n] [Hn [Hf [Hd Hk]]]].
        -- rewrite Nat.add_0_r in Hd. congruence.
        -- exists n. rewrite Nat.add_succ_r in Hf, Hd.
           repeat split; auto; try lia.
           intros k Hlt. specialize (Hk (S k)). rewrite Nat.add_succ_r in Hk.
           apply Hk. lia.
    + destruct (retry_done remaining i lastError Ht) as [r [Hr ->]].
      cbn [fst]. split.
      * intros [= <-]. exists 0%nat. rewrite Nat.add_0_r.
        repeat split; auto; lia.
      * intros [[|n] [Hn [Hf [Hd Hk]]]].
        -- rewrite Nat.add_0_r in Hf. congruence.
        -- specialize (Hk 0%nat). rewrite Nat.add_0_r in Hk.
           rewrite Hk in Ht by lia. discriminate.
Qed.

(** X24.  fetchWithRetry returns an answer exactly when one of its
    [maxRetries] attempts did not throw and was answered neither 429 nor a
    server error: it returns the answer of the first such attempt. *)
Theorem fetchWithRetry_returns :
  forall response,
    fst (BaseProvider.fetchWithRetry fetch random maxRetries) = returns response
    <-> exists n,
          (n < maxRetries)%nat
          /\ fetch n = returns response
          /\ triesAgain (fetch n) = false
          /\ forall k, (k < n)%nat -> triesAgain (fetch k) = true.
Proof.
  intros response. unfold BaseProvider.fetchWithRetry.
  rewrite retry_returns. reflexivity.
Qed.

Lemma retry_limited remaining : forall i lastError,
  (forall k, (k < remaining)%nat ->
     exists response,
       fetch (i + k) = returns response
       /\ BaseProvider.status response = 429%nat) ->
  BaseProvider.retry fetch random maxRetries remaining i lastError
  = (throws (match lastError with
             | Some error => error
             | None => "Failed to fetch after retries"%string
             end),
     map (waitAfterLimit random) (seq i remaining)).
Proof.
  induction remaining as [|remaining IH]; intros i lastError H;
    cbn [BaseProvider.retry seq map]; [reflexivity|].
  destruct (H 0%nat ltac:(lia)) as [response [Hf Hs]].
  rewrite Nat.add_0_r in Hf. rewrite Hf, Hs. cbn [Nat.eqb].
  rewrite IH; [reflexivity|].
  intros k Hk. specialize (H (S k) ltac:(lia)).
  now rewrite Nat.add_succ_r in H.
Qed.

Lemma retry_failing (error : nat -> string) remaining : forall i lastError,
  (i + remaining = maxRetries)%nat ->
  (forall k, (k < remaining)%nat -> fetch (i + k) = throws (error (i + k))) ->
  BaseProvider.retry fetch random maxRetries remaining i lastError
  = (throws (match remaining with
             | O => match lastError with
                    | Some e => e
                    | None => "Failed to fetch after retries"%string
                    end
             | S _ => error (maxRetries - 1)%nat
             end),
     map waitAfterError (seq i (remaining - 1))).
Proof.
  induction remaining as [|remaining IH]; intros i lastError Hi H;
    cbn [BaseProvider.retry]; [reflexivity|].
  pose proof (H 0%nat ltac:(lia)) as Hf. rewrite Nat.add_0_r in Hf.
  rewrite Hf. rewrite IH; [| lia |].
  - destruct remaining as [|remaining].
    + replace (i <? maxRetries - 1)%nat with false
        by (symmetry; apply Nat.ltb_ge; lia).
      cbn [Nat.sub seq map]. do 2 f_equal. f_equal. lia.
    + replace (i <? maxRetries - 1)%nat with true
        by (symmetry; apply Nat.ltb_lt; lia).
      cbn [Nat.sub seq map]. rewrite Nat.sub_0_r. reflexivity.
  - intros k Hk. specialize (H (S k) ltac:(lia)).
    now rewrite Nat.add_succ_r in H.
Qed.

(** X25.  fetchWithRetry gives up after [maxRetries] attempts.  When every
    attempt is answered 429 it throws [Failed to fetch after retries],
    having waited after every attempt, the last one included; when every
    attempt throws it throws the error of the last attempt, having waited
    between the attempts and not after the last one. *)
Theorem fetchWithRetry_gives_up :
  ((forall k, (k < maxRetries)%nat ->
      exists response,
        fetch k = returns response /\ BaseProvider.status response = 429%nat) ->
   BaseProvider.fetchWithRetry fetch random maxRetries
   = (throws "Failed to fetch after retries",
      map (waitAfterLimit random) (seq 0 maxRetries)))
  /\ (forall error : nat -> string,
        (0 < maxRetries)%nat ->
        (forall k, (k < maxRetries)%nat -> fetch k = throws (error k)) ->
        BaseProvider.fetchWithRetry fetch random maxRetries
        = (throws (error (maxRetries - 1)%nat),
           map waitAfterError (seq 0 (maxRetries - 1)))).
Proof.
  split.
  - intros H. unfold BaseProvider.fetchWithRetry. now apply retry_limited.
  - intros error Hpos H. unfold BaseProvider.fetchWithRetry.
    rewrite (retry_failing error); auto.
    destruct maxRetries; [lia | reflexivity].
Qed.

End Retry.

(** Three attempts answered 429 are followed by waits of one, two and four
    seconds, the jitter apart; three attempts that are refused are separated
    by waits of half a second and of one second. *)
Lemma fetchWithRetry_gives_up_witness :
  BaseProvider.fetchWithRetry alwaysLimited noJitter 3
  = (Route.throws "Failed to fetch after retries",
     [1000%float; 2000%float; 4000%float])
  /\ BaseProvider.fetchWithRetry alwaysRefused noJitter 3
     = (Route.throws "fetch failed", [500%float; 1000%float]).
Proof.
  split.
  - rewrite (proj1 (fetchWithRetry_gives_up alwaysLimited noJitter 3));
      [reflexivity|].
    intros k _. exists limitAnswer. split; reflexivity.
  - rewrite (proj2 (fetchWithRetry_gives_up alwaysRefused noJitter 3)
               (fun _ => "fetch failed"));
      [reflexivity | lia | reflexivity].
Defined.

(** *** The places of OpenTripMap *)

Section PlacesFacts.

Variable toFixed4 : float -> string.

Lemma keepPlace_placesOf seen uniqueItems item :
  placesOf toFixed4 seen uniqueItems ->
  placesOf toFixed4 (seen ++ [item])
    (OpenTripMap.keepPlace toFixed4 uniqueItems item).
Proof.
  intros [Hd [Hk Hs]]. unfold OpenTripMap.keepPlace.
  set (keyOf := OpenTripMap.locationKey toFixed4) in *.
  assert (Hother : forall other : ProviderItem,
             In other seen ->
             forall kept,
               Map_get uniqueItems (keyOf other) = Some kept ->
               (Js.truthy_str (description other) = true ->
                Js.truthy_str (description kept) = true) ->
               (Js.truthy_str (description item) = true
                \/ keyOf other <> keyOf item
                \/ Js.truthy_str (description other) = false) ->
               exists kept',
                 Map_get (Map_set uniqueItems (keyOf item) item)
                   (keyOf other) = Some kept'
                 /\ (Js.truthy_str (description other) = true ->
                     Js.truthy_str (description kept') = true)).
  { intros other Ho kept Hg Hdesc Hcase.
    destruct (String.eqb (keyOf other) (keyOf item)) eqn:E.
    - apply String.eqb_eq in E. rewrite E, Map_get_set. exists item.
      split; [reflexivity|]. intros Hdo.
      destruct Hcase as [H|[H|H]]; [assumption | contradiction | congruence].
    - apply String.eqb_neq in E. rewrite Map_get_set_other by assumption.
      now exists kept. }
  assert (Hinsert :
            (Map_get uniqueItems (keyOf item) = None
             \/ exists kept,
                  Map_get uniqueItems (keyOf item) = Some kept
                  /\ Js.truthy_str (description item) = true
                  /\ Js.truthy_str (description kept) = false) ->
            placesOf toFixed4 (seen ++ [item])
              (Map_set uniqueItems (keyOf item) item)).
  { intros Hcase. split; [|split].
    - rewrite Map_set_keys.
      destruct (Map_get uniqueItems (keyOf item)) eqn:Hg; [exact Hd|].
      apply NoDup_app; [exact Hd | repeat constructor; auto|].
      intros k Hin [<-|[]]. now apply (Map_get_None _ _ Hg).
    - intros key kept Hin. apply Map_set_In in Hin as [[= -> ->]|Hin].
      + split; [reflexivity|]. apply in_or_app. right. now left.
      + destruct (Hk key kept Hin) as [-> Hseen]. split; [reflexivity|].
        apply in_or_app. now left.
    - intros other Ho. apply in_app_or in Ho as [Ho|[<-|[]]].
      + destruct (Hs other Ho) as [kept [Hg Hdesc]].
        apply (Hother other Ho kept Hg Hdesc).
        destruct Hcase as [Hnone|[kept' [Hg' [Hdi Hdk]]]].
        * right. left. intros E. fold keyOf in Hg. rewrite E in Hg. congruence.
        * now left.
      + fold keyOf. rewrite Map_get_set. exists item. auto. }
  destruct (Map_get uniqueItems (keyOf item)) as [kept|] eqn:Hg.
  - destruct (Js.truthy_str (description item)
              && negb (Js.truthy_str (description kept))) eqn:E.
    + apply andb_true_iff in E as [E1 E2]. apply negb_true_iff in E2.
      apply Hinsert. right. now exists kept.
    + split; [exact Hd | split].
      * intros key kept' Hin. destruct (Hk key kept' Hin) as [-> Hseen].
        split; [reflexivity|]. apply in_or_app. now left.
      * intros other Ho. apply in_app_or in Ho as [Ho|[<-|[]]];
          [now apply Hs|].
        exists kept. split; [exact Hg|]. intros Hdi. rewrite Hdi in E.
        cbn [andb] in E. now apply negb_false_iff in E.
  - apply Hinsert. now left.
Qed.

Lemma fold_keepPlace_placesOf items : forall seen uniqueItems,
  placesOf toFixed4 seen uniqueItems ->
  placesOf toFixed4 (seen ++ items)
    (fold_left (OpenTripMap.keepPlace toFixed4) items uniqueItems).
Proof.
  induction items as [|item items IH]; intros seen uniqueItems H;
    cbn [fold_left].
  - now rewrite app_nil_r.
  - replace (seen ++ item :: items) with ((seen ++ [item]) ++ items)
      by (now rewrite <- app_assoc).
    apply IH. now apply keepPlace_placesOf.
Qed.

(** X26.  The places that uniquePlaces keeps are places of its input, no two
    of them at one location (the coordinates in four decimals); every
    location of the input has its place, and the place has a description
    when a place of the input at this location has one. *)
Theorem uniquePlaces_locations :
  forall items,
    NoDup (map (OpenTripMap.locationKey toFixed4)
             (OpenTripMap.uniquePlaces toFixed4 items))
    /\ (forall kept,
          In kept (OpenTripMap.uniquePlaces toFixed4 items) -> In kept items)
    /\ (forall item,
          In item items ->
          exists kept,
            In kept (OpenTripMap.uniquePlaces toFixed4 items)
            /\ OpenTripMap.locationKey toFixed4 kept
               = OpenTripMap.locationKey toFixed4 item
            /\ (Js.truthy_str (description item) = true ->
                Js.truthy_str (description kept) = true)).
Proof.
  intros items. unfold OpenTripMap.uniquePlaces.
  assert (H0 : placesOf toFixed4 [] []).
  { split; [constructor | split]; intros; contradiction. }
  pose proof (fold_keepPlace_placesOf items [] [] H0) as [Hd [Hk Hs]].
  cbn [app] in *.
  set (m := fold_left (OpenTripMap.keepPlace toFixed4) items []) in *.
  split; [|split].
  - replace (map (OpenTripMap.locationKey toFixed4) (map snd m))
      with (map fst m); [exact Hd|].
    rewrite map_map. apply map_ext_in. intros [k v] Hin.
    now destruct (Hk k v Hin).
  - intros kept Hin. apply in_map_iff in Hin as [[k v] [<- Hin]].
    now destruct (Hk k v Hin).
  - intros item Hitem. destruct (Hs item Hitem) as [kept [Hg Hdesc]].
    exists kept. apply Map_get_In in Hg.
    split; [|split; [|exact Hdesc]].
    + apply in_map_iff.
      now exists (OpenTripMap.locationKey toFixed4 item, kept).
    + now destruct (Hk _ _ Hg).
Qed.

End PlacesFacts.

(** Of the two records of the tower of Belem, the place that is kept has a
    description. *)
Lemma uniquePlaces_locations_witness :
  exists kept,
    In kept (OpenTripMap.uniquePlaces JsNumber.toFixed4 lisbonPlaces)
    /\ OpenTripMap.locationKey JsNumber.toFixed4 kept = "38.6916,-9.2160"
    /\ Js.truthy_str (description kept) = true.
Proof.
  destruct (proj2 (proj2 (uniquePlaces_locations JsNumber.toFixed4 lisbonPlaces))
              (placeAt "Belem Tower" (Some "a fortification of the 16th century")
                 38.69161%float (-9.21601)%float))
    as [kept [Hin [Hkey Hdesc]]].
  - right. left. reflexivity.
  - exists kept. split; [exact Hin | split].
    + rewrite Hkey. vm_compute. reflexivity.
    + apply Hdesc. reflexivity.
Defined.

(** *** The shortlist and its exports *)

Section ShortlistFacts.

Context {rt : Runtime}.

Lemma isInShortlist_In items i :
  Shortlist.isInShortlist items i = true <-> In i (map Shortlist.id items).
Proof.
  unfold Shortlist.isInShortlist. rewrite existsb_exists, in_map_iff. split.
  - intros [s [Hs E]]. apply String.eqb_eq in E. now exists s.
  - intros [s [E Hs]]. exists s. split; [assumption|]. now apply String.eqb_eq.
Qed.

Lemma updateNotes_ids prev i n :
  map Shortlist.id (Shortlist.updateNotes prev i n) = map Shortlist.id prev.
Proof.
  unfold Shortlist.updateNotes. rewrite map_map. apply map_ext.
  intros s. destruct (String.eqb (Shortlist.id s) i); reflexivity.
Qed.

Lemma removeItem_ids prev i :
  map Shortlist.id (Shortlist.removeItem prev i)
  = filter (fun j => negb (String.eqb j i)) (map Shortlist.id prev).
Proof.
  unfold Shortlist.removeItem. induction prev as [|s prev IH]; [reflexivity|].
  cbn [filter map]. destruct (String.eqb (Shortlist.id s) i); cbn [negb map];
    now rewrite IH.
Qed.

(** X27.  The entries of a shortlist keep distinct identifiers, whatever is
    added, removed or annotated. *)
Theorem shortlist_distinct :
  forall prev item notes i n,
    NoDup (map Shortlist.id prev) ->
    NoDup (map Shortlist.id (Shortlist.addItem prev item notes))
    /\ NoDup (map Shortlist.id (Shortlist.removeItem prev i))
    /\ NoDup (map Shortlist.id (Shortlist.updateNotes prev i n)).
Proof.
  intros prev item notes i n H. split; [|split].
  - unfold Shortlist.addItem.
    destruct (existsb _ prev) eqn:E; [exact H|].
    rewrite map_app. cbn [map Shortlist.id].
    apply NoDup_app; [exact H | repeat constructor; auto |].
    intros j Hj [<-|[]].
    apply isInShortlist_In in Hj. unfold Shortlist.isInShortlist in Hj.
    congruence.
  - rewrite removeItem_ids. now apply NoDup_filter.
  - now rewrite updateNotes_ids.
Qed.

(** X28.  An item that is added is in the shortlist, and an identifier that
    is removed is not; removing an item that was just added to a shortlist
    without it gives that shortlist back; and a note changes no
    membership. *)
Theorem shortlist_membership :
  forall prev item notes i n,
    Shortlist.isInShortlist (Shortlist.addItem prev item notes)
      (Shortlist.idOf item) = true
    /\ Shortlist.isInShortlist (Shortlist.removeItem prev i) i = false
    /\ (Shortlist.isInShortlist prev (Shortlist.idOf item) = false ->
        Shortlist.removeItem (Shortlist.addItem prev item notes)
          (Shortlist.idOf item) = prev)
    /\ (forall j, Shortlist.isInShortlist (Shortlist.updateNotes prev i n) j
                  = Shortlist.isInShortlist prev j).
Proof.
  intros prev item notes i n. split; [|split; [|split]].
  - unfold Shortlist.addItem.
    destruct (existsb _ prev) eqn:E; [exact E|].
    unfold Shortlist.isInShortlist. rewrite existsb_app. cbn [existsb Shortlist.id].
    rewrite String.eqb_refl. now rewrite orb_true_r.
  - apply not_true_iff_false. rewrite isInShortlist_In, removeItem_ids.
    rewrite filter_In. intros [_ H]. now rewrite String.eqb_refl in H.
  - intros H. unfold Shortlist.addItem. unfold Shortlist.isInShortlist in H.
    rewrite H. unfold Shortlist.removeItem. rewrite filter_app.
    cbn [filter Shortlist.id]. rewrite String.eqb_refl. cbn [negb].
    rewrite app_nil_r. apply forallb_filter_id.
    apply forallb_forall. intros s Hs.
    destruct (String.eqb (Shortlist.id s) (Shortlist.idOf item)) eqn:E;
      [|reflexivity].
    exfalso. apply not_true_iff_false in H. apply H.
    apply existsb_exists. now exists s.
  - intros j. apply eq_true_iff_eq.
    now rewrite !isInShortlist_In, updateNotes_ids.
Qed.

End ShortlistFacts.

(** The first item of the merge example, added twice to an empty shortlist,
    is in it once. *)
Lemma shortlist_distinct_witness :
  NoDup
    (map Shortlist.id
       (Shortlist.addItem (rt := exampleRuntime)
          (Shortlist.addItem (rt := exampleRuntime) [] normalizedJazzA None)
          normalizedJazzA (Some "bring a coat"))).
Proof.
  apply (proj1 (shortlist_distinct (rt := exampleRuntime)
                  (Shortlist.addItem (rt := exampleRuntime) [] normalizedJazzA None)
                  normalizedJazzA (Some "bring a coat") EmptyString EmptyString
                  ltac:(vm_compute; repeat constructor; intros []))).
Defined.

(** Added to the empty shortlist and removed, it leaves the empty
    shortlist. *)
Lemma shortlist_membership_witness :
  Shortlist.removeItem
    (Shortlist.addItem (rt := exampleRuntime) [] normalizedJazzA None)
    (Shortlist.idOf normalizedJazzA)
  = [].
Proof.
  apply (proj1 (proj2 (proj2
           (shortlist_membership (rt := exampleRuntime) [] normalizedJazzA None
              EmptyString EmptyString)))).
  reflexivity.
Defined.

Lemma readQuoted_doubleQuotes str :
  readQuoted (Shortlist.doubleQuotes str ++ String Shortlist.quote EmptyString)
  = str.
Proof.
  induction str as [|c str IH]; [reflexivity|].
  cbn [Shortlist.doubleQuotes].
  destruct (Ascii.eqb c Shortlist.quote) eqn:E.
  - apply Ascii.eqb_eq in E. subst c. cbn [String.append readQuoted].
    rewrite Ascii.eqb_refl. now rewrite IH.
  - cbn [String.append readQuoted]. rewrite E. now rewrite IH.
Qed.

(** X29.  What escapeCSV writes for a field is read back as the field: a
    field with a comma, a double quote or a line feed is written between
    double quotes with its double quotes doubled, and every other field as
    it is. *)
Theorem escapeCSV_read_back :
  forall str, readCSVField (Shortlist.escapeCSV str) = str.
Proof.
  intros str. unfold Shortlist.escapeCSV.
  destruct (Shortlist.includesChar str Shortlist.comma
            || Shortlist.includesChar str Shortlist.quote
            || Shortlist.includesChar str Shortlist.lineFeed) eqn:E.
  - cbn [readCSVField]. rewrite Ascii.eqb_refl. apply readQuoted_doubleQuotes.
  - apply orb_false_iff in E as [E _]. apply orb_false_iff in E as [_ E].
    destruct str as [|c str]; [reflexivity|].
    cbn [Shortlist.includesChar] in E. apply orb_false_iff in E as [E _].
    cbn [readCSVField]. now rewrite E.
Qed.

(** X30.  What escapeICS writes for a text has no line feed, and is read
    back as the text. *)
Theorem escapeICS_read_back :
  forall str,
    Shortlist.includesChar (Shortlist.escapeICS str) Shortlist.lineFeed = false
    /\ readICSText (Shortlist.escapeICS str) = str.
Proof.
  intros str. unfold Shortlist.escapeICS.
  induction str as [|c str [IH1 IH2]]; [split; reflexivity|].
  cbn [Shortlist.escapeSeparators].
  destruct (Ascii.eqb c Shortlist.comma || Ascii.eqb c Shortlist.semicolon
            || Ascii.eqb c Shortlist.backslash) eqn:E.
  - assert (Hc : c = Shortlist.comma \/ c = Shortlist.semicolon
                 \/ c = Shortlist.backslash).
    { rewrite !orb_true_iff, !Ascii.eqb_eq in E. tauto. }
    destruct Hc as [->|[->| ->]];
      cbn [Shortlist.escapeLineFeeds Ascii.eqb Shortlist.backslash
             Shortlist.lineFeed Shortlist.comma Shortlist.semicolon
             Bool.eqb andb Shortlist.includesChar orb readICSText];
      fold Shortlist.lineFeed; rewrite IH1, IH2; split; reflexivity.
  - cbn [Shortlist.escapeLineFeeds].
    destruct (Ascii.eqb c Shortlist.lineFeed) eqn:El.
    + apply Ascii.eqb_eq in El. subst c.
      cbn [Shortlist.includesChar readICSText Ascii.eqb Shortlist.backslash
             Shortlist.lineFeed Bool.eqb andb orb].
      fold Shortlist.lineFeed. rewrite IH1, IH2. split; reflexivity.
    + cbn [Shortlist.includesChar readICSText]. rewrite El.
      apply orb_false_iff in E as [_ E]. rewrite E.
      cbn [orb]. rewrite IH1, IH2. split; reflexivity.
Qed.
